(** * Verification of the volatility-screening engine of [automation.py]

    The development embeds the pure part of [automation.py] in Rocq:
    - [filter_dates], the expiration filter;
    - [build_term_structure] and the closure [term_spline] it returns;
    - [yang_zhang], the realized-volatility estimator;
    - [compute_recommendation], the screening engine with its two providers.
    - [main], the batch driver over the earnings calendar.

    Conventions of the embedding.
    - A calendar date is its day ordinal, an integer: [strptime] and
      [strftime] with the format ["%Y-%m-%d"] are mutually inverse on
      well-formed dates, so comparing or looking up the strings is comparing
      or looking up the ordinals.
    - A finite float is a rational number, so market data (prices, strikes,
      implied volatilities, quotes, volumes) are in [Q] and arithmetic on them
      is exact.  The estimator takes logarithms and square roots, so its value
      is in [R]; a value that numpy would render as NaN or as an infinity is
      [None].
    - A Python exception is a value of [exn], and a fallible computation
      returns a [result]. *)

From Stdlib Require Import Ascii String.
From Stdlib Require Import ZArith QArith Qround Reals Lra Lia List Bool.
From Stdlib Require Import Sorting.Sorted Sorting.Permutation.
From Stdlib Require Import Qreals.
From Stdlib Require Lqa.
Import ListNotations.

Open Scope Z_scope.

(** ** Exceptions and results *)

Inductive exn : Type :=
| ValueError (msg : string)
| KeyError
| IndexError
| ZeroDivisionError
| ProviderError.

Inductive result (A : Type) : Type :=
| Ok (a : A)
| Raise (e : exn).

Arguments Ok {A} a.
Arguments Raise {A} e.

Definition bind {A B : Type} (m : result A) (k : A -> result B) : result B :=
  match m with
  | Ok a => k a
  | Raise e => Raise e
  end.

Notation "x <- m ;; k" := (bind m (fun x => k))
  (at level 61, m at next level, right associativity).

(** ** Sorting, as Python's [sorted] does it: stable, by a key. *)

Section StableSort.
Context {A : Type} (leb : A -> A -> bool).

Fixpoint insert_sorted (x : A) (l : list A) : list A :=
  match l with
  | [] => [x]
  | y :: l' => if leb x y then x :: l else y :: insert_sorted x l'
  end.

Definition stable_sort (l : list A) : list A :=
  fold_right insert_sorted [] l.
End StableSort.

(** [sorted(dates)] on dates. *)
Definition sorted (l : list Z) : list Z := stable_sort Z.leb l.

(** ** The expiration filter: [filter_dates] *)

(** The [for i, date in enumerate(sorted_dates)] loop: the index of the first
    date on or after the cutoff, counting from [i]. *)
Fixpoint first_reaching (cutoff_date : Z) (l : list Z) (i : nat) : option nat :=
  match l with
  | [] => None
  | date :: l' =>
      if cutoff_date <=? date then Some i
      else first_reaching cutoff_date l' (S i)
  end.

Definition no_date_msg : string := "No date 45 days or more in the future found.".

Definition filter_dates (today : Z) (dates : list Z) : result (list Z) :=
  let cutoff_date := today + 45 in
  let sorted_dates := sorted dates in
  let arr :=
    match first_reaching cutoff_date sorted_dates 0 with
    | Some i => firstn (i + 1) sorted_dates
    | None => []
    end in
  if (0 <? length arr)%nat then
    match arr with
    | d0 :: rest => if d0 =? today then Ok rest else Ok arr
    | [] => Ok arr
    end
  else Raise (ValueError no_date_msg).

(** ** The term structure: [build_term_structure] *)

(** [np.unique]: sort, then keep an element when it differs from the one
    before it. *)
Fixpoint unique_from (prev : Z) (l : list Z) : list Z :=
  match l with
  | [] => []
  | x :: l' => if x =? prev then unique_from x l' else x :: unique_from x l'
  end.

Definition np_unique (days : list Z) : list Z :=
  match sorted days with
  | [] => []
  | x :: l => x :: unique_from x l
  end.

(** [days.argsort()]: the indices that put [days] in ascending order.
    numpy's default sort does not promise the order of equal elements:
    [sort_order] below says which index arrays it may return, and [argsort]
    is the one of them that leaves equal days in the order of the input.
    With pairwise distinct days there is no other. *)
Definition argsort (days : list Z) : list nat :=
  map fst
    (stable_sort (fun p q => snd p <=? snd q)
       (combine (seq 0 (length days)) days)).

(** [a[idx]] for an index array: out of range raises [IndexError]. *)
Fixpoint take {A : Type} (a : list A) (idx : list nat) : result (list A) :=
  match idx with
  | [] => Ok []
  | i :: idx' =>
      match nth_error a i with
      | Some v => (vs <- take a idx' ;; Ok (v :: vs))
      | None => Raise IndexError
      end
  end.

(** [np.searchsorted(x, v)] (side left) on an ascending array: the number of
    elements below [v]. *)
Fixpoint searchsorted (x : list Z) (v : Z) : nat :=
  match x with
  | [] => 0%nat
  | x0 :: x' => if x0 <? v then S (searchsorted x' v) else 0%nat
  end.

(** [interp1d(days, ivs, kind='linear', fill_value="extrapolate")], called at
    one point: scipy's linear evaluation clips the insertion index to
    [1 .. len(x)-1], and interpolates on the segment that ends there.  A
    segment of width zero makes the slope infinite or undefined and the value
    NaN: [None]. *)
Definition spline (x : list Z) (y : list Q) (x_new : Z) : option Q :=
  let hi := Nat.min (Nat.max (searchsorted x x_new) 1) (length x - 1) in
  let lo := (hi - 1)%nat in
  let x_lo := nth lo x 0 in
  let x_hi := nth hi x 0 in
  let y_lo := nth lo y 0%Q in
  let y_hi := nth hi y 0%Q in
  if x_hi - x_lo =? 0 then None
  else Some (((y_hi - y_lo) / inject_Z (x_hi - x_lo)) * inject_Z (x_new - x_lo) + y_lo)%Q.

(** The closure [term_spline] over the sorted arrays.  [days[0]], [ivs[0]],
    [days[-1]] and [ivs[-1]] exist: the arrays hold at least two points. *)
Definition term_spline (days : list Z) (ivs : list Q) (dte : Z) : option Q :=
  if dte <? hd 0 days then Some (hd 0%Q ivs)
  else if last days 0 <? dte then Some (last ivs 0%Q)
  else spline days ivs dte.

Definition not_enough_msg : string :=
  "Not enough unique expiry dates to build term structure.".

Definition build_term_structure (days : list Z) (ivs : list Q)
  : result (Z -> option Q) :=
  if (length (np_unique days) <? 2)%nat then Raise (ValueError not_enough_msg)
  else
    let sort_idx := argsort days in
    days' <- take days sort_idx ;;
    ivs' <- take ivs sort_idx ;;
    Ok (term_spline days' ivs').

(** What [days.argsort()] may return: a permutation of the indices that
    puts [days] in ascending order. *)
Definition sort_order (days : list Z) (sort_idx : list nat) : Prop :=
  Permutation sort_idx (seq 0 (length days)) /\
  StronglySorted Z.le (map (fun i => nth i days 0) sort_idx).

(** [build_term_structure(days, ivs)] when [days.argsort()] returns
    [sort_idx]. *)
Definition build_term_structure_by (sort_idx : list nat) (days : list Z) (ivs : list Q)
  : result (Z -> option Q) :=
  if (length (np_unique days) <? 2)%nat then Raise (ValueError not_enough_msg)
  else
    days' <- take days sort_idx ;;
    ivs' <- take ivs sort_idx ;;
    Ok (term_spline days' ivs').

(** ** The realized-volatility estimator: [yang_zhang] *)

(** One row of a daily price frame. *)
Record PriceBar : Type := mkBar {
  Date : Z;
  Open : Q;
  High : Q;
  Low : Q;
  Close : Q;
  Volume : Q
}.

(** A pandas series of floats; [None] is NaN. *)
Definition Series : Type := list (option R).

Fixpoint map2 {A B C : Type} (f : A -> B -> C) (la : list A) (lb : list B) : list C :=
  match la, lb with
  | a :: la', b :: lb' => f a b :: map2 f la' lb'
  | _, _ => []
  end.

Definition lift2 {A : Type} (op : A -> A -> A) (a b : option A) : option A :=
  match a, b with
  | Some u, Some v => Some (op u v)
  | _, _ => None
  end.

Section YangZhang.
Local Open Scope R_scope.

(** [price_data['High']] and the like. *)
Definition column (f : PriceBar -> Q) (price_data : list PriceBar) : list (option Q) :=
  map (fun b => Some (f b)) price_data.

(** [.shift(1)]: every value moves one row down, the first row is NaN. *)
Definition shift1 {A : Type} (s : list (option A)) : list (option A) :=
  match s with
  | [] => []
  | _ :: _ => None :: removelast s
  end.

(** [(a / b).apply(np.log)] on one row: finite when the quotient is
    positive. *)
Definition log_ratio (a b : option Q) : option R :=
  match a, b with
  | Some u, Some v =>
      if Qlt_le_dec 0 (u / v) then Some (ln (Q2R u / Q2R v)) else None
  | _, _ => None
  end.

Definition s_add : Series -> Series -> Series := map2 (lift2 Rplus).
Definition s_sub : Series -> Series -> Series := map2 (lift2 Rminus).
Definition s_mul : Series -> Series -> Series := map2 (lift2 Rmult).
Definition s_sq (s : Series) : Series := map (option_map (fun v => v * v)) s.
Definition s_scale (c : R) (s : Series) : Series := map (option_map (fun v => c * v)) s.

(** [np.sqrt]: NaN on a negative number. *)
Definition np_sqrt (x : option R) : option R :=
  match x with
  | Some v => if Rle_dec 0 v then Some (sqrt v) else None
  | None => None
  end.

Fixpoint sum_all (l : Series) : option R :=
  match l with
  | [] => Some 0
  | x :: l' => lift2 Rplus x (sum_all l')
  end.

(** [.rolling(window=window, center=False).sum()] at row [i]: defined when
    the [window] rows ending at [i] exist and none of them is NaN. *)
Definition window_sum (window : nat) (s : Series) (i : nat) : option R :=
  if (S i <? window)%nat then None
  else sum_all (firstn window (skipn (S i - window) s)).

Definition rolling_sum (window : nat) (s : Series) : Series :=
  map (window_sum window s) (seq 0 (length s)).

(** The weight [k = 0.34 / (1.34 + ((window + 1) / (window - 1)))]. *)
Definition yz_k (window : nat) : R :=
  0.34 / (1.34 + ((INR window + 1) / (INR window - 1))).

(** The per-row series of [yang_zhang], named as its variables. *)
Definition log_ho (price_data : list PriceBar) : Series :=
  map2 log_ratio (column High price_data) (column Open price_data).
Definition log_lo (price_data : list PriceBar) : Series :=
  map2 log_ratio (column Low price_data) (column Open price_data).
Definition log_co (price_data : list PriceBar) : Series :=
  map2 log_ratio (column Close price_data) (column Open price_data).
Definition log_oc (price_data : list PriceBar) : Series :=
  map2 log_ratio (column Open price_data) (shift1 (column Close price_data)).
Definition log_oc_sq (price_data : list PriceBar) : Series := s_sq (log_oc price_data).
Definition log_cc (price_data : list PriceBar) : Series :=
  map2 log_ratio (column Close price_data) (shift1 (column Close price_data)).
Definition log_cc_sq (price_data : list PriceBar) : Series := s_sq (log_cc price_data).
Definition rs (price_data : list PriceBar) : Series :=
  s_add (s_mul (log_ho price_data) (s_sub (log_ho price_data) (log_co price_data)))
        (s_mul (log_lo price_data) (s_sub (log_lo price_data) (log_co price_data))).

(** A rolling sum times [1.0 / (window - 1.0)]. *)
Definition rolling_scaled (window : nat) (s : Series) : Series :=
  s_scale (1 / (INR window - 1)) (rolling_sum window s).

(** The series [result] of [yang_zhang].  With [window = 1] the factor
    [1.0 / (window - 1.0)] divides by zero. *)
Definition yang_zhang_result (price_data : list PriceBar) (window : nat)
           (trading_periods : R) : result Series :=
  if (window =? 1)%nat then Raise ZeroDivisionError
  else
    let close_vol := rolling_scaled window (log_cc_sq price_data) in
    let open_vol := rolling_scaled window (log_oc_sq price_data) in
    let window_rs := rolling_scaled window (rs price_data) in
    let k := yz_k window in
    Ok (map (fun v => lift2 Rmult (np_sqrt v) (np_sqrt (Some trading_periods)))
            (s_add (s_add open_vol (s_scale k close_vol))
                   (s_scale (1 - k) window_rs))).

(** [dropna()]. *)
Fixpoint dropna (s : Series) : list R :=
  match s with
  | [] => []
  | Some v :: s' => v :: dropna s'
  | None :: s' => dropna s'
  end.

(** [yang_zhang(price_data, window, trading_periods, return_last_only=True)]:
    [result.iloc[-1]], which raises [IndexError] on an empty frame. *)
Definition yang_zhang (price_data : list PriceBar) (window : nat)
           (trading_periods : R) : result (option R) :=
  r <- yang_zhang_result price_data window trading_periods ;;
  match r with
  | [] => Raise IndexError
  | _ :: _ => Ok (last r None)
  end.

(** [yang_zhang(..., return_last_only=False)]: [result.dropna()]. *)
Definition yang_zhang_full (price_data : list PriceBar) (window : nat)
           (trading_periods : R) : result (list R) :=
  r <- yang_zhang_result price_data window trading_periods ;;
  Ok (dropna r).
End YangZhang.

(** ** The screening engine: [compute_recommendation] *)

(** *** Market data, as the two providers return it *)

(** Alpaca: a quote, a snapshot, a contract. *)
Record Quote : Type := mkQuote {
  bid_price : option Q;
  ask_price : option Q
}.

Record Snapshot : Type := mkSnapshot {
  latest_quote : option Quote;
  implied_volatility : option Q
}.

(** A contract of the Alpaca chain, with what [get_option_snapshot] answers
    for its symbol: a snapshot, or no entry. *)
Record Contract : Type := mkContract {
  snapshot : option Snapshot
}.

(** [option_chain[exp_date][strike]], and whether the snapshot request for
    its two symbols goes through. *)
Record StrikeEntry : Type := mkStrike {
  call : option Contract;
  put : option Contract;
  snapshot_request_ok : bool
}.

(** A Python dict: an association list with unique keys, in insertion
    order. *)
Definition dict (K V : Type) : Type := list (K * V).

Definition AlpacaChain : Type := dict Z (dict Q StrikeEntry).

(** Yahoo: a row of [chain.calls] or [chain.puts]. *)
Record OptionRow : Type := mkRow {
  strike : Q;
  impliedVolatility : Q;
  bid : option Q;
  ask : option Q
}.

Record YahooChain : Type := mkChain {
  calls : option (list OptionRow);
  puts : option (list OptionRow)
}.

(** Everything the collaborators answer during one run.  A request that
    raises is a [Raise], or a [None] where the code treats a raised exception
    and a missing answer alike; constructing a client does not fail. *)
Record MarketData : Type := mkData {
  (** [get_alpaca_option_chain(ticker)]; [Ok []] stands for [None] too. *)
  alpaca_option_chain : result AlpacaChain;
  (** the close of Alpaca's latest bar, when the request answers *)
  alpaca_latest_close : option Q;
  (** [get_stock_bars]: the bars of the ticker, when the request answers *)
  alpaca_bars : option (list PriceBar);
  (** [stock.history(period='1d')['Close'].iloc[0]] *)
  yahoo_price : result Q;
  (** [stock.options] *)
  yahoo_options : result (list Z);
  (** [stock.option_chain(exp_date)] *)
  yahoo_option_chain : Z -> result YahooChain;
  (** [stock.history(period='3mo')] *)
  yahoo_history : result (list PriceBar)
}.

(** *** Results *)

(** The expected move, before it is rendered as a string: the percentage
    rounded to two decimals, or [None] for a non-finite one. *)
Record ScreeningResult : Type := mkResult {
  avg_volume : bool;
  iv30_rv30 : bool;
  ts_slope_0_45 : bool;
  expected_move : option (option Q)
}.

Inductive Outcome : Type :=
| Message (s : string)        (** a literal message *)
| ErrorOf (e : exn)           (** [f"Error: {e}"] *)
| Flags (r : ScreeningResult).

(** *** Dictionaries *)

Fixpoint dict_set {V : Type} (d : dict Z V) (k : Z) (v : V) : dict Z V :=
  match d with
  | [] => [(k, v)]
  | (k', v') :: d' => if k' =? k then (k, v) :: d' else (k', v') :: dict_set d' k v
  end.

Fixpoint dict_get {V : Type} (d : dict Z V) (k : Z) : option V :=
  match d with
  | [] => None
  | (k', v') :: d' => if k' =? k then Some v' else dict_get d' k
  end.

(** *** The sampler state: the variables [atm_iv] and [straddle] *)

Record Sampler : Type := mkSampler {
  atm_iv : dict Z Q;
  straddle : option Q
}.

Definition fresh : Sampler := mkSampler [] None.

Definition Qdist (a b : Q) : Q := Qabs.Qabs (a - b).

(** [sorted(strikes, key=lambda s: abs(s - underlying_price))], carried out
    on the entries of the dict. *)
Definition sorted_strikes (underlying_price : Q) (strikes : dict Q StrikeEntry)
  : dict Q StrikeEntry :=
  stable_sort (fun p q => Qle_bool (Qdist (fst p) underlying_price)
                                   (Qdist (fst q) underlying_price)) strikes.

(** The straddle of four quotes, when none of them is [None]. *)
Definition straddle_of (call_bid call_ask put_bid put_ask : option Q) : option Q :=
  match call_bid, call_ask, put_bid, put_ask with
  | Some cb, Some ca, Some pb, Some pa =>
      let call_mid := ((cb + ca) / 2)%Q in
      let put_mid := ((pb + pa) / 2)%Q in
      Some (call_mid + put_mid)%Q
  | _, _, _, _ => None
  end.

(** *** The Alpaca sampling loops

    A loop returns the state it reached and the exception that stopped it, if
    one did. *)

(** [for strike in sorted_strikes: ... break], with its [else]. *)
Fixpoint alpaca_strike_loop (exp_date : Z) (strikes : dict Q StrikeEntry)
         (st : Sampler) : Sampler * option exn :=
  match strikes with
  | [] => (st, None)
  | (_, e) :: rest =>
      match call e, put e with
      | Some call_contract, Some put_contract =>
          if negb (snapshot_request_ok e) then (st, Some ProviderError)
          else
            match snapshot call_contract, snapshot put_contract with
            | Some call_snap, Some put_snap =>
                match latest_quote call_snap, latest_quote put_snap with
                | Some call_quote, Some put_quote =>
                    match implied_volatility call_snap, implied_volatility put_snap with
                    | Some call_iv, Some put_iv =>
                        let atm_iv_value := ((call_iv + put_iv) / 2)%Q in
                        let atm_iv' := dict_set (atm_iv st) exp_date atm_iv_value in
                        match straddle st with
                        | None =>
                            (mkSampler atm_iv'
                               (straddle_of (bid_price call_quote) (ask_price call_quote)
                                            (bid_price put_quote) (ask_price put_quote)),
                             None)
                        | Some s => (mkSampler atm_iv' (Some s), None)
                        end
                    | _, _ => alpaca_strike_loop exp_date rest st
                    end
                | _, _ => alpaca_strike_loop exp_date rest st
                end
            | _, _ => alpaca_strike_loop exp_date rest st
            end
      | _, _ => alpaca_strike_loop exp_date rest st
      end
  end.

(** [for exp_date in exp_dates_filtered: ...]. *)
Fixpoint alpaca_expiry_loop (option_chain : AlpacaChain) (underlying_price : Q)
         (exp_dates_filtered : list Z) (st : Sampler) : Sampler * option exn :=
  match exp_dates_filtered with
  | [] => (st, None)
  | exp_date :: rest =>
      match dict_get option_chain exp_date with
      | None => (st, Some KeyError)
      | Some [] => alpaca_expiry_loop option_chain underlying_price rest st
      | Some strikes =>
          match alpaca_strike_loop exp_date (sorted_strikes underlying_price strikes) st with
          | (st', None) => alpaca_expiry_loop option_chain underlying_price rest st'
          | (st', Some e) => (st', Some e)
          end
      end
  end.

(** *** The Yahoo sampling loop *)

(** The row at [(rows['strike'] - underlying_price).abs().idxmin()]: the
    first row at the least distance. *)
Fixpoint nearest_row (underlying_price : Q) (rows : list OptionRow) : option OptionRow :=
  match rows with
  | [] => None
  | r :: rows' =>
      match nearest_row underlying_price rows' with
      | None => Some r
      | Some r' =>
          if Qle_bool (Qdist (strike r) underlying_price) (Qdist (strike r') underlying_price)
          then Some r else Some r'
      end
  end.

Definition mid (b a : option Q) : option Q :=
  match b, a with
  | Some b, Some a => Some ((b + a) / 2)%Q
  | _, _ => None
  end.

(** [for exp_date, chain in options_chains.items(): ...], with the counter
    [i]. *)
Fixpoint yahoo_expiry_loop (underlying_price : Q) (options_chains : dict Z YahooChain)
         (i : nat) (st : Sampler) : Sampler :=
  match options_chains with
  | [] => st
  | (exp_date, chain) :: rest =>
      match calls chain, puts chain with
      | Some calls, Some puts =>
          match nearest_row underlying_price calls, nearest_row underlying_price puts with
          | Some call_row, Some put_row =>
              let call_iv := impliedVolatility call_row in
              let put_iv := impliedVolatility put_row in
              let atm_iv_value := ((call_iv + put_iv) / 2)%Q in
              let atm_iv' := dict_set (atm_iv st) exp_date atm_iv_value in
              let straddle' :=
                if (i =? 0)%nat then
                  match mid (bid call_row) (ask call_row), mid (bid put_row) (ask put_row) with
                  | Some call_mid, Some put_mid => Some (call_mid + put_mid)%Q
                  | _, _ => straddle st
                  end
                else straddle st in
              yahoo_expiry_loop underlying_price rest (S i) (mkSampler atm_iv' straddle')
          | _, _ => yahoo_expiry_loop underlying_price rest i st   (* an empty frame *)
          end
      | _, _ => yahoo_expiry_loop underlying_price rest i st
      end
  end.

(** *** From the samples to the flags *)

(** [dtes] and [ivs], from [atm_iv.items()]. *)
Definition dtes_of (today : Z) (atm_iv : dict Z Q) : list Z :=
  map (fun kv => fst kv - today) atm_iv.

Definition ivs_of (atm_iv : dict Z Q) : list Q := map snd atm_iv.

(** [(term_spline(45) - term_spline(dtes[0])) / (45 - dtes[0])].  When
    [dtes[0]] is 45 both queries go through the interpolant, the difference
    is a Python float and the division by the integer 0 raises. *)
Definition slope_0_45 (term_spline : Z -> option Q) (dtes : list Z) : result (option Q) :=
  match dtes with
  | [] => Raise IndexError
  | d0 :: _ =>
      if 45 - d0 =? 0 then Raise ZeroDivisionError
      else
        Ok (match term_spline 45, term_spline d0 with
            | Some a, Some b => Some ((a - b) / inject_Z (45 - d0))%Q
            | _, _ => None
            end)
  end.

(** [ts_slope_0_45 <= -0.00406]; a comparison with NaN is false. *)
Definition slope_flag (slope : option Q) : bool :=
  match slope with
  | Some s => Qle_bool s (- (406 # 100000))
  | None => false
  end.

(** [term_spline(30) / rv30 >= 1.25], in numpy's arithmetic: a division by
    zero gives an infinity or NaN, and a comparison with NaN is false. *)
Definition ratio_flag (iv30 : option Q) (rv30 : option R) : bool :=
  match iv30, rv30 with
  | Some iv, Some rv =>
      if Req_dec_T rv 0 then (if Qlt_le_dec 0 iv then true else false)
      else if Rle_dec 1.25 (Q2R iv / rv) then true else false
  | _, _ => false
  end.

(** [series.rolling(window).mean().dropna().iloc[-1]]: the mean of the last
    [window] values; with fewer values nothing survives [dropna] and
    [iloc[-1]] raises. *)
Definition rolling_mean_last (window : nat) (xs : list Q) : result Q :=
  if (length xs <? window)%nat then Raise IndexError
  else Ok (fold_right Qplus 0%Q (skipn (length xs - window) xs) / inject_Z (Z.of_nat window))%Q.

(** [avg_volume], from the three-month history of Yahoo. *)
Definition avg_volume_of (md : MarketData) : result Q :=
  price_history <- yahoo_history md ;;
  rolling_mean_last 30 (map Volume price_history).

(** [round(x, 2)]: to the nearest hundredth, ties to even. *)
Definition round_half_even (q : Q) : Z :=
  let f := Qfloor q in
  match (q - inject_Z f ?= 1 # 2)%Q with
  | Lt => f
  | Gt => f + 1
  | Eq => if Z.even f then f else f + 1
  end.

Definition round2 (q : Q) : Q := (inject_Z (round_half_even (q * 100)) / 100)%Q.

(** [str(round(straddle / underlying_price * 100, 2)) + "%" if straddle else
    None].  A straddle of 0.0 is falsy.  Dividing a Python float by a Python
    float 0.0 raises; with a numpy price the quotient is not finite. *)
Definition expected_move_of (numpy_price : bool) (straddle : option Q)
           (underlying_price : Q) : result (option (option Q)) :=
  match straddle with
  | None => Ok None
  | Some s =>
      if Qeq_bool s 0 then Ok None
      else if Qeq_bool underlying_price 0 then
             (if numpy_price then Ok (Some None) else Raise ZeroDivisionError)
           else Ok (Some (Some (round2 (s / underlying_price * 100))))
  end.

(** The price the Alpaca branch works with: Alpaca's latest close, else
    Yahoo's (a numpy float). *)
Definition alpaca_underlying_price (md : MarketData) : result (Q * bool) :=
  match alpaca_latest_close md with
  | Some p => Ok (p, false)
  | None => p <- yahoo_price md ;; Ok (p, true)
  end.

(** [price_df.sort_index()]. *)
Definition sort_index (bars : list PriceBar) : list PriceBar :=
  stable_sort (fun a b => Date a <=? Date b) bars.

(** *** The two branches *)

Definition not_enough_option_data : string := "Error: Not enough option data.".
Definition no_symbol : string := "No stock symbol provided.".
Definition no_price : string := "Error: Unable to retrieve underlying stock price.".
Definition no_atm_iv : string :=
  "Error: Could not determine ATM IV for any expiration dates.".
Definition no_options (ticker : string) : string :=
  ("Error: No options found for stock symbol '" ++ ticker ++ "'.")%string.

(** What the Alpaca branch does: it returns, or control reaches the Yahoo
    branch with the variables as they are. *)
Inductive PrimaryResult : Type :=
| Returned (o : Outcome)
| FellThrough (st : Sampler).

(** The body of [if len(atm_iv) >= 2:].  Every exception in it is caught and
    leads to the Yahoo branch. *)
Definition alpaca_screen (md : MarketData) (today : Z) (underlying_price : Q)
           (numpy_price : bool) (st : Sampler) : PrimaryResult :=
  let dtes := dtes_of today (atm_iv st) in
  let ivs := ivs_of (atm_iv st) in
  match build_term_structure dtes ivs with
  | Raise _ => FellThrough st
  | Ok term_spline =>
      match slope_0_45 term_spline dtes with
      | Raise _ => FellThrough st
      | Ok ts_slope =>
          match alpaca_bars md with
          | None | Some [] => FellThrough st
          | Some bars_data =>
              if (30 <=? length bars_data)%nat then
                match yang_zhang (sort_index bars_data) 30 252%R with
                | Raise _ => FellThrough st
                | Ok rv30 =>
                    match avg_volume_of md with
                    | Raise _ => FellThrough st
                    | Ok avg =>
                        match expected_move_of numpy_price (straddle st) underlying_price with
                        | Raise _ => FellThrough st
                        | Ok move =>
                            Returned (Flags
                              (mkResult (Qle_bool 1500000 avg)
                                        (ratio_flag (term_spline 30) rv30)
                                        (slope_flag ts_slope)
                                        move))
                        end
                    end
                end
              else FellThrough st
          end
      end
  end.

(** The Alpaca branch, entered with a non-empty chain. *)
Definition alpaca_branch (md : MarketData) (today : Z) (option_chain : AlpacaChain)
           (st : Sampler) : PrimaryResult :=
  let exp_dates := sorted (map fst option_chain) in
  match filter_dates today exp_dates with
  | Raise _ => Returned (Message not_enough_option_data)
  | Ok exp_dates_filtered =>
      match alpaca_underlying_price md with
      | Raise _ => FellThrough st
      | Ok (underlying_price, numpy_price) =>
          match alpaca_expiry_loop option_chain underlying_price exp_dates_filtered st with
          | (st', Some _) => FellThrough st'
          | (st', None) =>
              if (2 <=? length (atm_iv st'))%nat
              then alpaca_screen md today underlying_price numpy_price st'
              else FellThrough st'
          end
      end
  end.

(** [options_chains[exp_date] = stock.option_chain(exp_date)], for every
    filtered date. *)
Fixpoint fetch_chains (md : MarketData) (exp_dates : list Z)
         (options_chains : dict Z YahooChain) : result (dict Z YahooChain) :=
  match exp_dates with
  | [] => Ok options_chains
  | exp_date :: rest =>
      chain <- yahoo_option_chain md exp_date ;;
      fetch_chains md rest (dict_set options_chains exp_date chain)
  end.

(** The end of the Yahoo branch, from [if not atm_iv:] on. *)
Definition yahoo_screen (md : MarketData) (today : Z) (underlying_price : Q)
           (st : Sampler) : Outcome :=
  match atm_iv st with
  | [] => Message no_atm_iv
  | _ :: _ =>
      let dtes := dtes_of today (atm_iv st) in
      let ivs := ivs_of (atm_iv st) in
      match build_term_structure dtes ivs with
      | Raise e => ErrorOf e
      | Ok term_spline =>
          match slope_0_45 term_spline dtes with
          | Raise e => ErrorOf e
          | Ok ts_slope =>
              match yahoo_history md with
              | Raise e => ErrorOf e
              | Ok price_history =>
                  match yang_zhang price_history 30 252%R with
                  | Raise e => ErrorOf e
                  | Ok rv30 =>
                      match rolling_mean_last 30 (map Volume price_history) with
                      | Raise e => ErrorOf e
                      | Ok avg =>
                          match expected_move_of true (straddle st) underlying_price with
                          | Raise e => ErrorOf e
                          | Ok move =>
                              Flags (mkResult (Qle_bool 1500000 avg)
                                              (ratio_flag (term_spline 30) rv30)
                                              (slope_flag ts_slope)
                                              move)
                          end
                      end
                  end
              end
          end
      end
  end.

(** The Yahoo branch.  It is entered with the variables [atm_iv] and
    [straddle] as the Alpaca branch left them, and resets both before it
    samples. *)
Definition yahoo_branch (md : MarketData) (today : Z) (ticker : string)
           (st : Sampler) : Outcome :=
  match yahoo_options md with
  | Raise KeyError | Ok [] => Message (no_options ticker)
  | Raise e => ErrorOf e
  | Ok exp_dates =>
      match filter_dates today exp_dates with
      | Raise _ => Message not_enough_option_data
      | Ok exp_dates =>
          match fetch_chains md exp_dates [] with
          | Raise e => ErrorOf e
          | Ok options_chains =>
              match yahoo_price md with
              | Raise _ => Message no_price
              | Ok underlying_price =>
                  let st := mkSampler [] (straddle st) in   (* atm_iv = {} *)
                  let st := mkSampler (atm_iv st) None in   (* straddle = None *)
                  yahoo_screen md today underlying_price
                    (yahoo_expiry_loop underlying_price options_chains 0 st)
              end
          end
      end
  end.

(** [compute_recommendation(ticker)], for the stripped, upper-case ticker. *)
Definition compute_recommendation (md : MarketData) (today : Z) (ticker : string)
  : Outcome :=
  if (ticker =? "")%string then Message no_symbol
  else
    match alpaca_option_chain md with
    | Raise e => ErrorOf e
    | Ok [] => yahoo_branch md today ticker fresh
    | Ok option_chain =>
        match alpaca_branch md today option_chain fresh with
        | Returned o => o
        | FellThrough st => yahoo_branch md today ticker st
        end
    end.

(** ** Reference notions used to state the properties *)

(** The sample points [(days[i], ivs[i])], stably sorted by days. *)
Definition sort_points (days : list Z) (ivs : list Q) : list (Z * Q) :=
  stable_sort (fun p q => fst p <=? fst q) (combine days ivs).

(** The linear interpolation through [(d1, v1)] and [(d2, v2)], at [d]. *)
Definition lerp (d1 : Z) (v1 : Q) (d2 : Z) (v2 : Q) (d : Z) : Q :=
  (v1 + (v2 - v1) * inject_Z (d - d1) / inject_Z (d2 - d1))%Q.

(** The value scipy's linear evaluation computes on the segment from point
    [i] to point [i + 1] of the arrays [x], [y]. *)
Definition segment_value (x : list Z) (y : list Q) (i : nat) (d : Z) : Q :=
  let x_lo := nth i x 0%Z in
  let x_hi := nth (S i) x 0%Z in
  let y_lo := nth i y 0%Q in
  let y_hi := nth (S i) y 0%Q in
  ((y_hi - y_lo) / inject_Z (x_hi - x_lo) * inject_Z (d - x_lo) + y_lo)%Q.


(** The Yang-Zhang formula, written over the rows of the frame. *)
Section YangZhangFormula.
Local Open Scope R_scope.

Definition bar_at (bars : list PriceBar) (i : nat) : PriceBar :=
  nth i bars (mkBar 0 1 1 1 1 0).

Definition sum_over (f : nat -> R) (start len : nat) : R :=
  fold_right Rplus 0 (map f (seq start len)).

Definition ln_ratio (a b : Q) : R := ln (Q2R a / Q2R b).

(** ln(Open / previous Close) squared, at row [i]. *)
Definition overnight_sq (bars : list PriceBar) (i : nat) : R :=
  let v := ln_ratio (Open (bar_at bars i)) (Close (bar_at bars (i - 1))) in v * v.

(** ln(Close / previous Close) squared, at row [i]. *)
Definition close_sq (bars : list PriceBar) (i : nat) : R :=
  let v := ln_ratio (Close (bar_at bars i)) (Close (bar_at bars (i - 1))) in v * v.

(** rs = log_ho (log_ho - log_co) + log_lo (log_lo - log_co), at row [i]. *)
Definition rs_term (bars : list PriceBar) (i : nat) : R :=
  let b := bar_at bars i in
  let log_ho := ln_ratio (High b) (Open b) in
  let log_lo := ln_ratio (Low b) (Open b) in
  let log_co := ln_ratio (Close b) (Open b) in
  log_ho * (log_ho - log_co) + log_lo * (log_lo - log_co).

(** A sum over the last [window] rows, scaled by 1 / (window - 1). *)
Definition window_mean (f : nat -> R) (bars : list PriceBar) (window : nat) : R :=
  1 / (INR window - 1) * sum_over f (length bars - window) window.

Definition yz_variance (bars : list PriceBar) (window : nat) : R :=
  let k := 0.34 / (1.34 + (INR window + 1) / (INR window - 1)) in
  window_mean (overnight_sq bars) bars window
  + k * window_mean (close_sq bars) bars window
  + (1 - k) * window_mean (rs_term bars) bars window.

Definition positive_bar (b : PriceBar) : Prop :=
  (0 < Open b /\ 0 < High b /\ 0 < Low b /\ 0 < Close b)%Q.

Definition constant_bar (p : Q) (b : PriceBar) : Prop :=
  Open b = p /\ High b = p /\ Low b = p /\ Close b = p.

(** The low is the least and the high the greatest price of the bar. *)
Definition consistent_bar (b : PriceBar) : Prop :=
  (Low b <= Open b /\ Low b <= Close b /\ Open b <= High b /\ Close b <= High b)%Q.
End YangZhangFormula.

(** The keys of a dict, in insertion order. *)
Definition keys {V : Type} (d : dict Z V) : list Z := map fst d.

(** Keys that are strictly ascending and at most [bound]. *)
Definition ascending_below (bound : Z) (ks : list Z) : Prop :=
  StronglySorted Z.lt ks /\ forall k, In k ks -> k <= bound.

(** The Alpaca sampling of a run, when the run gets to it: the state the
    expiry loop reaches from the empty variables, and the exception that
    stopped it, if one did. *)
Definition primary_sampling (md : MarketData) (today : Z) : option (Sampler * option exn) :=
  match alpaca_option_chain md with
  | Ok ((_ :: _) as option_chain) =>
      match filter_dates today (sorted (map fst option_chain)) with
      | Ok exp_dates_filtered =>
          match alpaca_underlying_price md with
          | Ok (underlying_price, _) =>
              Some (alpaca_expiry_loop option_chain underlying_price exp_dates_filtered fresh)
          | Raise _ => None
          end
      | Raise _ => None
      end
  | _ => None
  end.

(** The ATM samples the primary provider yields in a run. *)
Definition primary_samples (md : MarketData) (today : Z) : dict Z Q :=
  match primary_sampling md today with
  | Some (st, _) => atm_iv st
  | None => []
  end.

(** *** Sample data *)

(** A snapshot with an implied volatility and a two-sided quote. *)
Definition quoted (iv bid ask : Q) : Contract :=
  mkContract (Some (mkSnapshot (Some (mkQuote (Some bid) (Some ask))) (Some iv))).

(** A snapshot with an implied volatility and a quote without a bid. *)
Definition no_bid (iv ask : Q) : Contract :=
  mkContract (Some (mkSnapshot (Some (mkQuote None (Some ask))) (Some iv))).

Definition both (c p : Contract) : StrikeEntry := mkStrike (Some c) (Some p) true.

(** Two expirations, 10 and 50 days out, one strike each, fully quoted. *)
Definition chain_10_50 : AlpacaChain :=
  [ (10, [(100%Q, both (quoted 0.30 2 3) (quoted 0.30 2 3))]);
    (50, [(100%Q, both (quoted 0.50 4 5) (quoted 0.50 4 5))]) ].

(** The same, but the call of the first expiration has no bid. *)
Definition chain_first_unquoted : AlpacaChain :=
  [ (10, [(100%Q, both (no_bid 0.30 3) (quoted 0.30 2 3))]);
    (50, [(100%Q, both (quoted 0.50 4 5) (quoted 0.50 4 5))]) ].

(** [n] daily bars at the constant price 100. *)
Definition flat_bars (n : nat) : list PriceBar :=
  map (fun d => mkBar (Z.of_nat d) 100 100 100 100 2000000) (seq 0 n).

(** Yahoo's chain for an expiration: one call and one put at strike 100. *)
Definition yahoo_chain_at_100 (exp_date : Z) : YahooChain :=
  let iv := if exp_date <=? 10 then 0.30%Q else 0.50%Q in
  mkChain (Some [mkRow 100 iv (Some 2%Q) (Some 3%Q)])
          (Some [mkRow 100 iv (Some 2%Q) (Some 3%Q)]).

(** Alpaca lists one expiration, 10 days out, so its dates fail the filter;
    Yahoo has everything a run needs. *)
Definition near_only : MarketData :=
  mkData (Ok [(10, [(100%Q, both (quoted 0.30 2 3) (quoted 0.30 2 3))])])
         (Some 100%Q) None (Ok 100%Q) (Ok [10; 50])
         (fun d => Ok (yahoo_chain_at_100 d)) (Ok (flat_bars 40)).

(** Alpaca samples one expiration only (the second has no strikes); Yahoo
    has everything a run needs. *)
Definition one_sample : MarketData :=
  mkData (Ok [(10, [(100%Q, both (quoted 0.30 2 3) (quoted 0.30 2 3))]); (50, [])])
         (Some 100%Q) None (Ok 100%Q) (Ok [10; 50])
         (fun d => Ok (yahoo_chain_at_100 d)) (Ok (flat_bars 40)).

(** Alpaca has two expirations with valid implied volatilities; the call of
    the first one has no bid. *)
Definition first_unquoted : MarketData :=
  mkData (Ok chain_first_unquoted) (Some 100%Q) (Some (flat_bars 40)) (Ok 100%Q)
         (Ok [10; 50]) (fun d => Ok (yahoo_chain_at_100 d)) (Ok (flat_bars 40)).

(** Yahoo's chains with the same gap: no bid on the call of the first
    expiration. *)
Definition yahoo_first_unquoted : dict Z YahooChain :=
  [ (10, mkChain (Some [mkRow 100 0.30 None (Some 3%Q)])
                 (Some [mkRow 100 0.30 (Some 2%Q) (Some 3%Q)]));
    (50, mkChain (Some [mkRow 100 0.50 (Some 4%Q) (Some 5%Q)])
                 (Some [mkRow 100 0.50 (Some 4%Q) (Some 5%Q)])) ].

(** Yahoo's chain for one expiration whose put table has no row at the
    strike 100: calls at 100 and 105, puts at 105 and 110. *)
Definition yahoo_uneven : dict Z YahooChain :=
  [ (10, mkChain (Some [mkRow 100 0.30 (Some 2%Q) (Some 3%Q);
                        mkRow 105 0.32 (Some 1%Q) (Some 2%Q)])
                 (Some [mkRow 105 0.50 (Some 6%Q) (Some 7%Q);
                        mkRow 110 0.52 (Some 10%Q) (Some 11%Q)])) ].

(** Both providers answer, with 20 daily bars each. *)
Definition short_history : MarketData :=
  mkData (Ok chain_10_50) (Some 100%Q) (Some (flat_bars 20)) (Ok 100%Q)
         (Ok [10; 50]) (fun d => Ok (yahoo_chain_at_100 d)) (Ok (flat_bars 20)).

(** The two implied volatilities of a strike entry, when the call and the
    put both have a snapshot with one. *)
Definition ivs_at (e : StrikeEntry) : option (Q * Q) :=
  match call e, put e with
  | Some c, Some p =>
      match snapshot c, snapshot p with
      | Some cs, Some ps =>
          match implied_volatility cs, implied_volatility ps with
          | Some civ, Some piv => Some (civ, piv)
          | _, _ => None
          end
      | _, _ => None
      end
  | _, _ => None
  end.

(** A bar is valid when its four prices are positive, so that every
    logarithm of the estimator is defined on it. *)
Definition valid_bar (b : PriceBar) : bool :=
  negb (Qle_bool (Open b) 0) && negb (Qle_bool (High b) 0) &&
  negb (Qle_bool (Low b) 0) && negb (Qle_bool (Close b) 0).

(** 35 daily bars: ten rows of a gap, with no price and no volume, then 25
    rows at the constant price 100. *)
Definition gappy_bars : list PriceBar :=
  map (fun d => mkBar (Z.of_nat d) 0 0 0 0 0) (seq 0 10) ++
  map (fun d => mkBar (Z.of_nat d) 100 100 100 100 2000000) (seq 10 25).

(** Both providers answer, with the 35 bars of [gappy_bars] each. *)
Definition gappy_alpaca : MarketData :=
  mkData (Ok chain_10_50) (Some 100%Q) (Some gappy_bars) (Ok 100%Q)
         (Ok [10; 50]) (fun d => Ok (yahoo_chain_at_100 d)) (Ok gappy_bars).

(** Alpaca has no option chain; Yahoo answers, with the 35 bars of
    [gappy_bars]. *)
Definition gappy_yahoo : MarketData :=
  mkData (Ok []) None None (Ok 100%Q) (Ok [10; 50])
         (fun d => Ok (yahoo_chain_at_100 d)) (Ok gappy_bars).

(** ** The batch driver: [main] *)

(** A row of the earnings calendar, as [get_todays_earnings] and
    [get_tomorrows_earnings] return it: the symbol, and the session label
    ([None] when the calendar has none).  Symbols and labels are ASCII
    strings. *)
Record EarningsRow : Type := mkEarnings {
  act_symbol : string;
  when : option string
}.

Definition map_string (f : ascii -> ascii) (s : string) : string :=
  string_of_list_ascii (map f (list_ascii_of_string s)).

(** [str.lower] and [str.upper], on ASCII. *)
Definition lower_char (c : ascii) : ascii :=
  let n := nat_of_ascii c in
  if ((65 <=? n) && (n <=? 90))%nat then ascii_of_nat (n + 32) else c.

Definition upper_char (c : ascii) : ascii :=
  let n := nat_of_ascii c in
  if ((97 <=? n) && (n <=? 122))%nat then ascii_of_nat (n - 32) else c.

Definition lower (s : string) : string := map_string lower_char s.
Definition upper (s : string) : string := map_string upper_char s.

(** [str.strip]: the white space of ASCII is the characters 9 to 13 and 28
    to 32. *)
Definition is_space (c : ascii) : bool :=
  let n := nat_of_ascii c in
  (((9 <=? n) && (n <=? 13)) || ((28 <=? n) && (n <=? 32)))%nat.

Fixpoint lstrip (l : list ascii) : list ascii :=
  match l with
  | [] => []
  | c :: l' => if is_space c then lstrip l' else l
  end.

Definition strip (s : string) : string :=
  string_of_list_ascii (rev (lstrip (rev (lstrip (list_ascii_of_string s))))).

(** [sub in s]. *)
Fixpoint contains (sub s : string) : bool :=
  if prefix sub s then true
  else match s with
       | EmptyString => false
       | String _ s' => contains sub s'
       end.

(** [[t for t in rows if t.get('when') and word in t['when'].lower()]]. *)
Definition session (word : string) (rows : list EarningsRow) : list EarningsRow :=
  filter (fun t => match when t with
                   | Some w => negb (w =? "")%string && contains word (lower w)
                   | None => false
                   end) rows.

(** [compute_recommendation(symbol)] from the raw symbol: the ticker is
    stripped and upper-cased first, and [market] is what the providers answer
    for a ticker. *)
Definition recommend (market : string -> MarketData) (today : Z) (symbol : string)
  : Outcome :=
  let ticker := upper (strip symbol) in
  compute_recommendation (market ticker) today ticker.

(** [isinstance(result, dict) and result.get('avg_volume') and
    result.get('iv30_rv30') and result.get('ts_slope_0_45')]. *)
Definition passes (result : Outcome) : bool :=
  match result with
  | Flags r => avg_volume r && iv30_rv30 r && ts_slope_0_45 r
  | _ => false
  end.

(** [for ticker in tickers: ...], appending [{'ticker': symbol, 'result':
    result}] to [results]. *)
Fixpoint screen_tickers (market : string -> MarketData) (today : Z)
         (ignore_filters : bool) (tickers : list EarningsRow)
         (results : list (string * Outcome)) : list (string * Outcome) :=
  match tickers with
  | [] => results
  | ticker :: rest =>
      let symbol := act_symbol ticker in
      let result := recommend market today symbol in
      if ignore_filters then
        screen_tickers market today ignore_filters rest (results ++ [(symbol, result)])
      else if passes result then
        screen_tickers market today ignore_filters rest (results ++ [(symbol, result)])
      else screen_tickers market today ignore_filters rest results
  end.

(** [main()], given the two calendars: the entries it prints for today's
    after-close earnings and for tomorrow's before-open earnings. *)
Definition main (market : string -> MarketData) (today : Z) (ignore_filters : bool)
           (todays tomorrows : list EarningsRow)
  : list (string * Outcome) * list (string * Outcome) :=
  let amc_tickers := session "after" todays in
  let results_amc := screen_tickers market today ignore_filters amc_tickers [] in
  let bmo_tickers := session "before" tomorrows in
  let results_bmo := screen_tickers market today ignore_filters bmo_tickers [] in
  (results_amc, results_bmo).

(** ** Further notions used to state properties *)

(** What the Alpaca strike loop samples from a strike entry that it accepts:
    the mean of the two implied volatilities, when both contracts, both
    snapshots, both quotes and both implied volatilities are there. *)
Definition sample_value (e : StrikeEntry) : option Q :=
  match call e, put e with
  | Some call_contract, Some put_contract =>
      match snapshot call_contract, snapshot put_contract with
      | Some call_snap, Some put_snap =>
          match latest_quote call_snap, latest_quote put_snap with
          | Some _, Some _ =>
              match implied_volatility call_snap, implied_volatility put_snap with
              | Some call_iv, Some put_iv => Some ((call_iv + put_iv) / 2)%Q
              | _, _ => None
              end
          | _, _ => None
          end
      | _, _ => None
      end
  | _, _ => None
  end.

(** The bar with every price multiplied by [c]. *)
Definition rescale (c : Q) (b : PriceBar) : PriceBar :=
  mkBar (Date b) (c * Open b)%Q (c * High b)%Q (c * Low b)%Q (c * Close b)%Q (Volume b).

(** *** Sample data for the batch driver *)

(** Yahoo's chain for an expiration, with a falling term structure: an
    implied volatility of 0.90 up to 10 days out, of 0.50 after. *)
Definition falling_chain_at_100 (exp_date : Z) : YahooChain :=
  let iv := if exp_date <=? 10 then 0.90%Q else 0.50%Q in
  mkChain (Some [mkRow 100 iv (Some 2%Q) (Some 3%Q)])
          (Some [mkRow 100 iv (Some 2%Q) (Some 3%Q)]).

(** Alpaca has no option chain; Yahoo has everything a run needs, and the
    term structure falls. *)
Definition falling : MarketData :=
  mkData (Ok []) None None (Ok 100%Q) (Ok [10; 50])
         (fun d => Ok (falling_chain_at_100 d)) (Ok (flat_bars 40)).

(** The market of two tickers: ["ABC"] with the falling term structure,
    and every other ticker with the data of [near_only]. *)
Definition two_tickers (ticker : string) : MarketData :=
  if (ticker =? "ABC")%string then falling else near_only.

(** * Properties *)

(** ** Stable sorting *)

Section StableSortFacts.
Context {A : Type} (leb : A -> A -> bool).
Hypothesis leb_total : forall x y, leb x y = true \/ leb y x = true.
Hypothesis leb_trans : forall x y z, leb x y = true -> leb y z = true -> leb x z = true.

Let le (x y : A) : Prop := leb x y = true.

Lemma insert_sorted_perm (x : A) (l : list A) :
  Permutation (insert_sorted leb x l) (x :: l).
Proof.
  induction l as [|y l IH]; simpl; [reflexivity|].
  destruct (leb x y); [reflexivity|].
  rewrite IH. apply perm_swap.
Qed.

Lemma stable_sort_perm (l : list A) : Permutation (stable_sort leb l) l.
Proof.
  induction l as [|x l IH]; simpl; [constructor|].
  rewrite insert_sorted_perm. now constructor.
Qed.

Lemma insert_sorted_sorted (x : A) (l : list A) :
  StronglySorted le l -> StronglySorted le (insert_sorted leb x l).
Proof.
  induction 1 as [|y l Hs IH Hy]; simpl.
  - repeat constructor.
  - destruct (leb x y) eqn:E.
    + constructor; [now constructor|].
      constructor; [exact E|].
      rewrite Forall_forall in *. intros z Hz. eapply leb_trans; [exact E|]. now apply Hy.
    + constructor; [exact IH|].
      assert (Hyx : le y x) by (destruct (leb_total x y); [congruence|assumption]).
      rewrite Forall_forall in *. intros z Hz.
      apply (Permutation_in _ (insert_sorted_perm x l)) in Hz.
      destruct Hz as [<-|Hz]; [exact Hyx|now apply Hy].
Qed.

Lemma stable_sort_sorted (l : list A) : StronglySorted le (stable_sort leb l).
Proof.
  induction l as [|x l IH]; simpl; [constructor|].
  now apply insert_sorted_sorted.
Qed.
End StableSortFacts.

(** Sorting commutes with a map that preserves the comparison. *)
Lemma stable_sort_map {A B : Type} (lebA : A -> A -> bool) (lebB : B -> B -> bool)
      (g : A -> B) (l : list A) :
  (forall a b, lebB (g a) (g b) = lebA a b) ->
  stable_sort lebB (map g l) = map g (stable_sort lebA l).
Proof.
  intros Hg. induction l as [|x l IH]; simpl; [reflexivity|].
  rewrite IH. generalize (stable_sort lebA l) as s. clear IH.
  induction s as [|y s IHs]; simpl; [reflexivity|].
  rewrite Hg. destruct (lebA x y); simpl; [reflexivity|]. now rewrite IHs.
Qed.

Lemma sorted_perm (l : list Z) : Permutation (sorted l) l.
Proof. apply stable_sort_perm. Qed.

Lemma sorted_sorted (l : list Z) : StronglySorted Z.le (sorted l).
Proof.
  assert (H : StronglySorted (fun x y => (x <=? y) = true) (sorted l)).
  { apply stable_sort_sorted; intros; lia. }
  induction H; constructor; [assumption|].
  eapply Forall_impl; [|eassumption]. simpl. intros; lia.
Qed.

Lemma sorted_In (l : list Z) (x : Z) : In x (sorted l) <-> In x l.
Proof.
  split; apply Permutation_in; [apply sorted_perm|symmetry; apply sorted_perm].
Qed.

Lemma sorted_length (l : list Z) : length (sorted l) = length l.
Proof. apply Permutation_length, sorted_perm. Qed.

Lemma sorted_NoDup (l : list Z) : NoDup l -> NoDup (sorted l).
Proof. apply Permutation_NoDup. symmetry. apply sorted_perm. Qed.

(** A sorted list without duplicates is strictly sorted. *)
Lemma StronglySorted_le_lt (l : list Z) :
  StronglySorted Z.le l -> NoDup l -> StronglySorted Z.lt l.
Proof.
  induction 1 as [|x l Hs IH Hx]; intros Hnd; constructor.
  - apply IH. now inversion Hnd.
  - inversion Hnd as [|? ? Hnin _]; subst.
    rewrite Forall_forall in *. intros y Hy.
    specialize (Hx y Hy). assert (x <> y) by (intros ->; contradiction). lia.
Qed.

(** Two arrangements of the same elements, both sorted by a key that tells
    all of them apart, are equal. *)
Lemma sorted_by_key_unique {A : Type} (key : A -> Z) (a b : list A) :
  StronglySorted (fun p q => (key p <=? key q) = true) a ->
  StronglySorted (fun p q => (key p <=? key q) = true) b ->
  Permutation a b -> NoDup (map key a) -> a = b.
Proof.
  intros Ha. revert b. induction Ha as [|p a Hsa IH Hp]; intros b Hb Hperm Hnd.
  - apply Permutation_nil in Hperm. now subst.
  - destruct Hb as [|q b Hsb Hq].
    + apply Permutation_sym, Permutation_nil in Hperm. discriminate.
    + rewrite Forall_forall in Hp, Hq.
      assert (p = q) as ->.
      { assert (Hpin : In p (q :: b)) by (apply (Permutation_in _ Hperm); now left).
        assert (Hqin : In q (p :: a))
          by (apply (Permutation_in _ (Permutation_sym Hperm)); now left).
        destruct Hqin as [->|Hqin]; [reflexivity|].
        destruct Hpin as [->|Hpin]; [reflexivity|].
        specialize (Hp q Hqin). specialize (Hq p Hpin).
        assert (E : key p = key q) by lia.
        simpl in Hnd. inversion Hnd as [|? ? Hnin _]; subst.
        exfalso. apply Hnin. rewrite E. now apply in_map. }
      f_equal. apply IH; [assumption| |].
      * now apply Permutation_cons_inv in Hperm.
      * simpl in Hnd. now inversion Hnd.
Qed.

(** ** The expiration filter *)

Lemma first_reaching_None (c : Z) (l : list Z) (i : nat) :
  first_reaching c l i = None <-> Forall (fun d => d < c) l.
Proof.
  revert i. induction l as [|d l IH]; intros i; simpl.
  - split; [constructor|reflexivity].
  - destruct (c <=? d) eqn:E.
    + split; [discriminate|]. intros H. inversion H; subst. lia.
    + rewrite IH. split; intros H.
      * constructor; [lia|assumption].
      * now inversion H.
Qed.

Lemma first_reaching_Some (c : Z) (l : list Z) (i k : nat) :
  first_reaching c l i = Some k ->
  exists pre m post,
    l = pre ++ m :: post /\ Forall (fun d => d < c) pre /\ c <= m /\
    k = (i + length pre)%nat.
Proof.
  revert i. induction l as [|d l IH]; intros i; simpl; [discriminate|].
  destruct (c <=? d) eqn:E.
  - intros [= <-]. exists [], d, l. repeat split; [constructor|lia|simpl; lia].
  - intros H. destruct (IH _ H) as (pre & m & post & -> & Hpre & Hm & ->).
    exists (d :: pre), m, post. repeat split; [constructor; [lia|assumption]|assumption|simpl; lia].
Qed.

Lemma firstn_app_one {A : Type} (pre : list A) (m : A) (post : list A) :
  firstn (0 + length pre + 1) (pre ++ m :: post) = pre ++ [m].
Proof.
  induction pre as [|x pre IH]; simpl; [reflexivity|].
  f_equal. exact IH.
Qed.

(** What [filter_dates] computes, with the sorted dates split at the first one
    that reaches the cutoff. *)
Lemma filter_dates_unfold (today : Z) (dates : list Z) :
  (Forall (fun d => d < today + 45) (sorted dates) /\
   filter_dates today dates = Raise (ValueError no_date_msg)) \/
  (exists pre m post,
      sorted dates = pre ++ m :: post /\
      Forall (fun d => d < today + 45) pre /\ today + 45 <= m /\
      filter_dates today dates =
        Ok (if hd m (pre ++ [m]) =? today then tl (pre ++ [m]) else pre ++ [m])).
Proof.
  unfold filter_dates.
  destruct (first_reaching (today + 45) (sorted dates) 0) as [k|] eqn:E.
  - right. destruct (first_reaching_Some _ _ _ _ E) as (pre & m & post & Hs & Hpre & Hm & ->).
    exists pre, m, post. repeat split; try assumption.
    rewrite Hs, firstn_app_one.
    destruct pre as [|d pre]; simpl; [destruct (m =? today)|destruct (d =? today)]; reflexivity.
  - left. split; [now apply first_reaching_None in E|reflexivity].
Qed.

Lemma filter_dates_nonempty (today : Z) (dates out : list Z) :
  filter_dates today dates = Ok out -> out <> [].
Proof.
  destruct (filter_dates_unfold today dates) as [[_ ->]|(pre & m & post & _ & Hpre & Hm & ->)];
    [discriminate|].
  intros [= <-]. destruct pre as [|d pre]; simpl.
  - destruct (m =? today) eqn:E; [lia|discriminate].
  - destruct (d =? today); [|discriminate]. now destruct pre.
Qed.

(** All dates of the filter's output but the last one are before the cutoff,
    and the output is in ascending order. *)
Lemma filter_dates_shape (today : Z) (dates out : list Z) :
  filter_dates today dates = Ok out ->
  exists front m,
    out = front ++ [m] /\ Forall (fun d => d < today + 45) front /\
    today + 45 <= m /\ StronglySorted Z.le out.
Proof.
  destruct (filter_dates_unfold today dates) as [[_ ->]|(pre & m & post & Hs & Hpre & Hm & ->)];
    [discriminate|].
  intros [= <-].
  assert (Hsorted : StronglySorted Z.le (pre ++ [m])).
  { pose proof (sorted_sorted dates) as H. rewrite Hs in H.
    clear -H. induction pre as [|x pre IH]; simpl in *.
    - repeat constructor.
    - inversion H as [|? ? Hs' Hx]; subst. constructor; [now apply IH|].
      rewrite Forall_forall in *. intros y Hy. apply Hx.
      rewrite in_app_iff in *. simpl in *. tauto. }
  destruct pre as [|d pre]; simpl in *.
  - destruct (m =? today) eqn:E; [lia|].
    exists [], m. repeat split; [constructor|assumption|assumption].
  - destruct (d =? today).
    + exists pre, m. repeat split; [now inversion Hpre|assumption|now inversion Hsorted].
    + exists (d :: pre), m. repeat split; assumption.
Qed.

(** C7.  The expiration filter, on a set of dates: it fails with the
    insufficient-horizon error exactly when no date reaches today + 45;
    otherwise it returns the ascending prefix that ends at the first date on or
    after today + 45, without its first element when that is today; the
    returned list is never empty, so an empty prefix is always a failure. *)
Theorem filter_dates_contract (today : Z) (dates : list Z) :
  NoDup dates ->
  ((forall d, In d dates -> d < today + 45) ->
   filter_dates today dates = Raise (ValueError no_date_msg)) /\
  (forall e, filter_dates today dates = Raise e ->
     e = ValueError no_date_msg /\ forall d, In d dates -> d < today + 45) /\
  (forall out, filter_dates today dates = Ok out ->
     exists arr m,
       (In m dates /\ today + 45 <= m /\
        forall d, In d dates -> today + 45 <= d -> m <= d) /\
       StronglySorted Z.lt arr /\
       (forall d, In d arr <-> In d dates /\ d <= m) /\
       out = (if hd m arr =? today then tl arr else arr) /\
       out <> []).
Proof.
  intros Hnd.
  destruct (filter_dates_unfold today dates)
    as [[Hall Hf]|(pre & m & post & Hs & Hpre & Hm & Hf)].
  - rewrite Forall_forall in Hall. split; [|split].
    + intros _. exact Hf.
    + intros e He. rewrite Hf in He. injection He as <-. split; [reflexivity|].
      intros d Hd. apply Hall. now apply sorted_In.
    + intros out Ho. rewrite Hf in Ho. discriminate.
  - assert (Hss : StronglySorted Z.lt (pre ++ m :: post)).
    { rewrite <- Hs. apply StronglySorted_le_lt; [apply sorted_sorted|now apply sorted_NoDup]. }
    assert (Hpost : forall d, In d post -> m < d).
    { clear -Hss. induction pre as [|x pre IH]; simpl in Hss.
      - inversion Hss as [|? ? _ Hx]; subst. now rewrite Forall_forall in Hx.
      - inversion Hss; subst. now apply IH. }
    assert (Hin : forall d, In d dates <-> In d pre \/ d = m \/ In d post).
    { intros d. rewrite <- sorted_In, Hs, in_app_iff. simpl. intuition congruence. }
    rewrite Forall_forall in Hpre.
    split; [|split].
    + intros Hlt. specialize (Hlt m). rewrite Hin in Hlt. lia.
    + intros e He. rewrite Hf in He. discriminate.
    + intros out Ho. exists (pre ++ [m]), m.
      split; [split; [apply Hin; auto|split; [exact Hm|]]|].
      { intros d Hd Hc. apply Hin in Hd. destruct Hd as [Hd|[->|Hd]].
        - specialize (Hpre d Hd). lia.
        - lia.
        - specialize (Hpost d Hd). lia. }
      split.
      { clear -Hss. induction pre as [|x pre IH]; simpl in *.
        - repeat constructor.
        - inversion Hss as [|? ? Hs' Hx]; subst. constructor; [now apply IH|].
          rewrite Forall_forall in *. intros y Hy. apply Hx.
          rewrite in_app_iff in *. simpl in *. tauto. }
      split.
      { intros d. rewrite in_app_iff, Hin. simpl. split.
        - intros [H|[<-|[]]]; [specialize (Hpre d H)|]; split; auto; lia.
        - intros [[Hd|[->|Hd]] Hle]; [tauto|tauto|]. specialize (Hpost d Hd). lia. }
      split.
      { rewrite Hf in Ho. now injection Ho as <-. }
      eapply filter_dates_nonempty; eassumption.
Qed.

(** The theorem at the dates today, today + 10, today + 50 of the
    specification's example, and at dates that all fall short of the
    cutoff. *)
Lemma filter_dates_contract_witness :
  NoDup [739000; 739010; 739050] /\
  filter_dates 739000 [739000; 739010; 739050] = Ok [739010; 739050] /\
  (exists arr m,
      StronglySorted Z.lt arr /\
      Ok [739010; 739050] = Ok (if hd m arr =? 739000 then tl arr else arr)) /\
  NoDup [739001; 739044] /\
  (forall d, In d [739001; 739044] -> d < 739000 + 45) /\
  filter_dates 739000 [739001; 739044] = Raise (ValueError no_date_msg).
Proof.
  assert (Hnd : NoDup [739000; 739010; 739050]).
  { repeat constructor; simpl; intuition lia. }
  assert (Hnd' : NoDup [739001; 739044]).
  { repeat constructor; simpl; intuition lia. }
  assert (Hnear : forall d, In d [739001; 739044] -> d < 739000 + 45).
  { simpl. intros d Hd. lia. }
  split; [exact Hnd|]. split; [reflexivity|]. split.
  - destruct (filter_dates_contract 739000 [739000; 739010; 739050] Hnd) as (_ & _ & H).
    destruct (H [739010; 739050] eq_refl) as (arr & m & _ & Hs & _ & Ho & _).
    exists arr, m. split; [exact Hs|]. now rewrite <- Ho.
  - split; [exact Hnd'|]. split; [exact Hnear|].
    exact (proj1 (filter_dates_contract 739000 [739001; 739044] Hnd') Hnear).
Defined.

Example filter_dates_today_dropped :
  filter_dates 100 [100; 110; 150] = Ok [110; 150].
Proof. reflexivity. Qed.

Example filter_dates_all_near :
  filter_dates 100 [101; 110; 144] = Raise (ValueError no_date_msg).
Proof. reflexivity. Qed.

(** ** The term structure *)

Lemma take_map {A : Type} (a : list A) (idx : list nat) (d : A) :
  Forall (fun i => (i < length a)%nat) idx ->
  take a idx = Ok (map (fun i => nth i a d) idx).
Proof.
  induction 1 as [|i idx Hi _ IH]; simpl; [reflexivity|].
  destruct (nth_error a i) as [v|] eqn:E.
  - rewrite IH. simpl. f_equal. f_equal. symmetry. now apply nth_error_nth.
  - apply nth_error_None in E. lia.
Qed.

Lemma combine_seq_nth {A B : Type} (days : list B) (ivs pre : list A) (d : A) :
  length days = length ivs ->
  map (fun p => (snd p, nth (fst p) (pre ++ ivs) d))
      (combine (seq (length pre) (length days)) days) = combine days ivs.
Proof.
  revert ivs pre. induction days as [|x days IH]; intros [|v ivs] pre Hlen;
    simpl in *; try discriminate; [reflexivity|].
  rewrite app_nth2, Nat.sub_diag by lia. simpl. f_equal.
  specialize (IH ivs (pre ++ [v])). rewrite <- app_assoc, length_app in IH.
  simpl in IH. rewrite Nat.add_1_r in IH. apply IH. lia.
Qed.

Lemma combine_seq_valid {B : Type} (days : list B) (s : nat) (p : nat * B) :
  In p (combine (seq s (length days)) days) ->
  (s <= fst p < s + length days)%nat /\ nth_error days (fst p - s) = Some (snd p).
Proof.
  revert s. induction days as [|x days IH]; intros s; simpl; [tauto|].
  intros [<-|H]; simpl.
  - rewrite Nat.sub_diag. split; [lia|reflexivity].
  - destruct (IH _ H) as [Hr Hn]. split; [lia|].
    replace (fst p - s)%nat with (S (fst p - S s)) by lia. exact Hn.
Qed.

(** The sorted arrays inside the closure are the sample points in stable
    ascending order of days. *)
Lemma gather_sorted (days : list Z) (ivs : list Q) :
  length days = length ivs ->
  take days (argsort days) = Ok (map fst (sort_points days ivs)) /\
  take ivs (argsort days) = Ok (map snd (sort_points days ivs)).
Proof.
  intros Hlen. unfold argsort, sort_points.
  set (ip := stable_sort (fun p q : nat * Z => snd p <=? snd q)
               (combine (seq 0 (length days)) days)).
  assert (Hperm : Permutation ip (combine (seq 0 (length days)) days))
    by apply stable_sort_perm.
  assert (Hvalid : forall p, In p ip ->
            (fst p < length days)%nat /\ nth_error days (fst p) = Some (snd p)).
  { intros p Hp. apply (Permutation_in _ Hperm) in Hp.
    apply combine_seq_valid in Hp. rewrite Nat.sub_0_r in Hp. split; [lia|tauto]. }
  assert (Hsp : stable_sort (fun p q : Z * Q => fst p <=? fst q) (combine days ivs)
                = map (fun p => (snd p, nth (fst p) ivs 0%Q)) ip).
  { rewrite <- (combine_seq_nth days ivs [] 0%Q Hlen). simpl.
    apply stable_sort_map. reflexivity. }
  rewrite Hsp, !map_map. simpl. split.
  - rewrite (take_map _ _ 0).
    + f_equal. rewrite map_map. apply map_ext_in. intros p Hp.
      destruct (Hvalid p Hp) as [_ Hn]. now apply nth_error_nth.
    + apply Forall_forall. intros i Hi. apply in_map_iff in Hi.
      destruct Hi as (p & <- & Hp). now apply Hvalid.
  - rewrite (take_map _ _ 0%Q).
    + now rewrite map_map.
    + apply Forall_forall. intros i Hi. apply in_map_iff in Hi.
      destruct Hi as (p & <- & Hp). rewrite <- Hlen. now apply Hvalid.
Qed.

Lemma build_term_structure_sorted (days : list Z) (ivs : list Q) :
  length days = length ivs ->
  (2 <= length (np_unique days))%nat ->
  build_term_structure days ivs =
    Ok (term_spline (map fst (sort_points days ivs)) (map snd (sort_points days ivs))).
Proof.
  intros Hlen Hu. unfold build_term_structure.
  destruct (Nat.ltb_spec (length (np_unique days)) 2) as [H|_]; [lia|].
  destruct (gather_sorted days ivs Hlen) as [-> ->]. reflexivity.
Qed.

Lemma sort_points_perm (days : list Z) (ivs : list Q) :
  Permutation (sort_points days ivs) (combine days ivs).
Proof. apply stable_sort_perm. Qed.

Lemma sort_points_days (days : list Z) (ivs : list Q) :
  length days = length ivs ->
  map fst (sort_points days ivs) = sorted days.
Proof.
  intros Hlen. unfold sort_points, sorted.
  rewrite <- (stable_sort_map (fun p q : Z * Q => fst p <=? fst q) Z.leb fst)
    by reflexivity.
  f_equal. clear -Hlen. revert ivs Hlen.
  induction days as [|x days IH]; intros [|v ivs] Hlen; simpl in *;
    try discriminate; [reflexivity|]. f_equal. apply IH. lia.
Qed.

(** [np.unique] has fewer than two elements exactly when all days agree. *)
Lemma unique_from_all_equal (prev : Z) (l : list Z) :
  (forall x, In x l -> x = prev) -> unique_from prev l = [].
Proof.
  induction l as [|x l IH]; intros H; simpl; [reflexivity|].
  assert (x = prev) as -> by (apply H; now left).
  rewrite Z.eqb_refl. apply IH. intros y Hy. apply H. now right.
Qed.

Lemma unique_from_nonempty (prev : Z) (l : list Z) :
  (exists x, In x l /\ x <> prev) -> unique_from prev l <> [].
Proof.
  revert prev. induction l as [|x l IH]; intros prev (y & Hy & Hne); simpl.
  - destruct Hy.
  - destruct (Z.eqb_spec x prev) as [->|Hx]; [|discriminate].
    apply IH. destruct Hy as [->|Hy]; [contradiction|]. now exists y.
Qed.

Lemma np_unique_short (days : list Z) :
  (forall a b, In a days -> In b days -> a = b) ->
  (length (np_unique days) < 2)%nat.
Proof.
  intros H. unfold np_unique. destruct (sorted days) as [|x l] eqn:E; simpl; [lia|].
  rewrite unique_from_all_equal; [simpl; lia|].
  intros y Hy. apply H; apply sorted_In; rewrite E; simpl; auto.
Qed.

Lemma np_unique_long (days : list Z) (a b : Z) :
  In a days -> In b days -> a <> b -> (2 <= length (np_unique days))%nat.
Proof.
  intros Ha Hb Hab. unfold np_unique.
  apply sorted_In in Ha, Hb. destruct (sorted days) as [|x l]; [destruct Ha|].
  assert (Hne : unique_from x l <> []).
  { apply unique_from_nonempty. simpl in Ha, Hb.
    destruct Ha as [<-|Ha]; destruct Hb as [<-|Hb].
    - contradiction.
    - exists b. split; [assumption|congruence].
    - exists a. split; [assumption|congruence].
    - destruct (Z.eq_dec a x) as [->|Hax]; [exists b|exists a]; split; auto. }
  simpl. destruct (unique_from x l); [contradiction|simpl; lia].
Qed.

Lemma map_fst_combine {A B : Type} (la : list A) (lb : list B) :
  length la = length lb -> map fst (combine la lb) = la.
Proof.
  revert lb. induction la as [|a la IH]; intros [|b lb] H; simpl in *;
    try discriminate; [reflexivity|]. f_equal. apply IH. lia.
Qed.

Lemma argsort_perm (days : list Z) : Permutation (argsort days) (seq 0 (length days)).
Proof.
  unfold argsort.
  rewrite (stable_sort_perm (fun p q : nat * Z => snd p <=? snd q)
             (combine (seq 0 (length days)) days)).
  rewrite map_fst_combine; [reflexivity|apply length_seq].
Qed.

Lemma argsort_range (days : list Z) :
  Forall (fun i => (i < length days)%nat) (argsort days).
Proof.
  apply Forall_forall. intros i Hi.
  apply (Permutation_in _ (argsort_perm days)), in_seq in Hi. lia.
Qed.

(** *** Indexing ascending arrays *)

Lemma StronglySorted_nth {A : Type} (R : A -> A -> Prop) (l : list A) (d : A) :
  StronglySorted R l ->
  forall j k, (j < k < length l)%nat -> R (nth j l d) (nth k l d).
Proof.
  induction 1 as [|x l Hs IH Hx]; intros j k Hjk; simpl in Hjk; [lia|].
  destruct k as [|k]; [lia|]. destruct j as [|j]; simpl.
  - rewrite Forall_forall in Hx. apply Hx, nth_In. lia.
  - apply IH. lia.
Qed.

Lemma sorted_nth_le (x : list Z) :
  StronglySorted Z.le x ->
  forall j k, (j <= k < length x)%nat -> nth j x 0 <= nth k x 0.
Proof.
  intros Hs j k Hjk. destruct (Nat.eq_dec j k) as [->|Hne]; [lia|].
  apply (StronglySorted_nth Z.le x 0 Hs). lia.
Qed.

Lemma hd_nth {A : Type} (l : list A) (d : A) : hd d l = nth 0 l d.
Proof. now destruct l. Qed.

Lemma last_nth {A : Type} (l : list A) (d : A) : last l d = nth (length l - 1) l d.
Proof.
  induction l as [|x l IH]; [reflexivity|].
  destruct l as [|y l]; [reflexivity|].
  change (last (x :: y :: l) d) with (last (y :: l) d). rewrite IH. simpl.
  now rewrite Nat.sub_0_r.
Qed.

Lemma searchsorted_spec (x : list Z) (v : Z) :
  (searchsorted x v <= length x)%nat /\
  (forall j, (j < searchsorted x v)%nat -> nth j x 0 < v) /\
  ((searchsorted x v < length x)%nat -> v <= nth (searchsorted x v) x 0).
Proof.
  induction x as [|x0 x IH]; simpl.
  - repeat split; intros; lia.
  - destruct (Z.ltb_spec x0 v) as [Hlt|Hge]; simpl.
    + destruct IH as (H1 & H2 & H3). repeat split; [lia| |intros; apply H3; lia].
      intros [|j] Hj; [assumption|apply H2; lia].
    + repeat split; intros; lia.
Qed.

(** *** The interpolant on ascending arrays *)

(** Strictly inside the sampled range, the interpolant works on the segment
    from the last point below [d] to the first point at or above [d]. *)
Lemma spline_segment (x : list Z) (y : list Q) (d : Z) :
  StronglySorted Z.le x -> (2 <= length x)%nat ->
  nth 0 x 0 < d -> d <= last x 0 ->
  exists i, (S i < length x)%nat /\ nth i x 0 < d <= nth (S i) x 0 /\
            spline x y d = Some (segment_value x y i d).
Proof.
  intros Hs Hlen Hlo Hhi.
  destruct (searchsorted_spec x d) as (Hb & Hbelow & Hat).
  set (s := searchsorted x d) in *.
  assert (Hs1 : (1 <= s)%nat).
  { destruct (Nat.eq_dec s 0) as [E|E]; [|lia]. rewrite E in Hat.
    specialize (Hat ltac:(lia)). lia. }
  assert (Hs2 : (s <= length x - 1)%nat).
  { destruct (Nat.eq_dec s (length x)) as [E|E]; [|lia].
    specialize (Hbelow (length x - 1)%nat ltac:(lia)).
    rewrite last_nth in Hhi. lia. }
  exists (s - 1)%nat. replace (S (s - 1)) with s by lia.
  specialize (Hbelow (s - 1)%nat ltac:(lia)). specialize (Hat ltac:(lia)).
  split; [lia|]. split; [lia|].
  unfold spline, segment_value. fold s.
  replace (Nat.min (Nat.max s 1) (length x - 1)) with s by lia.
  replace (S (s - 1)) with s by lia.
  destruct (Z.eqb_spec (nth s x 0 - nth (s - 1) x 0) 0) as [E|E]; [lia|reflexivity].
Qed.

(** At the first sampled day the interpolant works on the first segment. *)
Lemma spline_first (x : list Z) (y : list Q) :
  (2 <= length x)%nat -> nth 0 x 0 < nth 1 x 0 ->
  spline x y (nth 0 x 0) = Some (segment_value x y 0 (nth 0 x 0)).
Proof.
  intros Hlen Hlt. unfold spline, segment_value.
  assert (E : searchsorted x (nth 0 x 0) = 0%nat).
  { destruct x as [|x0 x]; [reflexivity|]. simpl. now rewrite Z.ltb_irrefl. }
  rewrite E. replace (Nat.min (Nat.max 0 1) (length x - 1)) with 1%nat by lia.
  simpl (1 - 1)%nat.
  destruct (Z.eqb_spec (nth 1 x 0 - nth 0 x 0) 0) as [E'|E']; [lia|reflexivity].
Qed.

Lemma term_spline_below (x : list Z) (y : list Q) (d : Z) :
  d < nth 0 x 0 -> term_spline x y d = Some (nth 0 y 0%Q).
Proof.
  intros H. unfold term_spline. rewrite !hd_nth.
  destruct (Z.ltb_spec d (nth 0 x 0)); [reflexivity|lia].
Qed.

Lemma term_spline_above (x : list Z) (y : list Q) (d : Z) :
  StronglySorted Z.le x -> (1 <= length x)%nat ->
  nth (length x - 1) x 0 < d ->
  term_spline x y d = Some (nth (length y - 1) y 0%Q).
Proof.
  intros Hs Hlen H. unfold term_spline. rewrite hd_nth, !last_nth.
  pose proof (sorted_nth_le x Hs 0 (length x - 1) ltac:(lia)).
  destruct (Z.ltb_spec d (nth 0 x 0)); [lia|].
  destruct (Z.ltb_spec (nth (length x - 1) x 0) d); [reflexivity|lia].
Qed.

Lemma term_spline_inside (x : list Z) (y : list Q) (d : Z) :
  nth 0 x 0 <= d <= nth (length x - 1) x 0 ->
  term_spline x y d = spline x y d.
Proof.
  intros H. unfold term_spline. rewrite hd_nth, !last_nth.
  destruct (Z.ltb_spec d (nth 0 x 0)); [lia|].
  destruct (Z.ltb_spec (nth (length x - 1) x 0) d); [lia|reflexivity].
Qed.

Lemma inject_Z_nonzero (z : Z) : z <> 0 -> ~ (inject_Z z == 0)%Q.
Proof. intros Hz H. unfold Qeq in H. simpl in H. lia. Qed.

Lemma segment_value_lerp (x : list Z) (y : list Q) (i : nat) (d : Z) :
  nth i x 0 < nth (S i) x 0 ->
  (segment_value x y i d ==
   lerp (nth i x 0%Z) (nth i y 0) (nth (S i) x 0%Z) (nth (S i) y 0) d)%Q.
Proof.
  intros H. unfold segment_value, lerp. field. apply inject_Z_nonzero. lia.
Qed.

Lemma segment_value_right (x : list Z) (y : list Q) (i : nat) :
  nth i x 0 < nth (S i) x 0 ->
  (segment_value x y i (nth (S i) x 0%Z) == nth (S i) y 0)%Q.
Proof.
  intros H. unfold segment_value. field. apply inject_Z_nonzero. lia.
Qed.

Lemma lerp_left (d1 : Z) (v1 : Q) (d2 : Z) (v2 : Q) :
  d1 < d2 -> (lerp d1 v1 d2 v2 d1 == v1)%Q.
Proof.
  intros H. unfold lerp. rewrite Z.sub_diag. change (inject_Z 0) with 0%Q.
  field. apply inject_Z_nonzero. lia.
Qed.

(** *** The query contract *)

Lemma sort_points_length (days : list Z) (ivs : list Q) :
  length days = length ivs -> length (sort_points days ivs) = length days.
Proof.
  intros Hlen. rewrite (Permutation_length (sort_points_perm days ivs)).
  rewrite length_combine. lia.
Qed.

Lemma sort_points_index (days : list Z) (ivs : list Q) (d : Z) (v : Q) :
  In (d, v) (combine days ivs) ->
  exists j, (j < length (sort_points days ivs))%nat /\
            nth j (map fst (sort_points days ivs)) 0 = d /\
            nth j (map snd (sort_points days ivs)) 0%Q = v.
Proof.
  intros Hin. apply (Permutation_in _ (Permutation_sym (sort_points_perm days ivs))) in Hin.
  destruct (In_nth _ _ (0, 0%Q) Hin) as (j & Hj & E).
  exists j. split; [exact Hj|].
  change 0 with (fst (0, 0%Q)) at 1. change 0%Q with (snd (0, 0%Q)) at 2.
  rewrite !map_nth, E. split; reflexivity.
Qed.

Lemma sort_points_nth_In (days : list Z) (ivs : list Q) (j : nat) :
  length days = length ivs -> (j < length days)%nat ->
  In (nth j (map fst (sort_points days ivs)) 0) days.
Proof.
  intros Hlen Hj. rewrite sort_points_days by assumption.
  apply sorted_In, nth_In. now rewrite sorted_length.
Qed.

Lemma NoDup_two_distinct (days : list Z) :
  NoDup days -> (2 <= length days)%nat ->
  exists a b, In a days /\ In b days /\ a <> b.
Proof.
  intros Hnd Hlen. destruct days as [|a [|b days]]; simpl in Hlen; try lia.
  exists a, b. simpl. repeat split; auto.
  inversion Hnd as [|? ? Hnin _]; subst. intros ->. apply Hnin. now left.
Qed.

(** The contract of the query, for sample points with pairwise distinct days. *)
Lemma term_spline_contract (days : list Z) (ivs : list Q) :
  length days = length ivs -> NoDup days -> (2 <= length days)%nat ->
  exists f, build_term_structure days ivs = Ok f /\
    forall d,
      (forall dmin vmin,
          In (dmin, vmin) (combine days ivs) ->
          (forall x, In x days -> dmin <= x) -> d < dmin -> f d = Some vmin) /\
      (forall dmax vmax,
          In (dmax, vmax) (combine days ivs) ->
          (forall x, In x days -> x <= dmax) -> dmax < d -> f d = Some vmax) /\
      (forall d1 v1 d2 v2,
          In (d1, v1) (combine days ivs) -> In (d2, v2) (combine days ivs) ->
          d1 < d2 -> (forall x, In x days -> ~ d1 < x < d2) ->
          d1 <= d <= d2 ->
          exists q, f d = Some q /\ (q == lerp d1 v1 d2 v2 d)%Q) /\
      (exists q, f d = Some q).
Proof.
  intros Hlen Hnd Hn.
  destruct (NoDup_two_distinct days Hnd Hn) as (a & b & Ha & Hb & Hab).
  rewrite (build_term_structure_sorted days ivs Hlen (np_unique_long days a b Ha Hb Hab)).
  eexists. split; [reflexivity|].
  pose proof (sort_points_length days ivs Hlen) as Hlsp.
  pose proof (sort_points_days days ivs Hlen) as Hx.
  pose proof (fun j => sort_points_nth_In days ivs j Hlen) as Hmem.
  pose proof (sort_points_index days ivs) as Hidx.
  set (sp := sort_points days ivs) in *.
  set (x := map fst sp) in *. set (y := map snd sp) in *.
  assert (Hlx : length x = length days) by (unfold x; now rewrite length_map).
  assert (Hly : length y = length days) by (unfold y; now rewrite length_map).
  assert (Hle : StronglySorted Z.le x) by (rewrite Hx; apply sorted_sorted).
  assert (Hlt : StronglySorted Z.lt x).
  { rewrite Hx. apply StronglySorted_le_lt; [apply sorted_sorted|now apply sorted_NoDup]. }
  pose proof (StronglySorted_nth Z.lt x 0 Hlt) as Hmono.
  assert (Hinj : forall j k, (j < length x)%nat -> (k < length x)%nat ->
                             nth j x 0 <= nth k x 0 -> (j <= k)%nat).
  { intros j k Hj Hk Hjk. destruct (Nat.le_gt_cases j k) as [|Hgt]; [assumption|].
    specialize (Hmono k j ltac:(lia)). lia. }
  intros d. split; [|split; [|split]].
  - intros dmin vmin Hin Hmin Hd.
    destruct (Hidx _ _ Hin) as (j & Hj & Hdj & Hvj).
    assert (j = 0%nat) as ->.
    { assert (j <= 0)%nat; [|lia]. apply Hinj; [lia|lia|].
      rewrite Hdj. apply Hmin, Hmem. lia. }
    rewrite term_spline_below by lia. now rewrite Hvj.
  - intros dmax vmax Hin Hmax Hd.
    destruct (Hidx _ _ Hin) as (j & Hj & Hdj & Hvj).
    assert (j = (length x - 1)%nat) as ->.
    { assert (length x - 1 <= j)%nat; [|lia]. apply Hinj; [lia|lia|].
      rewrite Hdj. apply Hmax, Hmem. lia. }
    rewrite term_spline_above by (try assumption; lia).
    rewrite Hly, <- Hlx. now rewrite Hvj.
  - intros d1 v1 d2 v2 Hin1 Hin2 H12 Hgap Hd.
    destruct (Hidx _ _ Hin1) as (j1 & Hj1 & Hd1 & Hv1).
    destruct (Hidx _ _ Hin2) as (j2 & Hj2 & Hd2 & Hv2).
    assert (Hj12 : (j1 < j2)%nat).
    { destruct (Nat.le_gt_cases j2 j1) as [Hle'|]; [|assumption].
      pose proof (sorted_nth_le x Hle j2 j1 ltac:(lia)). lia. }
    assert (j2 = S j1) as ->.
    { destruct (Nat.eq_dec j2 (S j1)) as [|Hne]; [assumption|exfalso].
      apply (Hgap (nth (S j1) x 0)); [apply Hmem; lia|].
      pose proof (Hmono j1 (S j1) ltac:(lia)).
      pose proof (Hmono (S j1) j2 ltac:(lia)). lia. }
    pose proof (sorted_nth_le x Hle 0 j1 ltac:(lia)) as H0.
    pose proof (sorted_nth_le x Hle (S j1) (length x - 1) ltac:(lia)) as Hlast.
    rewrite term_spline_inside by lia.
    destruct (Z.eq_dec d (nth 0 x 0)) as [Hd0|Hd0].
    + assert (j1 = 0%nat) as ->.
      { assert (j1 <= 0)%nat; [|lia]. apply Hinj; lia. }
      rewrite Hd0, spline_first by lia.
      eexists. split; [reflexivity|].
      rewrite segment_value_lerp by lia. rewrite Hd1, Hd2, Hv1, Hv2. reflexivity.
    + destruct (spline_segment x y d Hle ltac:(lia) ltac:(lia)
                  ltac:(rewrite last_nth; lia)) as (i & Hi & Hseg & ->).
      eexists. split; [reflexivity|].
      destruct (lt_eq_lt_dec i j1) as [[Hlt1 | -> ] | Hgt1].
      * pose proof (sorted_nth_le x Hle (S i) j1 ltac:(lia)) as Hle1.
        assert (S i = j1) as <-.
        { assert (j1 <= S i)%nat; [|lia]. apply Hinj; lia. }
        assert (d = nth (S i) x 0) as -> by lia.
        rewrite segment_value_right by lia.
        rewrite Hv1, Hd1. symmetry. apply lerp_left. lia.
      * rewrite segment_value_lerp by lia. rewrite Hd1, Hd2, Hv1, Hv2. reflexivity.
      * pose proof (sorted_nth_le x Hle (S j1) i ltac:(lia)). lia.
  - destruct (Z_lt_le_dec d (nth 0 x 0)) as [Hlo|Hlo].
    { rewrite term_spline_below by assumption. now eexists. }
    destruct (Z_lt_le_dec (nth (length x - 1) x 0) d) as [Hhi|Hhi].
    { rewrite term_spline_above by (try assumption; lia). now eexists. }
    rewrite term_spline_inside by lia.
    destruct (Z.eq_dec d (nth 0 x 0)) as [->|Hd0].
    + pose proof (Hmono 0%nat 1%nat ltac:(lia)). rewrite spline_first by lia. now eexists.
    + destruct (spline_segment x y d Hle ltac:(lia) ltac:(lia)
                  ltac:(rewrite last_nth; lia)) as (i & _ & _ & ->).
      now eexists.
Qed.

(** C2.  The query contract of a term structure built from at least two
    points with pairwise distinct days: below the smallest sampled day it
    returns the volatility sampled there, above the largest sampled day the
    volatility sampled there, and between two neighbouring sampled days the
    linear interpolation of their volatilities, and every query has a value;
    with exactly two points
    (d1, v1), (d2, v2) and d1 <= d <= d2 that is
    v1 + (v2 - v1) * (d - d1) / (d2 - d1). *)
Theorem term_structure_query_contract :
  (forall (days : list Z) (ivs : list Q),
      length days = length ivs -> NoDup days -> (2 <= length days)%nat ->
      exists f, build_term_structure days ivs = Ok f /\
        forall d,
          (forall dmin vmin,
              In (dmin, vmin) (combine days ivs) ->
              (forall x, In x days -> dmin <= x) -> d < dmin -> f d = Some vmin) /\
          (forall dmax vmax,
              In (dmax, vmax) (combine days ivs) ->
              (forall x, In x days -> x <= dmax) -> dmax < d -> f d = Some vmax) /\
          (forall d1 v1 d2 v2,
              In (d1, v1) (combine days ivs) -> In (d2, v2) (combine days ivs) ->
              d1 < d2 -> (forall x, In x days -> ~ d1 < x < d2) ->
              d1 <= d <= d2 ->
              exists q, f d = Some q /\ (q == lerp d1 v1 d2 v2 d)%Q) /\
          (exists q, f d = Some q)) /\
  (forall (d1 d2 d : Z) (v1 v2 : Q),
      d1 < d2 -> d1 <= d <= d2 ->
      exists f q,
        build_term_structure [d1; d2] [v1; v2] = Ok f /\ f d = Some q /\
        (q == v1 + (v2 - v1) * inject_Z (d - d1) / inject_Z (d2 - d1))%Q).
Proof.
  split; [exact term_spline_contract|].
  intros d1 d2 d v1 v2 H12 Hd.
  assert (Hnd : NoDup [d1; d2]).
  { repeat constructor; simpl; intuition lia. }
  destruct (term_spline_contract [d1; d2] [v1; v2] eq_refl Hnd ltac:(simpl; lia))
    as (f & Hf & Hq).
  destruct (Hq d) as (_ & _ & Hmid & _).
  destruct (Hmid d1 v1 d2 v2) as (q & Hfq & Heq); simpl; auto.
  - intros x [<-|[<-|[]]]; lia.
  - exists f, q. repeat split; assumption.
Qed.

(** The contract at the samples (10 days, 0.30), (50 days, 0.50) of the
    specification, queried at the days 5, 45 and 60. *)
Lemma term_structure_query_contract_witness :
  length [10; 50] = length [0.30; 0.50]%Q /\ NoDup [10; 50] /\
  10 < 50 /\ 10 <= 45 <= 50 /\
  (exists f,
      build_term_structure [10; 50] [0.30; 0.50]%Q = Ok f /\
      f 5 = Some 0.30%Q /\ f 60 = Some 0.50%Q) /\
  exists f q,
    build_term_structure [10; 50] [0.30; 0.50]%Q = Ok f /\ f 45 = Some q /\
    (q == 0.475)%Q.
Proof.
  assert (Hl : length [10; 50] = length [0.30; 0.50]%Q) by reflexivity.
  assert (Hnd : NoDup [10; 50]) by (repeat constructor; simpl; intuition lia).
  assert (H1 : 10 < 50) by lia. assert (H2 : 10 <= 45 <= 50) by lia.
  split; [exact Hl|]. split; [exact Hnd|]. split; [exact H1|]. split; [exact H2|].
  split.
  - destruct (proj1 term_structure_query_contract [10; 50] [0.30; 0.50]%Q Hl Hnd
                ltac:(simpl; lia)) as (f & Hf & Hq).
    exists f. split; [exact Hf|].
    destruct (Hq 5) as (Hlo & _ & _ & _). destruct (Hq 60) as (_ & Hhi & _ & _).
    split.
    + apply (Hlo 10); [simpl; auto| |lia]. intros x [<-|[<-|[]]]; lia.
    + apply (Hhi 50); [simpl; auto| |lia]. intros x [<-|[<-|[]]]; lia.
  - destruct (proj2 term_structure_query_contract 10 50 45 0.30%Q 0.50%Q H1 H2)
      as (f & q & Hf & Hfq & Heq).
    exists f, q. split; [exact Hf|]. split; [exact Hfq|].
    rewrite Heq. reflexivity.
Defined.

(** C5.  Building a term structure from parallel arrays with fewer than two
    distinct days-to-expiry values fails with the degenerate-term-structure
    error, and returns no curve. *)
Theorem build_term_structure_degenerate (days : list Z) (ivs : list Q) :
  (forall a b, In a days -> In b days -> a = b) ->
  build_term_structure days ivs = Raise (ValueError not_enough_msg).
Proof.
  intros H. unfold build_term_structure.
  pose proof (np_unique_short days H) as Hs.
  destruct (Nat.ltb_spec (length (np_unique days)) 2); [reflexivity|lia].
Qed.

Lemma build_term_structure_degenerate_witness :
  (forall a b, In a [30; 30; 30] -> In b [30; 30; 30] -> a = b) /\
  build_term_structure [30; 30; 30] [1 # 5; 1 # 4; 1 # 3]%Q
    = Raise (ValueError not_enough_msg).
Proof.
  assert (H : forall a b, In a [30; 30; 30] -> In b [30; 30; 30] -> a = b).
  { simpl. intros a b Ha Hb. lia. }
  split; [exact H|]. exact (build_term_structure_degenerate _ _ H).
Defined.

Example build_term_structure_empty :
  build_term_structure [] [] = Raise (ValueError not_enough_msg).
Proof. reflexivity. Qed.

(** *** The order of equal days *)

(** The index array of the model is one that numpy may return. *)
Lemma sort_order_argsort (days : list Z) : sort_order days (argsort days).
Proof.
  split; [apply argsort_perm|].
  pose proof (take_map days (argsort days) 0 (argsort_range days)) as Ht.
  assert (Hlen : length days = length (map (fun _ : Z => 0%Q) days))
    by now rewrite length_map.
  destruct (gather_sorted days _ Hlen) as [Hg _].
  rewrite Ht in Hg. injection Hg as ->.
  rewrite (sort_points_days days _ Hlen). apply sorted_sorted.
Qed.

Lemma build_term_structure_by_argsort (days : list Z) (ivs : list Q) :
  build_term_structure days ivs = build_term_structure_by (argsort days) days ivs.
Proof. reflexivity. Qed.

Lemma sort_order_range (days : list Z) (sort_idx : list nat) :
  sort_order days sort_idx -> Forall (fun i => (i < length days)%nat) sort_idx.
Proof.
  intros [Hp _]. apply Forall_forall. intros i Hi.
  apply (Permutation_in _ Hp), in_seq in Hi. lia.
Qed.

Lemma StronglySorted_map_leb {A : Type} (key : A -> Z) (l : list A) :
  StronglySorted Z.le (map key l) ->
  StronglySorted (fun p q => (key p <=? key q) = true) l.
Proof.
  induction l as [|x l IH]; simpl; intros H; constructor; inversion H; subst.
  - now apply IH.
  - apply Forall_forall. intros y Hy.
    match goal with
    | Hf : Forall _ (map key l) |- _ => rewrite Forall_forall in Hf;
        specialize (Hf (key y) (in_map key l y Hy))
    end. lia.
Qed.

(** With pairwise distinct days numpy has one index array to return, the one
    of the model. *)
Lemma sort_order_unique (days : list Z) (sort_idx : list nat) :
  NoDup days -> sort_order days sort_idx -> sort_idx = argsort days.
Proof.
  intros Hnd Hso. pose proof (sort_order_argsort days) as Hsa.
  pose proof (sort_order_range days sort_idx Hso) as Hr.
  destruct Hso as [Hp Hs], Hsa as [Hp' Hs'].
  apply (sorted_by_key_unique (fun i => nth i days 0)).
  - now apply StronglySorted_map_leb.
  - now apply StronglySorted_map_leb.
  - exact (Permutation_trans Hp (Permutation_sym Hp')).
  - assert (Hni : NoDup sort_idx)
      by (apply (Permutation_NoDup (Permutation_sym Hp)), seq_NoDup).
    rewrite Forall_forall in Hr. clear -Hnd Hni Hr.
    induction sort_idx as [|i idx IH]; simpl; [constructor|].
    inversion Hni as [|? ? Hnin Hni']; subst. constructor.
    + intros Hin. apply in_map_iff in Hin. destruct Hin as (j & Hj & Hjin).
      apply Hnin. replace i with j; [exact Hjin|].
      apply (proj1 (NoDup_nth days 0) Hnd);
        [apply Hr; now right|apply Hr; now left|exact Hj].
    + apply IH; first [assumption | intros j Hj; apply Hr; now right].
Qed.

(** *** Duplicate days *)








(** ** The realized-volatility estimator *)

Section YangZhangFacts.
Local Open Scope R_scope.

Lemma map2_length {A B C : Type} (f : A -> B -> C) (la : list A) (lb : list B) :
  length la = length lb -> length (map2 f la lb) = length la.
Proof.
  revert lb. induction la as [|a la IH]; intros [|b lb] H; simpl in *;
    try discriminate; [reflexivity|]. f_equal. apply IH. lia.
Qed.

Lemma nth_map2 {A B C : Type} (f : A -> B -> C) (la : list A) (lb : list B)
      (i : nat) (da : A) (db : B) (dc : C) :
  (i < length la)%nat -> (i < length lb)%nat ->
  nth i (map2 f la lb) dc = f (nth i la da) (nth i lb db).
Proof.
  revert lb i. induction la as [|a la IH]; intros [|b lb] i Ha Hb; simpl in *; try lia.
  destruct i as [|i]; [reflexivity|]. apply IH; lia.
Qed.

Lemma removelast_length {A : Type} (l : list A) :
  length (removelast l) = (length l - 1)%nat.
Proof.
  induction l as [|a l IH]; [reflexivity|].
  destruct l as [|b l]; [reflexivity|].
  change (removelast (a :: b :: l)) with (a :: removelast (b :: l)).
  cbn [length]. rewrite IH. cbn [length]. lia.
Qed.

Lemma nth_removelast {A : Type} (l : list A) (i : nat) (d : A) :
  (i < length l - 1)%nat -> nth i (removelast l) d = nth i l d.
Proof.
  revert i. induction l as [|a l IH]; intros i Hi; [reflexivity|].
  destruct l as [|b l]; [simpl in Hi; lia|].
  change (removelast (a :: b :: l)) with (a :: removelast (b :: l)).
  destruct i as [|i]; [reflexivity|].
  change (nth i (removelast (b :: l)) d = nth i (b :: l) d).
  apply IH. simpl in *. lia.
Qed.

Lemma shift1_length {A : Type} (s : list (option A)) : length (shift1 s) = length s.
Proof.
  destruct s as [|a s]; [reflexivity|]. unfold shift1.
  change (length (None :: removelast (a :: s))) with (S (length (removelast (a :: s)))).
  rewrite removelast_length. simpl. lia.
Qed.

Lemma nth_shift1 {A : Type} (s : list (option A)) (i : nat) :
  (1 <= i < length s)%nat -> nth i (shift1 s) None = nth (i - 1) s None.
Proof.
  intros Hi. destruct s as [|a s]; [simpl in Hi; lia|]. unfold shift1.
  destruct i as [|i]; [lia|]. simpl (S i - 1)%nat. rewrite Nat.sub_0_r.
  change (nth (S i) (None :: removelast (a :: s)) None)
    with (nth i (removelast (a :: s)) None).
  apply nth_removelast. lia.
Qed.

Lemma column_length (f : PriceBar -> Q) (bars : list PriceBar) :
  length (column f bars) = length bars.
Proof. apply length_map. Qed.

Lemma nth_column (f : PriceBar -> Q) (bars : list PriceBar) (i : nat) :
  (i < length bars)%nat -> nth i (column f bars) None = Some (f (bar_at bars i)).
Proof.
  intros Hi. unfold column, bar_at.
  rewrite (nth_indep _ None (Some (f (mkBar 0 1 1 1 1 0)))) by now rewrite length_map.
  apply (map_nth (fun b => Some (f b))).
Qed.

(** The last row of the series. *)
Lemma last_lift2 (op : R -> R -> R) (a b : Series) :
  length a = length b ->
  last (map2 (lift2 op) a b) None = lift2 op (last a None) (last b None).
Proof.
  intros H. rewrite !last_nth, map2_length by assumption.
  destruct a as [|x a].
  - destruct b; [reflexivity|discriminate].
  - rewrite (nth_map2 _ _ _ _ None None); [now rewrite H|simpl; lia|rewrite <- H; simpl; lia].
Qed.

Lemma last_option_map (g : R -> R) (s : Series) :
  last (map (option_map g) s) None = option_map g (last s None).
Proof.
  induction s as [|x s IH]; [reflexivity|].
  destruct s as [|x' s]; [reflexivity|]. exact IH.
Qed.

Lemma last_map_none (F : option R -> option R) (s : Series) :
  F None = None -> last (map F s) None = F (last s None).
Proof.
  intros HF. induction s as [|x s IH]; [simpl; now rewrite HF|].
  destruct s as [|x' s]; [reflexivity|]. exact IH.
Qed.

Lemma rolling_sum_length (window : nat) (s : Series) :
  length (rolling_sum window s) = length s.
Proof. unfold rolling_sum. now rewrite length_map, length_seq. Qed.

Lemma last_rolling_sum (window : nat) (s : Series) :
  s <> [] -> last (rolling_sum window s) None = window_sum window s (length s - 1).
Proof.
  intros Hs. rewrite last_nth, rolling_sum_length. unfold rolling_sum.
  assert (Hn : (length s - 1 < length s)%nat) by (destruct s; [contradiction|simpl; lia]).
  rewrite (nth_indep _ None (window_sum window s 0)) by now rewrite length_map, length_seq.
  rewrite map_nth, seq_nth by assumption. reflexivity.
Qed.

Lemma rolling_scaled_length (window : nat) (s : Series) :
  length (rolling_scaled window s) = length s.
Proof. unfold rolling_scaled, s_scale. now rewrite length_map, rolling_sum_length. Qed.

Lemma last_rolling_scaled (window : nat) (s : Series) :
  s <> [] ->
  last (rolling_scaled window s) None =
    option_map (fun v => 1 / (INR window - 1) * v) (window_sum window s (length s - 1)).
Proof.
  intros Hs. unfold rolling_scaled, s_scale.
  now rewrite last_option_map, last_rolling_sum.
Qed.

Lemma log_oc_length (bars : list PriceBar) : length (log_oc bars) = length bars.
Proof.
  unfold log_oc. rewrite map2_length; rewrite ?shift1_length, !column_length; reflexivity.
Qed.

Lemma log_cc_length (bars : list PriceBar) : length (log_cc bars) = length bars.
Proof.
  unfold log_cc. rewrite map2_length; rewrite ?shift1_length, !column_length; reflexivity.
Qed.

Lemma log_oc_sq_length (bars : list PriceBar) : length (log_oc_sq bars) = length bars.
Proof. unfold log_oc_sq, s_sq. now rewrite length_map, log_oc_length. Qed.

Lemma log_cc_sq_length (bars : list PriceBar) : length (log_cc_sq bars) = length bars.
Proof. unfold log_cc_sq, s_sq. now rewrite length_map, log_cc_length. Qed.

Lemma log_xo_length (f : PriceBar -> Q) (bars : list PriceBar) :
  length (map2 log_ratio (column f bars) (column Open bars)) = length bars.
Proof. rewrite map2_length; rewrite !column_length; reflexivity. Qed.

Lemma rs_length (bars : list PriceBar) : length (rs bars) = length bars.
Proof.
  unfold rs, s_add, s_mul, s_sub, log_ho, log_lo, log_co.
  repeat (rewrite map2_length; rewrite ?log_xo_length); reflexivity.
Qed.

Ltac series_len :=
  unfold s_add, s_sub, s_mul, s_scale, s_sq;
  repeat (progress (rewrite ?length_map, ?rolling_scaled_length, ?log_oc_sq_length,
                     ?log_cc_sq_length, ?rs_length)
          || rewrite map2_length);
  try reflexivity.

(** The value of [yang_zhang] is the last row of [result]. *)
Lemma yang_zhang_last (bars : list PriceBar) (window : nat) (tp : R) :
  window <> 1%nat -> bars <> [] ->
  let n := length bars in
  let c := 1 / (INR window - 1) in
  let at_last s := option_map (fun v => c * v) (window_sum window s (n - 1)) in
  yang_zhang bars window tp =
    Ok (lift2 Rmult
          (np_sqrt
             (lift2 Rplus
                (lift2 Rplus (at_last (log_oc_sq bars))
                   (option_map (fun v => yz_k window * v) (at_last (log_cc_sq bars))))
                (option_map (fun v => (1 - yz_k window) * v) (at_last (rs bars)))))
          (np_sqrt (Some tp))).
Proof.
  intros Hw Hb n c at_last. unfold yang_zhang, yang_zhang_result.
  destruct (Nat.eqb_spec window 1) as [|_]; [contradiction|]. cbn [bind].
  assert (Hne : forall s : Series, length s = n -> s <> []).
  { intros s Hs ->. destruct bars; [contradiction|]. discriminate. }
  set (r := map _ _).
  assert (Hr : length r = n) by (unfold r; series_len).
  destruct r as [|r0 r'] eqn:Er; [exfalso; now apply (Hne [] Hr)|].
  rewrite <- Er. unfold r. f_equal.
  rewrite last_map_none by reflexivity. f_equal. f_equal.
  unfold s_add, s_scale.
  rewrite !last_lift2 by series_len.
  rewrite !last_option_map.
  rewrite !last_rolling_scaled by (apply Hne; series_len).
  rewrite log_oc_sq_length, log_cc_sq_length, rs_length. reflexivity.
Qed.

(** With no more rows than [window], the window of the overnight term
    reaches the first row, whose previous close is missing. *)
Lemma window_sum_short (window : nat) (s : Series) :
  (1 <= length s <= window)%nat -> nth 0 s None = None ->
  window_sum window s (length s - 1) = None.
Proof.
  intros Hn H0. unfold window_sum.
  destruct (Nat.ltb_spec (S (length s - 1)) window) as [|Hge]; [reflexivity|].
  assert (length s = window) by lia.
  replace (S (length s - 1) - window)%nat with 0%nat by lia. simpl skipn.
  rewrite firstn_all2 by lia.
  destruct s as [|x s]; [simpl in Hn; lia|]. simpl in H0. subst x. reflexivity.
Qed.

Lemma log_oc_sq_first (bars : list PriceBar) : nth 0 (log_oc_sq bars) None = None.
Proof. destruct bars as [|b bars]; reflexivity. Qed.

Lemma yang_zhang_short (bars : list PriceBar) (window : nat) (tp : R) :
  window <> 1%nat -> (1 <= length bars <= window)%nat ->
  yang_zhang bars window tp = Ok None.
Proof.
  intros Hw Hn. rewrite yang_zhang_last
    by first [assumption | destruct bars; [simpl in Hn; lia|discriminate]].
  cbv zeta. rewrite <- (log_oc_sq_length bars) at 1.
  rewrite window_sum_short; [reflexivity|now rewrite log_oc_sq_length|apply log_oc_sq_first].
Qed.

(** *** The value on a long enough history *)

Lemma firstn_skipn_seq {A : Type} (l : list A) (s w : nat) (d : A) :
  (s + w <= length l)%nat ->
  firstn w (skipn s l) = map (fun j => nth j l d) (seq s w).
Proof.
  revert l s. induction w as [|w IH]; intros l s H; [now rewrite firstn_O|].
  destruct (skipn s l) as [|x t] eqn:E.
  - assert (length (skipn s l) = 0%nat) by now rewrite E.
    rewrite length_skipn in *. lia.
  - simpl. f_equal.
    + pose proof (nth_skipn s l 0 d) as Hn. rewrite E, Nat.add_0_r in Hn.
      simpl in Hn. congruence.
    + rewrite <- (IH l (S s)) by lia.
      replace (S s) with (1 + s)%nat by lia. rewrite <- skipn_skipn, E. reflexivity.
Qed.

Lemma sum_all_map_seq (g : nat -> option R) (f : nat -> R) (s w : nat) :
  (forall j, (s <= j < s + w)%nat -> g j = Some (f j)) ->
  sum_all (map g (seq s w)) = Some (sum_over f s w).
Proof.
  revert s. induction w as [|w IH]; intros s H; [reflexivity|].
  unfold sum_over. simpl. rewrite H by lia.
  rewrite IH by (intros; apply H; lia). reflexivity.
Qed.

Lemma window_sum_long (window : nat) (s : Series) (f : nat -> R) (i : nat) :
  (window <= S i <= length s)%nat ->
  (forall j, (S i - window <= j <= i)%nat -> nth j s None = Some (f j)) ->
  window_sum window s i = Some (sum_over f (S i - window) window).
Proof.
  intros Hi Hf. unfold window_sum.
  destruct (Nat.ltb_spec (S i) window) as [|_]; [lia|].
  rewrite (firstn_skipn_seq _ _ _ None) by lia.
  apply sum_all_map_seq. intros j Hj. apply Hf. lia.
Qed.

Lemma log_ratio_positive (u v : Q) :
  (0 < u)%Q -> (0 < v)%Q -> log_ratio (Some u) (Some v) = Some (ln_ratio u v).
Proof.
  intros Hu Hv. unfold log_ratio.
  destruct (Qlt_le_dec 0 (u / v)) as [_|Hle]; [reflexivity|exfalso].
  apply (Qle_not_lt _ _ Hle). apply Qlt_shift_div_l; [assumption|].
  now rewrite Qmult_0_l.
Qed.

Lemma positive_bar_at (bars : list PriceBar) (i : nat) :
  Forall positive_bar bars -> (i < length bars)%nat -> positive_bar (bar_at bars i).
Proof.
  intros H Hi. rewrite Forall_forall in H. apply H. now apply nth_In.
Qed.

Lemma nth_s_sq (s : Series) (i : nat) :
  nth i (s_sq s) None = option_map (fun v => v * v) (nth i s None).
Proof.
  unfold s_sq. change (@None R) with (option_map (fun v => v * v) None) at 1.
  apply map_nth.
Qed.

Section Rows.
Variable bars : list PriceBar.
Hypothesis Hpos : Forall positive_bar bars.

Lemma nth_log_xo (f : PriceBar -> Q) (i : nat) :
  (forall b, positive_bar b -> (0 < f b)%Q) -> (i < length bars)%nat ->
  nth i (map2 log_ratio (column f bars) (column Open bars)) None
  = Some (ln_ratio (f (bar_at bars i)) (Open (bar_at bars i))).
Proof.
  intros Hf Hi.
  rewrite (nth_map2 _ _ _ _ None None) by now rewrite column_length.
  rewrite !nth_column by assumption.
  pose proof (positive_bar_at bars i Hpos Hi) as Hb.
  apply log_ratio_positive; [now apply Hf|apply Hb].
Qed.

Lemma nth_log_xc (f : PriceBar -> Q) (i : nat) :
  (forall b, positive_bar b -> (0 < f b)%Q) -> (1 <= i < length bars)%nat ->
  nth i (map2 log_ratio (column f bars) (shift1 (column Close bars))) None
  = Some (ln_ratio (f (bar_at bars i)) (Close (bar_at bars (i - 1)))).
Proof.
  intros Hf Hi.
  rewrite (nth_map2 _ _ _ _ None None)
    by (rewrite ?shift1_length, column_length; lia).
  rewrite nth_shift1 by (rewrite column_length; lia).
  rewrite !nth_column by lia.
  apply log_ratio_positive.
  - apply Hf, positive_bar_at; [assumption|lia].
  - apply (positive_bar_at bars (i - 1) Hpos). lia.
Qed.

Lemma nth_log_oc_sq (i : nat) :
  (1 <= i < length bars)%nat ->
  nth i (log_oc_sq bars) None = Some (overnight_sq bars i).
Proof.
  intros Hi. unfold log_oc_sq, log_oc. rewrite nth_s_sq, nth_log_xc; try assumption.
  - reflexivity.
  - intros b Hb. apply Hb.
Qed.

Lemma nth_log_cc_sq (i : nat) :
  (1 <= i < length bars)%nat ->
  nth i (log_cc_sq bars) None = Some (close_sq bars i).
Proof.
  intros Hi. unfold log_cc_sq, log_cc. rewrite nth_s_sq, nth_log_xc; try assumption.
  - reflexivity.
  - intros b Hb. apply Hb.
Qed.

Lemma nth_rs (i : nat) :
  (i < length bars)%nat -> nth i (rs bars) None = Some (rs_term bars i).
Proof.
  intros Hi. unfold rs, s_add, s_mul, s_sub, log_ho, log_lo, log_co.
  repeat rewrite (nth_map2 (lift2 _) _ _ _ None None)
    by (repeat first [rewrite log_xo_length | rewrite map2_length];
        first [reflexivity | assumption]).
  rewrite !nth_log_xo; try assumption; try (intros b Hb; apply Hb).
  reflexivity.
Qed.
End Rows.

Lemma np_sqrt_mult (v tp : R) :
  0 < tp ->
  lift2 Rmult (np_sqrt (Some v)) (np_sqrt (Some tp)) = np_sqrt (Some (v * tp)).
Proof.
  intros Htp. unfold np_sqrt.
  destruct (Rle_dec 0 tp) as [_|H]; [|lra].
  destruct (Rle_dec 0 v) as [Hv|Hv]; destruct (Rle_dec 0 (v * tp)) as [Hm|Hm]; simpl.
  - now rewrite sqrt_mult by lra.
  - exfalso. apply Hm. apply Rmult_le_pos; lra.
  - exfalso. apply Hv. nra.
  - reflexivity.
Qed.

Lemma yang_zhang_long (bars : list PriceBar) (window : nat) (tp : R) :
  (2 <= window)%nat -> (window < length bars)%nat ->
  Forall positive_bar bars -> 0 < tp ->
  yang_zhang bars window tp = Ok (np_sqrt (Some (yz_variance bars window * tp))).
Proof.
  intros Hw Hn Hpos Htp.
  rewrite yang_zhang_last by first [lia | destruct bars; [simpl in Hn; lia|discriminate]].
  cbv zeta.
  rewrite (window_sum_long window (log_oc_sq bars) (overnight_sq bars))
    by first [rewrite log_oc_sq_length; lia
             | intros j Hj; apply nth_log_oc_sq; [assumption|lia]].
  rewrite (window_sum_long window (log_cc_sq bars) (close_sq bars))
    by first [rewrite log_cc_sq_length; lia
             | intros j Hj; apply nth_log_cc_sq; [assumption|lia]].
  rewrite (window_sum_long window (rs bars) (rs_term bars))
    by first [rewrite rs_length; lia
             | intros j Hj; apply nth_rs; [assumption|lia]].
  cbn [option_map lift2]. rewrite np_sqrt_mult by assumption.
  replace (S (length bars - 1) - window)%nat with (length bars - window)%nat by lia.
  reflexivity.
Qed.

Lemma sum_over_zero (f : nat -> R) (s w : nat) :
  (forall j, (s <= j < s + w)%nat -> f j = 0) -> sum_over f s w = 0.
Proof.
  revert s. induction w as [|w IH]; intros s H; [reflexivity|].
  unfold sum_over. simpl. rewrite H by lia.
  change (fold_right Rplus 0 (map f (seq (S s) w))) with (sum_over f (S s) w).
  rewrite IH by (intros; apply H; lia). lra.
Qed.

Lemma ln_ratio_same (p : Q) : (0 < p)%Q -> ln_ratio p p = 0.
Proof.
  intros Hp. unfold ln_ratio.
  assert (0 < Q2R p) by (rewrite <- RMicromega.Q2R_0; now apply Qlt_Rlt).
  replace (Q2R p / Q2R p) with 1 by (field; lra). apply ln_1.
Qed.

Lemma constant_bar_at (bars : list PriceBar) (p : Q) (i : nat) :
  Forall (constant_bar p) bars -> (i < length bars)%nat -> constant_bar p (bar_at bars i).
Proof.
  intros H Hi. rewrite Forall_forall in H. apply H. now apply nth_In.
Qed.

Lemma yz_variance_constant (bars : list PriceBar) (window : nat) (p : Q) :
  (window < length bars)%nat -> (0 < p)%Q -> Forall (constant_bar p) bars ->
  yz_variance bars window = 0.
Proof.
  intros Hn Hp Hc.
  assert (Hat : forall i, (i < length bars)%nat -> constant_bar p (bar_at bars i))
    by (intros; now apply constant_bar_at).
  unfold yz_variance, window_mean.
  rewrite !sum_over_zero; [lra| | |]; intros j Hj.
  - unfold rs_term. destruct (Hat j ltac:(lia)) as (-> & -> & -> & ->).
    rewrite ln_ratio_same by assumption. lra.
  - unfold close_sq. destruct (Hat j ltac:(lia)) as (_ & _ & _ & ->).
    destruct (Hat (j - 1)%nat ltac:(lia)) as (_ & _ & _ & ->).
    rewrite ln_ratio_same by assumption. lra.
  - unfold overnight_sq. destruct (Hat j ltac:(lia)) as (-> & _ & _ & _).
    destruct (Hat (j - 1)%nat ltac:(lia)) as (_ & _ & _ & ->).
    rewrite ln_ratio_same by assumption. lra.
Qed.

Lemma np_sqrt_nonneg (v : R) : 0 <= v -> np_sqrt (Some v) = Some (sqrt v).
Proof.
  intros Hv. unfold np_sqrt. destruct (Rle_dec 0 v); [reflexivity|contradiction].
Qed.

(** *** The variance of consistent bars is not negative *)

Lemma ln_le_mono (x y : R) : 0 < x -> x <= y -> ln x <= ln y.
Proof.
  intros Hx [Hlt| ->]; [|lra]. left. now apply ln_increasing.
Qed.

Lemma Q2R_pos (q : Q) : (0 < q)%Q -> 0 < Q2R q.
Proof. intros H. rewrite <- RMicromega.Q2R_0. now apply Qlt_Rlt. Qed.

Lemma ln_ratio_le (a b c : Q) :
  (0 < c)%Q -> (0 < a)%Q -> (a <= b)%Q -> ln_ratio a c <= ln_ratio b c.
Proof.
  intros Hc Ha Hab. unfold ln_ratio.
  pose proof (Q2R_pos c Hc). pose proof (Q2R_pos a Ha). pose proof (Qle_Rle a b Hab).
  apply ln_le_mono.
  - now apply Rdiv_lt_0_compat.
  - unfold Rdiv. apply Rmult_le_compat_r; [|assumption].
    left. now apply Rinv_0_lt_compat.
Qed.

Lemma rs_term_nonneg (bars : list PriceBar) (i : nat) :
  positive_bar (bar_at bars i) -> consistent_bar (bar_at bars i) ->
  0 <= rs_term bars i.
Proof.
  intros (Ho & Hh & Hl & Hc) (Hlo & Hlc & Hoh & Hch). unfold rs_term.
  set (b := bar_at bars i) in *.
  pose proof (ln_ratio_same (Open b) Ho) as H0.
  pose proof (ln_ratio_le (Open b) (High b) (Open b) Ho Ho Hoh) as H1.
  pose proof (ln_ratio_le (Close b) (High b) (Open b) Ho Hc Hch) as H2.
  pose proof (ln_ratio_le (Low b) (Open b) (Open b) Ho Hl Hlo) as H3.
  pose proof (ln_ratio_le (Low b) (Close b) (Open b) Ho Hl Hlc) as H4.
  nra.
Qed.

Lemma sum_over_nonneg (f : nat -> R) (s w : nat) :
  (forall j, (s <= j < s + w)%nat -> 0 <= f j) -> 0 <= sum_over f s w.
Proof.
  revert s. induction w as [|w IH]; intros s H; [unfold sum_over; simpl; lra|].
  unfold sum_over. simpl.
  change (fold_right Rplus 0 (map f (seq (S s) w))) with (sum_over f (S s) w).
  specialize (H s ltac:(lia)) as H0.
  specialize (IH (S s) ltac:(intros; apply H; lia)). lra.
Qed.

Lemma yz_k_bounds (window : nat) : (2 <= window)%nat -> 0 < yz_k window < 1.
Proof.
  intros Hw. unfold yz_k.
  assert (HW : 2 <= INR window) by (change 2 with (INR 2); now apply le_INR).
  assert (Hq : 0 < (INR window + 1) / (INR window - 1))
    by (apply Rdiv_lt_0_compat; lra).
  set (q := (INR window + 1) / (INR window - 1)) in *.
  split.
  - apply Rdiv_lt_0_compat; lra.
  - apply (Rmult_lt_reg_r (1.34 + q)); [lra|].
    unfold Rdiv. rewrite Rmult_assoc, Rinv_l by lra. lra.
Qed.

Lemma yz_variance_nonneg (bars : list PriceBar) (window : nat) :
  (2 <= window)%nat -> (window < length bars)%nat ->
  Forall positive_bar bars -> Forall consistent_bar bars ->
  0 <= yz_variance bars window.
Proof.
  intros Hw Hn Hpos Hcons.
  assert (HW : 2 <= INR window) by (change 2 with (INR 2); now apply le_INR).
  assert (Hc : 0 < 1 / (INR window - 1)) by (apply Rdiv_lt_0_compat; lra).
  pose proof (yz_k_bounds window Hw) as Hk. unfold yz_k in Hk.
  unfold yz_variance, window_mean.
  set (k := 0.34 / (1.34 + (INR window + 1) / (INR window - 1))) in *.
  assert (H1 : 0 <= sum_over (overnight_sq bars) (length bars - window) window).
  { apply sum_over_nonneg. intros j _. unfold overnight_sq. nra. }
  assert (H2 : 0 <= sum_over (close_sq bars) (length bars - window) window).
  { apply sum_over_nonneg. intros j _. unfold close_sq. nra. }
  assert (H3 : 0 <= sum_over (rs_term bars) (length bars - window) window).
  { apply sum_over_nonneg. intros j Hj. apply rs_term_nonneg.
    - apply positive_bar_at; [assumption|lia].
    - rewrite Forall_forall in Hcons. apply Hcons, nth_In. lia. }
  set (c := 1 / (INR window - 1)) in *.
  assert (0 <= c * sum_over (overnight_sq bars) (length bars - window) window) by nra.
  assert (0 <= c * sum_over (close_sq bars) (length bars - window) window) by nra.
  assert (0 <= c * sum_over (rs_term bars) (length bars - window) window) by nra.
  nra.
Qed.
End YangZhangFacts.

(** The frame of [n] rows at the constant price 100. *)
Lemma flat_bars_facts (n : nat) :
  length (flat_bars n) = n /\ Forall positive_bar (flat_bars n) /\
  Forall (constant_bar 100) (flat_bars n).
Proof.
  unfold flat_bars. rewrite length_map, length_seq. split; [reflexivity|].
  split; apply Forall_forall; intros b Hb; apply in_map_iff in Hb;
    destruct Hb as (d & <- & _); repeat split.
Qed.

(** With exactly [window] = 30 rows, all of them at the constant price 100,
    the estimator has no defined value: the overnight and close-to-close terms
    of the first row need the close of a row before it. *)
Lemma yang_zhang_window_rows_undefined :
  (30 <= length (flat_bars 30))%nat /\ Forall positive_bar (flat_bars 30) /\
  Forall (constant_bar 100) (flat_bars 30) /\
  yang_zhang (flat_bars 30) 30 252 = Ok None /\
  yang_zhang (flat_bars 30) 30 252 <> Ok (Some 0%R) /\
  yang_zhang (flat_bars 30) 30 252
  <> Ok (Some (sqrt (yz_variance (flat_bars 30) 30 * 252))).
Proof.
  destruct (flat_bars_facts 30) as (Hlen & Hpos & Hc).
  assert (H : yang_zhang (flat_bars 30) 30 252 = Ok None).
  { apply yang_zhang_short; [discriminate|]. rewrite Hlen. lia. }
  rewrite H, Hlen. repeat split; try assumption; try discriminate. lia.
Qed.

(** C8, amended.  For every sequence of at least window + 1 bars with
    positive prices, with window at least 2 and a positive number of trading
    periods, the estimator returns sqrt((O + k C + (1 - k) R) trading_periods),
    where O, C and R are the sums over the last [window] rows of
    ln(Open/prevClose)^2, ln(Close/prevClose)^2 and
    rs = log_ho (log_ho - log_co) + log_lo (log_lo - log_co), each scaled by
    1 / (window - 1), and k = 0.34 / (1.34 + (window + 1) / (window - 1)).
    The value is defined whenever low <= open, close <= high in every bar (it
    is NaN only when the variance is negative), and constant bars give 0. *)
Theorem yang_zhang_formula (bars : list PriceBar) (window : nat) (tp : R) :
  (2 <= window)%nat -> (window < length bars)%nat ->
  Forall positive_bar bars -> (0 < tp)%R ->
  yang_zhang bars window tp = Ok (np_sqrt (Some (yz_variance bars window * tp)%R)) /\
  (Forall consistent_bar bars ->
   yang_zhang bars window tp = Ok (Some (sqrt (yz_variance bars window * tp)))) /\
  (forall p, Forall (constant_bar p) bars -> yang_zhang bars window tp = Ok (Some 0%R)).
Proof.
  intros Hw Hn Hpos Htp.
  pose proof (yang_zhang_long bars window tp Hw Hn Hpos Htp) as H.
  split; [exact H|]. split.
  - intros Hcons. pose proof (yz_variance_nonneg bars window Hw Hn Hpos Hcons) as Hv.
    rewrite H, np_sqrt_nonneg; [reflexivity|].
    apply Rmult_le_pos; lra.
  - intros p Hc. rewrite H.
    assert (Hp : (0 < p)%Q).
    { destruct bars as [|b bars]; [simpl in Hn; lia|].
      inversion Hpos as [|? ? Hb _]; inversion Hc as [|? ? Hcb _]; subst.
      destruct Hcb as (<- & _). apply Hb. }
    rewrite (yz_variance_constant bars window p Hn Hp Hc), Rmult_0_l.
    rewrite np_sqrt_nonneg by lra. now rewrite sqrt_0.
Qed.

(** The theorem at 40 bars of constant price 100, with the default window
    and trading periods. *)
Lemma yang_zhang_formula_witness :
  (2 <= 30)%nat /\ (30 < length (flat_bars 40))%nat /\
  Forall positive_bar (flat_bars 40) /\ (0 < 252)%R /\
  Forall consistent_bar (flat_bars 40) /\
  yang_zhang (flat_bars 40) 30 252
  = Ok (Some (sqrt (yz_variance (flat_bars 40) 30 * 252))) /\
  yang_zhang (flat_bars 40) 30 252 = Ok (Some 0%R).
Proof.
  destruct (flat_bars_facts 40) as (Hlen & Hpos & Hc).
  assert (H1 : (2 <= 30)%nat) by lia.
  assert (H2 : (30 < length (flat_bars 40))%nat) by (rewrite Hlen; lia).
  assert (H3 : (0 < 252)%R) by lra.
  split; [exact H1|]. split; [exact H2|]. split; [exact Hpos|]. split; [exact H3|].
  assert (Hcons : Forall consistent_bar (flat_bars 40)).
  { apply Forall_forall. intros b Hb. apply in_map_iff in Hb.
    destruct Hb as (d & <- & _). repeat split; discriminate. }
  split; [exact Hcons|]. split.
  - exact (proj1 (proj2 (yang_zhang_formula (flat_bars 40) 30 252 H1 H2 Hpos H3)) Hcons).
  - exact (proj2 (proj2 (yang_zhang_formula (flat_bars 40) 30 252 H1 H2 Hpos H3)) 100%Q Hc).
Defined.

(** ** The screening engine *)

(** *** The keys of [atm_iv] *)

Lemma dict_set_keys_in {V : Type} (d : dict Z V) (k : Z) (v : V) :
  In k (keys d) -> keys (dict_set d k v) = keys d.
Proof.
  induction d as [|[k' v'] d IH]; simpl; [tauto|].
  intros Hin. destruct (Z.eqb_spec k' k) as [->|Hne]; simpl; [reflexivity|].
  f_equal. apply IH. destruct Hin; [contradiction|assumption].
Qed.

Lemma dict_set_notin {V : Type} (d : dict Z V) (k : Z) (v : V) :
  ~ In k (keys d) -> dict_set d k v = d ++ [(k, v)].
Proof.
  induction d as [|[k' v'] d IH]; simpl; [reflexivity|].
  intros Hnin. destruct (Z.eqb_spec k' k) as [->|Hne]; [tauto|].
  f_equal. apply IH. tauto.
Qed.

Lemma dict_set_keys {V : Type} (d : dict Z V) (k : Z) (v : V) :
  keys (dict_set d k v) = keys d \/ keys (dict_set d k v) = keys d ++ [k].
Proof.
  destruct (in_dec Z.eq_dec k (keys d)) as [Hin|Hnin].
  - left. now apply dict_set_keys_in.
  - right. rewrite dict_set_notin by assumption. unfold keys. now rewrite map_app.
Qed.

Lemma StronglySorted_lt_snoc (l : list Z) (k : Z) :
  StronglySorted Z.lt l -> (forall x, In x l -> x < k) -> StronglySorted Z.lt (l ++ [k]).
Proof.
  induction 1 as [|y l Hs IH Hy]; intros Hk; simpl.
  - repeat constructor.
  - constructor.
    + apply IH. intros x Hx. apply Hk. now right.
    + rewrite Forall_forall in *. intros x Hx. apply in_app_iff in Hx.
      destruct Hx as [Hx|[<-|[]]]; [now apply Hy|apply Hk; now left].
Qed.

Lemma dict_set_ascending {V : Type} (d : dict Z V) (k : Z) (v : V) :
  ascending_below k (keys d) -> ascending_below k (keys (dict_set d k v)).
Proof.
  intros [Hs Hb]. destruct (in_dec Z.eq_dec k (keys d)) as [Hin|Hnin].
  - rewrite dict_set_keys_in by assumption. now split.
  - rewrite dict_set_notin by assumption. unfold keys. rewrite map_app. simpl. split.
    + apply StronglySorted_lt_snoc; [assumption|].
      intros x Hx. specialize (Hb x Hx).
      assert (x <> k) by (intros ->; contradiction). lia.
    + intros x Hx. apply in_app_iff in Hx. destruct Hx as [Hx|[<-|[]]]; [now apply Hb|lia].
Qed.

Lemma dict_set_keys_incl {V : Type} (d : dict Z V) (k : Z) (v : V) (x : Z) :
  In x (keys (dict_set d k v)) -> In x (keys d) \/ x = k.
Proof.
  destruct (dict_set_keys d k v) as [->| ->]; [tauto|].
  rewrite in_app_iff. simpl. intuition.
Qed.

Lemma ascending_below_weaken (b b' : Z) (ks : list Z) :
  b <= b' -> ascending_below b ks -> ascending_below b' ks.
Proof.
  intros Hb [Hs Hk]. split; [assumption|]. intros k Hin. specialize (Hk k Hin). lia.
Qed.

(** In a strictly ascending list of at least two keys that are all among the
    filtered dates, the first key is before the cutoff. *)
Lemma first_key_before_cutoff (today : Z) (dates exps ks : list Z) :
  filter_dates today dates = Ok exps ->
  StronglySorted Z.lt ks -> (forall k, In k ks -> In k exps) ->
  (2 <= length ks)%nat ->
  exists k0 rest, ks = k0 :: rest /\ k0 < today + 45.
Proof.
  intros Hf Hs Hin Hlen.
  destruct (filter_dates_shape today dates exps Hf) as (front & m & -> & Hfront & Hm & Hsorted).
  destruct ks as [|k0 [|k1 rest]]; simpl in Hlen; try lia.
  exists k0, (k1 :: rest). split; [reflexivity|].
  inversion Hs as [|? ? _ Hk0]; subst.
  assert (Hlt : k0 < k1) by (rewrite Forall_forall in Hk0; apply Hk0; now left).
  assert (H0 : In k0 (front ++ [m])) by (apply Hin; now left).
  assert (H1 : In k1 (front ++ [m])) by (apply Hin; right; now left).
  rewrite Forall_forall in Hfront.
  apply in_app_iff in H0. destruct H0 as [H0|[<-|[]]]; [now apply Hfront|].
  apply in_app_iff in H1. destruct H1 as [H1|[<-|[]]]; [|lia].
  specialize (Hfront k1 H1). lia.
Qed.

(** *** The sampling loops and the keys *)

Lemma alpaca_strike_loop_atm (exp_date : Z) (strikes : dict Q StrikeEntry) (st : Sampler) :
  atm_iv (fst (alpaca_strike_loop exp_date strikes st)) = atm_iv st \/
  exists v, atm_iv (fst (alpaca_strike_loop exp_date strikes st))
            = dict_set (atm_iv st) exp_date v.
Proof.
  induction strikes as [|[k e] rest IH]; simpl; [now left|].
  repeat match goal with
         | |- context [match ?x with _ => _ end] => destruct x; simpl
         end;
    try exact IH; try (now left); right; eexists; reflexivity.
Qed.

Lemma alpaca_expiry_loop_keys (chain : AlpacaChain) (price : Q) (exps : list Z) :
  StronglySorted Z.le exps ->
  forall st,
    StronglySorted Z.lt (keys (atm_iv st)) ->
    (forall k e, In k (keys (atm_iv st)) -> In e exps -> k <= e) ->
    let st' := fst (alpaca_expiry_loop chain price exps st) in
    StronglySorted Z.lt (keys (atm_iv st')) /\
    forall k, In k (keys (atm_iv st')) -> In k (keys (atm_iv st)) \/ In k exps.
Proof.
  induction 1 as [|exp rest Hs IH Hexp]; intros st Hst Hb; simpl.
  - split; [assumption|tauto].
  - rewrite Forall_forall in Hexp.
    assert (Hrest : forall st1,
               StronglySorted Z.lt (keys (atm_iv st1)) ->
               (forall k, In k (keys (atm_iv st1)) -> In k (keys (atm_iv st)) \/ k = exp) ->
               StronglySorted Z.lt
                 (keys (atm_iv (fst (alpaca_expiry_loop chain price rest st1)))) /\
               forall k, In k (keys (atm_iv (fst (alpaca_expiry_loop chain price rest st1)))) ->
                         In k (keys (atm_iv st)) \/ exp = k \/ In k rest).
    { intros st1 Hs1 Hk1.
      destruct (IH st1 Hs1) as [Hs' Hk'].
      - intros k e Hk He. destruct (Hk1 k Hk) as [Hk0| ->].
        + apply Hb; [assumption|now right].
        + now apply Hexp.
      - split; [exact Hs'|]. intros k Hk. destruct (Hk' k Hk) as [Hk0|Hk0]; [|tauto].
        destruct (Hk1 k Hk0); auto. }
    destruct (dict_get chain exp) as [[|s0 strikes]|].
    + apply Hrest; [assumption|tauto].
    + pose proof (alpaca_strike_loop_atm exp (sorted_strikes price (s0 :: strikes)) st) as Hatm.
      destruct (alpaca_strike_loop exp (sorted_strikes price (s0 :: strikes)) st)
        as [st1 [e|]]; simpl in Hatm.
      * simpl. destruct Hatm as [->|[v ->]]; [split; [assumption|tauto]|].
        split.
        -- apply dict_set_ascending. split; [assumption|].
           intros k Hk. apply Hb; [assumption|now left].
        -- intros k Hk. apply dict_set_keys_incl in Hk. destruct Hk; auto.
      * destruct Hatm as [E|[v E]]; apply Hrest; rewrite E; try assumption; try tauto.
        -- apply dict_set_ascending. split; [assumption|].
           intros k Hk. apply Hb; [assumption|now left].
        -- intros k Hk. now apply dict_set_keys_incl in Hk.
    + simpl. split; [assumption|tauto].
Qed.

Lemma fetch_chains_keys (md : MarketData) (exps : list Z) :
  StronglySorted Z.le exps ->
  forall d d',
    StronglySorted Z.lt (keys d) ->
    (forall k e, In k (keys d) -> In e exps -> k <= e) ->
    fetch_chains md exps d = Ok d' ->
    StronglySorted Z.lt (keys d') /\
    forall k, In k (keys d') -> In k (keys d) \/ In k exps.
Proof.
  induction 1 as [|exp rest Hs IH Hexp]; intros d d' Hd Hb; simpl.
  - intros [= <-]. split; [assumption|tauto].
  - destruct (yahoo_option_chain md exp) as [c|e]; simpl; [|discriminate].
    intros Hf. rewrite Forall_forall in Hexp.
    destruct (IH (dict_set d exp c) d') as [Hs' Hk']; try assumption.
    + apply dict_set_ascending. split; [assumption|].
      intros k Hk. apply Hb; [assumption|now left].
    + intros k e Hk He. apply dict_set_keys_incl in Hk. destruct Hk as [Hk| ->].
      * apply Hb; [assumption|now right].
      * now apply Hexp.
    + split; [assumption|]. intros k Hk. destruct (Hk' k Hk) as [Hk0|Hk0]; [|tauto].
      apply dict_set_keys_incl in Hk0. destruct Hk0; auto.
Qed.

Lemma yahoo_expiry_loop_keys (price : Q) (chains : dict Z YahooChain) :
  StronglySorted Z.lt (keys chains) ->
  forall i st,
    StronglySorted Z.lt (keys (atm_iv st)) ->
    (forall k e, In k (keys (atm_iv st)) -> In e (keys chains) -> k <= e) ->
    let st' := yahoo_expiry_loop price chains i st in
    StronglySorted Z.lt (keys (atm_iv st')) /\
    forall k, In k (keys (atm_iv st')) -> In k (keys (atm_iv st)) \/ In k (keys chains).
Proof.
  induction chains as [|[exp c] rest IH]; intros Hs i st Hst Hb; simpl.
  - split; [assumption|tauto].
  - simpl in Hs. inversion Hs as [|? ? Hs' Hexp]; subst.
    rewrite Forall_forall in Hexp.
    assert (Hskip : forall i,
               StronglySorted Z.lt (keys (atm_iv (yahoo_expiry_loop price rest i st))) /\
               forall k, In k (keys (atm_iv (yahoo_expiry_loop price rest i st))) ->
                         In k (keys (atm_iv st)) \/ exp = k \/ In k (keys rest)).
    { intros j. destruct (IH Hs' j st Hst) as [H1 H2].
      - intros k e Hk He. apply Hb; [assumption|now right].
      - split; [exact H1|]. intros k Hk. destruct (H2 k Hk); tauto. }
    destruct (calls c) as [cs|]; [|apply Hskip].
    destruct (puts c) as [ps|]; [|apply Hskip].
    destruct (nearest_row price cs) as [cr|]; [|apply Hskip].
    destruct (nearest_row price ps) as [pr|]; [|apply Hskip].
    match goal with
    | |- context [yahoo_expiry_loop price rest (S i) ?s] => set (st1 := s)
    end.
    destruct (IH Hs' (S i) st1) as [H1 H2].
    + unfold st1. simpl. apply dict_set_ascending. split; [assumption|].
      intros k Hk. apply Hb; [assumption|now left].
    + unfold st1. simpl. intros k e Hk He. apply dict_set_keys_incl in Hk.
      destruct Hk as [Hk| ->].
      * apply Hb; [assumption|now right].
      * specialize (Hexp e He). lia.
    + split; [exact H1|]. intros k Hk. destruct (H2 k Hk) as [Hk0|Hk0]; [|tauto].
      unfold st1 in Hk0. simpl in Hk0. apply dict_set_keys_incl in Hk0. destruct Hk0; auto.
Qed.

(** *** The divisor of the slope *)

Lemma unique_from_length (prev : Z) (l : list Z) :
  (length (unique_from prev l) <= length l)%nat.
Proof.
  revert prev. induction l as [|x l IH]; intros prev; simpl; [lia|].
  destruct (x =? prev); simpl; specialize (IH x); lia.
Qed.

Lemma np_unique_length (days : list Z) : (length (np_unique days) <= length days)%nat.
Proof.
  unfold np_unique. rewrite <- (sorted_length days).
  destruct (sorted days) as [|x l]; simpl; [lia|].
  pose proof (unique_from_length x l). lia.
Qed.

Lemma build_term_structure_two (days : list Z) (ivs : list Q) (f : Z -> option Q) :
  build_term_structure days ivs = Ok f -> (2 <= length days)%nat.
Proof.
  unfold build_term_structure.
  destruct (Nat.ltb_spec (length (np_unique days)) 2) as [|H]; [discriminate|].
  intros _. pose proof (np_unique_length days). lia.
Qed.

Lemma dtes_of_keys (today : Z) (d : dict Z Q) :
  dtes_of today d = map (fun k => k - today) (keys d).
Proof. unfold dtes_of, keys. now rewrite map_map. Qed.

Lemma first_dte_before_45 (today : Z) (dates exps : list Z) (d : dict Z Q) :
  filter_dates today dates = Ok exps ->
  StronglySorted Z.lt (keys d) -> (forall k, In k (keys d) -> In k exps) ->
  (2 <= length d)%nat ->
  exists d0 rest, dtes_of today d = d0 :: rest /\ d0 < 45.
Proof.
  intros Hf Hs Hin Hlen.
  destruct (first_key_before_cutoff today dates exps (keys d) Hf Hs Hin)
    as (k0 & rest & Hk & Hlt).
  - unfold keys. now rewrite length_map.
  - exists (k0 - today), (map (fun k => k - today) rest).
    rewrite dtes_of_keys, Hk. split; [reflexivity|lia].
Qed.

(** The samples of the Alpaca loop, started from the empty variables on the
    filtered dates. *)
Lemma alpaca_samples_keys (today : Z) (dates exps : list Z) (chain : AlpacaChain)
      (price : Q) :
  filter_dates today dates = Ok exps ->
  let st := fst (alpaca_expiry_loop chain price exps fresh) in
  StronglySorted Z.lt (keys (atm_iv st)) /\
  forall k, In k (keys (atm_iv st)) -> In k exps.
Proof.
  intros Hf.
  destruct (filter_dates_shape today dates exps Hf) as (_ & _ & _ & _ & _ & Hsorted).
  destruct (alpaca_expiry_loop_keys chain price exps Hsorted fresh) as [H1 H2].
  - constructor.
  - intros k e [].
  - split; [exact H1|]. intros k Hk. destruct (H2 k Hk) as [[]|]; assumption.
Qed.

(** The samples of the Yahoo loop, on the chains fetched for the filtered
    dates. *)
Lemma yahoo_samples_keys (today : Z) (md : MarketData) (dates exps : list Z)
      (oc : dict Z YahooChain) (price : Q) (st0 : Sampler) :
  filter_dates today dates = Ok exps ->
  fetch_chains md exps [] = Ok oc ->
  atm_iv st0 = [] ->
  let st := yahoo_expiry_loop price oc 0 st0 in
  StronglySorted Z.lt (keys (atm_iv st)) /\
  forall k, In k (keys (atm_iv st)) -> In k exps.
Proof.
  intros Hf Hoc H0.
  destruct (filter_dates_shape today dates exps Hf) as (_ & _ & _ & _ & _ & Hsorted).
  destruct (fetch_chains_keys md exps Hsorted [] oc) as [Hs Hk]; try assumption.
  - constructor.
  - intros k e [].
  - destruct (yahoo_expiry_loop_keys price oc Hs 0%nat st0) as [H1 H2].
    + rewrite H0. constructor.
    + rewrite H0. intros k e [].
    + split; [exact H1|]. intros k Hin. destruct (H2 k Hin) as [Hin'|Hin'].
      * rewrite H0 in Hin'. destruct Hin'.
      * destruct (Hk k Hin') as [[]|]; assumption.
Qed.

(** C10.  The slope is (termStructure(45) - termStructure(d0)) / (45 - d0)
    with d0 the first sampled days-to-expiry, and in every run that reaches
    it d0 < 45: on the Alpaca side after at least two samples, on the Yahoo
    side after the term structure was built; the divisor is positive and the
    division does not raise. *)
Theorem slope_divisor_positive (today : Z) (dates exps : list Z) :
  filter_dates today dates = Ok exps ->
  (forall (chain : AlpacaChain) (price : Q) (f : Z -> option Q),
      let st := fst (alpaca_expiry_loop chain price exps fresh) in
      let dtes := dtes_of today (atm_iv st) in
      (2 <= length (atm_iv st))%nat ->
      exists d0 rest,
        dtes = d0 :: rest /\ d0 < 45 /\ 0 < 45 - d0 /\
        slope_0_45 f dtes
        = Ok (match f 45, f d0 with
              | Some a, Some b => Some ((a - b) / inject_Z (45 - d0))%Q
              | _, _ => None
              end)) /\
  (forall (md : MarketData) (oc : dict Z YahooChain) (price : Q) (f : Z -> option Q),
      fetch_chains md exps [] = Ok oc ->
      let st := yahoo_expiry_loop price oc 0 fresh in
      let dtes := dtes_of today (atm_iv st) in
      build_term_structure dtes (ivs_of (atm_iv st)) = Ok f ->
      exists d0 rest,
        dtes = d0 :: rest /\ d0 < 45 /\ 0 < 45 - d0 /\
        slope_0_45 f dtes
        = Ok (match f 45, f d0 with
              | Some a, Some b => Some ((a - b) / inject_Z (45 - d0))%Q
              | _, _ => None
              end)).
Proof.
  intros Hf. split.
  - intros chain price f st dtes Hlen.
    destruct (alpaca_samples_keys today dates exps chain price Hf) as [Hs Hk].
    destruct (first_dte_before_45 today dates exps (atm_iv st) Hf Hs Hk Hlen)
      as (d0 & rest & Hd & Hlt).
    exists d0, rest. unfold dtes. rewrite Hd. repeat split; try lia.
    unfold slope_0_45. destruct (Z.eqb_spec (45 - d0) 0); [lia|reflexivity].
  - intros md oc price f Hoc st dtes Hb.
    destruct (yahoo_samples_keys today md dates exps oc price fresh Hf Hoc eq_refl) as [Hs Hk].
    assert (Hlen : (2 <= length (atm_iv st))%nat).
    { apply build_term_structure_two in Hb. unfold dtes, dtes_of in Hb.
      now rewrite length_map in Hb. }
    destruct (first_dte_before_45 today dates exps (atm_iv st) Hf Hs Hk Hlen)
      as (d0 & rest & Hd & Hlt).
    exists d0, rest. unfold dtes. rewrite Hd. repeat split; try lia.
    unfold slope_0_45. destruct (Z.eqb_spec (45 - d0) 0); [lia|reflexivity].
Qed.

(** The theorem on chains with expirations 10 and 50 days out, on both
    sides: the first sampled days-to-expiry is below 45. *)
Lemma slope_divisor_positive_witness :
  let st := fst (alpaca_expiry_loop chain_10_50 100 [10; 50] fresh) in
  let oc := [(10, yahoo_chain_at_100 10); (50, yahoo_chain_at_100 50)] in
  let st' := yahoo_expiry_loop 100 oc 0 fresh in
  filter_dates 0 [10; 50] = Ok [10; 50] /\
  (2 <= length (atm_iv st))%nat /\
  (exists d0 rest, dtes_of 0 (atm_iv st) = d0 :: rest /\ d0 < 45 /\ 0 < 45 - d0) /\
  fetch_chains near_only [10; 50] [] = Ok oc /\
  (exists f, build_term_structure (dtes_of 0 (atm_iv st')) (ivs_of (atm_iv st')) = Ok f) /\
  (exists d0 rest, dtes_of 0 (atm_iv st') = d0 :: rest /\ d0 < 45 /\ 0 < 45 - d0).
Proof.
  intros st oc st'.
  assert (Hf : filter_dates 0 [10; 50] = Ok [10; 50]) by reflexivity.
  assert (Hl : (2 <= length (atm_iv st))%nat) by (vm_compute; lia).
  assert (Hoc : fetch_chains near_only [10; 50] [] = Ok oc) by reflexivity.
  destruct (build_term_structure (dtes_of 0 (atm_iv st')) (ivs_of (atm_iv st')))
    as [f|] eqn:Hb; [|vm_compute in Hb; discriminate].
  split; [exact Hf|]. split; [exact Hl|].
  split; [|split; [exact Hoc|split; [now exists f|]]].
  - destruct (proj1 (slope_divisor_positive 0 [10; 50] [10; 50] Hf)
                chain_10_50 100%Q (fun _ => None) Hl)
      as (d0 & rest & Hd & H45 & Hpos & _).
    exists d0, rest. repeat split; assumption.
  - destruct (proj2 (slope_divisor_positive 0 [10; 50] [10; 50] Hf)
                near_only oc 100%Q f Hoc Hb)
      as (d0 & rest & Hd & H45 & Hpos & _).
    exists d0, rest. repeat split; assumption.
Defined.

Example slope_of_spec_samples :
  exists f s,
    build_term_structure [10; 50] [0.30; 0.50]%Q = Ok f /\
    slope_0_45 f [10; 50] = Ok (Some s) /\ (s == 1 # 200)%Q /\
    slope_flag (Some s) = false.
Proof.
  eexists. eexists. split; [reflexivity|]. split; [vm_compute; reflexivity|].
  split; reflexivity.
Qed.

(** *** The two providers *)

Lemma fetch_chains_ext (md md' : MarketData) (exps : list Z) (d : dict Z YahooChain) :
  yahoo_option_chain md = yahoo_option_chain md' ->
  fetch_chains md exps d = fetch_chains md' exps d.
Proof.
  intros H. revert d. induction exps as [|e exps IH]; intros d; simpl; [reflexivity|].
  rewrite H. destruct (yahoo_option_chain md' e); simpl; [apply IH|reflexivity].
Qed.

Lemma yahoo_screen_ext (md md' : MarketData) (today : Z) (price : Q) (st : Sampler) :
  yahoo_history md = yahoo_history md' ->
  yahoo_screen md today price st = yahoo_screen md' today price st.
Proof. intros H. unfold yahoo_screen. now rewrite H. Qed.

(** The Yahoo branch reads nothing of what the Alpaca branch left: neither
    its variables nor Alpaca's data. *)
Lemma yahoo_branch_from_scratch (md md' : MarketData) (today : Z) (ticker : string)
      (st st' : Sampler) :
  yahoo_options md = yahoo_options md' ->
  yahoo_option_chain md = yahoo_option_chain md' ->
  yahoo_price md = yahoo_price md' ->
  yahoo_history md = yahoo_history md' ->
  yahoo_branch md today ticker st = yahoo_branch md' today ticker st'.
Proof.
  intros Ho Hc Hp Hh. unfold yahoo_branch. rewrite Ho, Hp.
  destruct (yahoo_options md') as [[|e exps]|[]]; try reflexivity.
  destruct (filter_dates today (e :: exps)) as [l|]; [|reflexivity].
  rewrite (fetch_chains_ext md md' l [] Hc).
  destruct (fetch_chains md' l []); [|reflexivity].
  destruct (yahoo_price md'); [|reflexivity].
  simpl. now apply yahoo_screen_ext.
Qed.

Lemma yahoo_branch_fresh (md : MarketData) (today : Z) (ticker : string) (st : Sampler) :
  yahoo_branch md today ticker st = yahoo_branch md today ticker fresh.
Proof. now apply yahoo_branch_from_scratch. Qed.

Lemma alpaca_screen_cases (md : MarketData) (today : Z) (price : Q) (np : bool)
      (st : Sampler) :
  alpaca_screen md today price np st = FellThrough st \/
  exists r bars,
    alpaca_screen md today price np st = Returned (Flags r) /\
    alpaca_bars md = Some bars /\ (30 <= length bars)%nat.
Proof.
  unfold alpaca_screen.
  destruct (build_term_structure _ _); [|now left].
  destruct (slope_0_45 _ _); [|now left].
  destruct (alpaca_bars md) as [[|b bars]|]; [now left| |now left].
  destruct (Nat.leb_spec 30 (length (b :: bars))); [|now left].
  destruct (yang_zhang _ _ _); [|now left].
  destruct (avg_volume_of md); [|now left].
  destruct (expected_move_of _ _ _); [|now left].
  right. eexists. exists (b :: bars). repeat split. assumption.
Qed.

(** What the Alpaca branch does with a non-empty chain. *)
Lemma alpaca_branch_cases (md : MarketData) (today : Z) (chain : AlpacaChain) :
  alpaca_option_chain md = Ok chain -> chain <> [] ->
  (exists e, filter_dates today (sorted (map fst chain)) = Raise e /\
             alpaca_branch md today chain fresh = Returned (Message not_enough_option_data)) \/
  (exists exps, filter_dates today (sorted (map fst chain)) = Ok exps /\
     ((exists st, alpaca_branch md today chain fresh = FellThrough st) \/
      (exists r bars,
          alpaca_branch md today chain fresh = Returned (Flags r) /\
          (2 <= length (primary_samples md today))%nat /\
          alpaca_bars md = Some bars /\ (30 <= length bars)%nat)) /\
     ((length (primary_samples md today) < 2)%nat ->
      exists st, alpaca_branch md today chain fresh = FellThrough st)).
Proof.
  intros Hc Hne. unfold alpaca_branch, primary_samples, primary_sampling. rewrite Hc.
  destruct chain as [|c0 chain]; [contradiction|].
  destruct (filter_dates today (sorted (map fst (c0 :: chain)))) as [exps|e].
  - right. exists exps. split; [reflexivity|].
    destruct (alpaca_underlying_price md) as [[price np]|e].
    + destruct (alpaca_expiry_loop (c0 :: chain) price exps fresh) as [st [e|]].
      * split; [left|intros _]; now exists st.
      * destruct (Nat.leb_spec 2 (length (atm_iv st))) as [Hle|Hlt].
        -- split; [|lia].
           destruct (alpaca_screen_cases md today price np st)
             as [->|(r & bars & -> & Hb & Hl)]; [left; now exists st|].
           right. exists r, bars. repeat split; assumption.
        -- split; [left|intros _]; now exists st.
    + split; [left|intros _]; now exists fresh.
  - left. exists e. split; reflexivity.
Qed.

(** *** Sample runs *)
Lemma yang_zhang_flat (n : nat) :
  (30 < n)%nat -> yang_zhang (flat_bars n) 30 252 = Ok (Some 0%R).
Proof.
  intros Hn. destruct (flat_bars_facts n) as (Hlen & Hpos & Hc).
  rewrite yang_zhang_long; try assumption; try lia; try lra.
  rewrite (yz_variance_constant (flat_bars n) 30 100); try assumption; try lia; try reflexivity.
  rewrite Rmult_0_l, np_sqrt_nonneg by lra. now rewrite sqrt_0.
Qed.

Lemma yahoo_screen_flags (md : MarketData) (today : Z) (price : Q) (st : Sampler)
      (f : Z -> option Q) (s : option Q) (h : list PriceBar) (rv : option R) (a : Q)
      (m : option (option Q)) :
  atm_iv st <> [] ->
  build_term_structure (dtes_of today (atm_iv st)) (ivs_of (atm_iv st)) = Ok f ->
  slope_0_45 f (dtes_of today (atm_iv st)) = Ok s ->
  yahoo_history md = Ok h ->
  yang_zhang h 30 252 = Ok rv ->
  rolling_mean_last 30 (map Volume h) = Ok a ->
  expected_move_of true (straddle st) price = Ok m ->
  yahoo_screen md today price st
  = Flags (mkResult (Qle_bool 1500000 a) (ratio_flag (f 30) rv) (slope_flag s) m).
Proof.
  intros Hne Hb Hs Hh Hrv Ha Hm. unfold yahoo_screen.
  destruct (atm_iv st) as [|kv d] eqn:E; [contradiction|].
  rewrite Hb, Hs, Hh, Hrv, Ha, Hm. reflexivity.
Qed.

(** On [near_only] the Yahoo branch, run from scratch, returns flags. *)
Lemma near_only_yahoo_flags :
  exists r, yahoo_branch near_only 0 "ABC" fresh = Flags r.
Proof.
  unfold yahoo_branch.
  change (yahoo_options near_only) with (Ok (A := list Z) [10; 50]).
  change (filter_dates 0 [10; 50]) with (Ok (A := list Z) [10; 50]).
  change (yahoo_price near_only) with (Ok 100%Q).
  destruct (fetch_chains near_only [10; 50] []) as [oc|] eqn:Eoc; [|discriminate].
  injection Eoc as <-.
  eexists. eapply yahoo_screen_flags.
  - vm_compute. discriminate.
  - vm_compute. reflexivity.
  - vm_compute. reflexivity.
  - reflexivity.
  - apply yang_zhang_flat. lia.
  - vm_compute. reflexivity.
  - vm_compute. reflexivity.
Qed.

Lemma alpaca_screen_flags (md : MarketData) (today : Z) (price : Q) (np : bool)
      (st : Sampler) (f : Z -> option Q) (s : option Q) (bars : list PriceBar)
      (rv : option R) (a : Q) (m : option (option Q)) :
  build_term_structure (dtes_of today (atm_iv st)) (ivs_of (atm_iv st)) = Ok f ->
  slope_0_45 f (dtes_of today (atm_iv st)) = Ok s ->
  alpaca_bars md = Some bars -> (30 <= length bars)%nat ->
  yang_zhang (sort_index bars) 30 252 = Ok rv ->
  avg_volume_of md = Ok a ->
  expected_move_of np (straddle st) price = Ok m ->
  alpaca_screen md today price np st
  = Returned (Flags (mkResult (Qle_bool 1500000 a) (ratio_flag (f 30) rv)
                              (slope_flag s) m)).
Proof.
  intros Hb Hs Hbars Hlen Hrv Ha Hm. unfold alpaca_screen.
  rewrite Hb, Hs, Hbars.
  destruct bars as [|b0 bars]; [simpl in Hlen; lia|].
  destruct (Nat.leb_spec 30 (length (b0 :: bars))) as [_|]; [|lia].
  rewrite Hrv, Ha, Hm. reflexivity.
Qed.

(** The run on [first_unquoted]: the Alpaca branch returns flags, with the
    straddle its loop captured. *)
Lemma first_unquoted_flags :
  exists r m,
    alpaca_branch first_unquoted 0 chain_first_unquoted fresh = Returned (Flags r) /\
    compute_recommendation first_unquoted 0 "ABC" = Flags r /\
    expected_move r = Some (Some m) /\ (m == 9)%Q.
Proof.
  assert (Hyz : yang_zhang (sort_index (flat_bars 40)) 30 252 = Ok (Some 0%R)).
  { replace (sort_index (flat_bars 40)) with (flat_bars 40) by (vm_compute; reflexivity).
    apply yang_zhang_flat. lia. }
  assert (Hb : alpaca_branch first_unquoted 0 chain_first_unquoted fresh
               = alpaca_screen first_unquoted 0 100 false
                   (fst (alpaca_expiry_loop chain_first_unquoted 100 [10; 50] fresh)))
    by reflexivity.
  assert (Hcr : compute_recommendation first_unquoted 0 "ABC"
                = match alpaca_branch first_unquoted 0 chain_first_unquoted fresh with
                  | Returned o => o
                  | FellThrough st => yahoo_branch first_unquoted 0 "ABC" st
                  end) by reflexivity.
  rewrite Hcr, Hb.
  erewrite alpaca_screen_flags;
    [ | vm_compute; reflexivity | vm_compute; reflexivity | reflexivity
      | vm_compute; lia | exact Hyz | vm_compute; reflexivity | vm_compute; reflexivity ].
  eexists. eexists. split; [reflexivity|]. split; [reflexivity|].
  split; reflexivity.
Qed.

(** A straddle of 5.00 on an underlying at 100.00 is an expected move of
    5.0 percent; without a straddle there is none. *)
Example expected_move_of_five :
  (exists m, expected_move_of true (Some 5%Q) 100 = Ok (Some (Some m)) /\ (m == 5)%Q) /\
  expected_move_of true None 100 = Ok None.
Proof.
  split; [|reflexivity]. eexists. split; [vm_compute; reflexivity|reflexivity].
Qed.

(** *** The fallback *)

(** The fallback is not taken when the dates of the primary chain fail the
    expiration filter: on [near_only] the primary provider yields no sample,
    the secondary pipeline run from scratch would return flags, and the run
    ends with the not-enough-option-data message. *)
Lemma primary_filter_failure_no_fallback :
  (length (primary_samples near_only 0) < 2)%nat /\
  compute_recommendation near_only 0 "ABC" = Message not_enough_option_data /\
  (exists r, yahoo_branch near_only 0 "ABC" fresh = Flags r) /\
  compute_recommendation near_only 0 "ABC" <> yahoo_branch near_only 0 "ABC" fresh.
Proof.
  assert (H1 : compute_recommendation near_only 0 "ABC" = Message not_enough_option_data)
    by reflexivity.
  destruct near_only_yahoo_flags as [r Hr].
  split; [vm_compute; lia|]. split; [exact H1|]. split; [now exists r|].
  rewrite H1, Hr. discriminate.
Qed.

(** C1, amended.  In every run that obtains a primary chain whose dates pass
    the expiration filter (or an empty chain), the primary provider's data is
    accepted only if its sampling yields at least 2 ATM samples; otherwise
    the outcome is that of the secondary pipeline run from scratch, which
    reads neither the variables the primary sampling left nor any primary
    data.  When the primary dates fail the filter the run ends with the
    not-enough-option-data message. *)
Theorem dual_source_fallback (md : MarketData) (today : Z) (ticker : string)
        (chain : AlpacaChain) :
  ticker <> ""%string ->
  alpaca_option_chain md = Ok chain ->
  (* accepted only with two samples *)
  (forall r,
      chain <> [] -> alpaca_branch md today chain fresh = Returned (Flags r) ->
      compute_recommendation md today ticker = Flags r /\
      (2 <= length (primary_samples md today))%nat) /\
  (* otherwise the secondary pipeline, from scratch *)
  ((chain = [] \/ exists exps, filter_dates today (sorted (map fst chain)) = Ok exps) ->
   (length (primary_samples md today) < 2)%nat ->
   compute_recommendation md today ticker = yahoo_branch md today ticker fresh) /\
  (forall st,
      chain <> [] -> alpaca_branch md today chain fresh = FellThrough st ->
      compute_recommendation md today ticker = yahoo_branch md today ticker fresh) /\
  (* nothing of the primary provider reaches the secondary pipeline *)
  (forall md' st st',
      yahoo_options md = yahoo_options md' ->
      yahoo_option_chain md = yahoo_option_chain md' ->
      yahoo_price md = yahoo_price md' ->
      yahoo_history md = yahoo_history md' ->
      yahoo_branch md today ticker st = yahoo_branch md' today ticker st') /\
  (* the filter failure *)
  (chain <> [] ->
   (exists e, filter_dates today (sorted (map fst chain)) = Raise e) ->
   compute_recommendation md today ticker = Message not_enough_option_data).
Proof.
  intros Ht Hc.
  assert (Hcr : forall c0 cs, chain = c0 :: cs ->
            compute_recommendation md today ticker =
              match alpaca_branch md today chain fresh with
              | Returned o => o
              | FellThrough st => yahoo_branch md today ticker st
              end).
  { intros c0 cs ->. unfold compute_recommendation. rewrite Hc.
    destruct (String.eqb_spec ticker ""); [contradiction|reflexivity]. }
  assert (Hcr' : chain <> [] ->
            compute_recommendation md today ticker =
              match alpaca_branch md today chain fresh with
              | Returned o => o
              | FellThrough st => yahoo_branch md today ticker st
              end).
  { intros Hne. destruct chain as [|c0 cs]; [contradiction|]. now apply (Hcr c0 cs). }
  split; [|split; [|split; [|split]]].
  - intros r Hne Hr. rewrite (Hcr' Hne), Hr. split; [reflexivity|].
    destruct (alpaca_branch_cases md today chain Hc Hne)
      as [(e & _ & Hb)|(exps & _ & [(st & Hb)|(r' & bars & _ & Hl & _)] & _)];
      [congruence|congruence|exact Hl].
  - intros Hok Hlt. destruct chain as [|c0 cs].
    + unfold compute_recommendation. rewrite Hc.
      destruct (String.eqb_spec ticker ""); [contradiction|reflexivity].
    + assert (Hne : c0 :: cs <> []) by discriminate.
      rewrite (Hcr' Hne).
      destruct Hok as [|[exps Hf]]; [discriminate|].
      destruct (alpaca_branch_cases md today (c0 :: cs) Hc Hne)
        as [(e & Hf' & _)|(exps' & _ & _ & Hfall)]; [congruence|].
      destruct (Hfall Hlt) as [st ->]. apply yahoo_branch_fresh.
  - intros st Hne Hb. rewrite (Hcr' Hne), Hb. apply yahoo_branch_fresh.
  - intros md' st st'. apply yahoo_branch_from_scratch.
  - intros Hne [e Hf]. rewrite (Hcr' Hne).
    destruct (alpaca_branch_cases md today chain Hc Hne)
      as [(e' & _ & ->)|(exps & Hf' & _)]; [reflexivity|congruence].
Qed.

(** The theorem on three runs: on [one_sample] the primary provider yields
    a single sample and the run is the secondary pipeline from scratch; on
    [first_unquoted] the primary provider is accepted, with two samples; on
    [near_only] the primary dates fail the filter. *)
Lemma dual_source_fallback_witness :
  "ABC"%string <> ""%string /\
  (exists exps, filter_dates 0 (sorted [10; 50]) = Ok exps) /\
  length (primary_samples one_sample 0) = 1%nat /\
  compute_recommendation one_sample 0 "ABC" = yahoo_branch one_sample 0 "ABC" fresh /\
  (exists r, compute_recommendation first_unquoted 0 "ABC" = Flags r /\
             (2 <= length (primary_samples first_unquoted 0))%nat) /\
  (exists e, filter_dates 0 (sorted [10]) = Raise e) /\
  compute_recommendation near_only 0 "ABC" = Message not_enough_option_data.
Proof.
  assert (Ht : "ABC"%string <> ""%string) by discriminate.
  assert (Hf : exists exps, filter_dates 0 (sorted [10; 50]) = Ok exps)
    by (eexists; reflexivity).
  assert (Hl : length (primary_samples one_sample 0) = 1%nat) by (vm_compute; reflexivity).
  assert (He : exists e, filter_dates 0 (sorted [10]) = Raise e) by (eexists; reflexivity).
  split; [exact Ht|]. split; [exact Hf|]. split; [exact Hl|].
  split; [|split; [|split; [exact He|]]].
  - refine (proj1 (proj2 (dual_source_fallback one_sample 0 "ABC" _ Ht eq_refl)) _ _).
    + right. exact Hf.
    + rewrite Hl. lia.
  - destruct first_unquoted_flags as (r & m & Hb & _).
    exists r.
    refine (proj1 (dual_source_fallback first_unquoted 0 "ABC" _ Ht eq_refl) r _ Hb).
    discriminate.
  - refine (proj2 (proj2 (proj2 (proj2
              (dual_source_fallback near_only 0 "ABC" _ Ht eq_refl)))) _ He).
    discriminate.
Defined.

(** *** The straddle *)

(** Neither loop overwrites a straddle once it is set. *)
Lemma alpaca_strike_loop_straddle_kept (exp_date : Z) (strikes : dict Q StrikeEntry)
      (st : Sampler) (s : Q) :
  straddle st = Some s ->
  straddle (fst (alpaca_strike_loop exp_date strikes st)) = Some s.
Proof.
  intros Hs. induction strikes as [|[k e] rest IH]; simpl; [assumption|].
  repeat match goal with
         | |- context [match ?x with _ => _ end] => destruct x eqn:?; simpl
         end;
    try exact IH; try assumption; congruence.
Qed.

Lemma alpaca_expiry_loop_straddle_kept (chain : AlpacaChain) (price : Q)
      (exps : list Z) (st : Sampler) (s : Q) :
  straddle st = Some s ->
  straddle (fst (alpaca_expiry_loop chain price exps st)) = Some s.
Proof.
  revert st. induction exps as [|exp rest IH]; intros st Hs; simpl; [assumption|].
  destruct (dict_get chain exp) as [[|s0 strikes]|]; [now apply IH| |assumption].
  pose proof (alpaca_strike_loop_straddle_kept exp
                (sorted_strikes price (s0 :: strikes)) st s Hs) as H.
  destruct (alpaca_strike_loop exp (sorted_strikes price (s0 :: strikes)) st)
    as [st1 [e|]]; simpl in *; [assumption|now apply IH].
Qed.

(** The Yahoo loop touches the straddle at its first sample only. *)
Lemma yahoo_expiry_loop_straddle_later (price : Q) (chains : dict Z YahooChain)
      (i : nat) (st : Sampler) :
  i <> 0%nat -> straddle (yahoo_expiry_loop price chains i st) = straddle st.
Proof.
  revert i st. induction chains as [|[exp c] rest IH]; intros i st Hi; simpl; [reflexivity|].
  destruct (calls c) as [cs|]; [|now apply IH].
  destruct (puts c) as [ps|]; [|now apply IH].
  destruct (nearest_row price cs); [|now apply IH].
  destruct (nearest_row price ps); [|now apply IH].
  rewrite IH by lia. simpl.
  destruct (Nat.eqb_spec i 0); [contradiction|reflexivity].
Qed.

(** C3, on the Alpaca side: the first expiration yields a sample whose call
    has no bid, so no straddle is captured there; the loop then captures the
    straddle of the second expiration, and the run reports it as the
    expected move. *)
Theorem alpaca_straddle_retried :
  let st1 := fst (alpaca_expiry_loop chain_first_unquoted 100 [10] fresh) in
  let st2 := fst (alpaca_expiry_loop chain_first_unquoted 100 [10; 50] fresh) in
  keys (atm_iv st1) = [10] /\ straddle st1 = None /\
  keys (atm_iv st2) = [10; 50] /\
  (exists s, straddle st2 = Some s /\ (s == 9)%Q) /\
  exists r m,
    compute_recommendation first_unquoted 0 "ABC" = Flags r /\
    expected_move r = Some (Some m) /\ (m == 9)%Q.
Proof.
  cbv zeta. split; [reflexivity|]. split; [reflexivity|]. split; [reflexivity|].
  split; [eexists; split; [vm_compute; reflexivity|reflexivity]|].
  destruct first_unquoted_flags as (r & m & _ & Hr & Hm & Hq).
  now exists r, m.
Qed.

(** The Yahoo side on the same gap: no straddle at the first sample, and none
    afterwards. *)
Lemma yahoo_straddle_not_retried :
  let st := yahoo_expiry_loop 100 yahoo_first_unquoted 0 fresh in
  keys (atm_iv st) = [10; 50] /\ straddle st = None.
Proof. split; reflexivity. Qed.

(** *** The ATM sample *)

(** On the Alpaca side a recorded sample is the mean of the call and put
    implied volatilities of one entry of the ranking, that is of one strike
    of the expiration. *)
Lemma alpaca_strike_loop_sample (exp_date : Z) (strikes : dict Q StrikeEntry)
      (st : Sampler) :
  atm_iv (fst (alpaca_strike_loop exp_date strikes st)) = atm_iv st \/
  exists pre k e post civ piv,
    strikes = pre ++ (k, e) :: post /\ ivs_at e = Some (civ, piv) /\
    atm_iv (fst (alpaca_strike_loop exp_date strikes st))
    = dict_set (atm_iv st) exp_date ((civ + piv) / 2)%Q.
Proof.
  induction strikes as [|[k e] rest IH]; [now left|].
  assert (Hskip : atm_iv (fst (alpaca_strike_loop exp_date rest st)) = atm_iv st \/
                  exists pre k' e' post civ piv,
                    (k, e) :: rest = pre ++ (k', e') :: post /\ ivs_at e' = Some (civ, piv) /\
                    atm_iv (fst (alpaca_strike_loop exp_date rest st))
                    = dict_set (atm_iv st) exp_date ((civ + piv) / 2)%Q).
  { destruct IH as [IH|(pre & k' & e' & post & civ & piv & -> & Hiv & Ha)]; [now left|].
    right. exists ((k, e) :: pre), k', e', post, civ, piv. repeat split; assumption. }
  assert (Hiv : forall c p cs ps civ piv,
             call e = Some c -> put e = Some p ->
             snapshot c = Some cs -> snapshot p = Some ps ->
             implied_volatility cs = Some civ -> implied_volatility ps = Some piv ->
             ivs_at e = Some (civ, piv)).
  { intros c p cs ps civ piv H1 H2 H3 H4 H5 H6. unfold ivs_at.
    now rewrite H1, H2, H3, H4, H5, H6. }
  simpl.
  destruct (call e) as [c|] eqn:Ecall; [|exact Hskip].
  destruct (put e) as [p|] eqn:Eput; [|exact Hskip].
  destruct (snapshot_request_ok e); simpl; [|now left].
  destruct (snapshot c) as [cs|] eqn:Ec; [|exact Hskip].
  destruct (snapshot p) as [ps|] eqn:Ep; [|exact Hskip].
  destruct (latest_quote cs); [|exact Hskip].
  destruct (latest_quote ps); [|exact Hskip].
  destruct (implied_volatility cs) as [civ|] eqn:Eci; [|exact Hskip].
  destruct (implied_volatility ps) as [piv|] eqn:Epi; [|exact Hskip].
  right. exists [], k, e, rest, civ, piv.
  split; [reflexivity|].
  split; [now apply (Hiv c p cs ps)|].
  destruct (straddle st); reflexivity.
Qed.

(** C4, on the Yahoo side: with calls at the strikes 100 and 105 and puts at
    105 and 110, and the underlying at 100, the nearest call is at 100 and the
    nearest put at 105; the recorded ATM implied volatility 0.40 is the mean
    of the call at 100 (0.30) and the put at 105 (0.50), although the strike
    105 has both a call (0.32) and a put (0.50), whose mean is 0.41. *)
Theorem yahoo_atm_sample_two_strikes :
  let st := yahoo_expiry_loop 100 yahoo_uneven 0 fresh in
  option_map strike (nearest_row 100 [mkRow 100 0.30 (Some 2%Q) (Some 3%Q);
                                      mkRow 105 0.32 (Some 1%Q) (Some 2%Q)])
  = Some 100%Q /\
  option_map strike (nearest_row 100 [mkRow 105 0.50 (Some 6%Q) (Some 7%Q);
                                      mkRow 110 0.52 (Some 10%Q) (Some 11%Q)])
  = Some 105%Q /\
  exists v s,
    atm_iv st = [(10, v)] /\ (v == 0.40)%Q /\ ~ (v == 0.41)%Q /\
    straddle st = Some s /\ (s == 9)%Q.
Proof.
  cbv zeta. split; [reflexivity|]. split; [reflexivity|].
  eexists. eexists. split; [vm_compute; reflexivity|].
  split; [reflexivity|]. split; [intros H; vm_compute in H; discriminate|].
  split; [vm_compute; reflexivity|reflexivity].
Qed.

(** The Alpaca side on a chain with the same gap (no put at the strike 100):
    the loop walks on to the strike 105 and records the mean 0.41 of its call
    and put. *)
Example alpaca_atm_sample_walks :
  let strikes := [ (100%Q, mkStrike (Some (quoted 0.30 2 3)) None true);
                   (105%Q, both (quoted 0.32 1 2) (quoted 0.50 6 7));
                   (110%Q, mkStrike None (Some (quoted 0.52 10 11)) true) ] in
  exists v,
    atm_iv (fst (alpaca_strike_loop 10 (sorted_strikes 100 strikes) fresh)) = [(10, v)] /\
    (v == 0.41)%Q.
Proof. cbv zeta. eexists. split; [vm_compute; reflexivity|reflexivity]. Qed.

(** *** Short price histories *)

Lemma yang_zhang_undefined_below_window (bars : list PriceBar) (tp v : R) :
  (length bars < 30)%nat -> yang_zhang bars 30 tp <> Ok (Some v).
Proof.
  intros Hn. destruct bars as [|b bars].
  - unfold yang_zhang, yang_zhang_result. simpl. discriminate.
  - rewrite yang_zhang_short; [discriminate|discriminate|simpl in *; lia].
Qed.

Lemma rolling_mean_last_rows (window : nat) (xs : list Q) (a : Q) :
  rolling_mean_last window xs = Ok a -> (window <= length xs)%nat.
Proof.
  unfold rolling_mean_last. destruct (Nat.ltb_spec (length xs) window); [discriminate|lia].
Qed.

Lemma alpaca_branch_flags_bars (md : MarketData) (today : Z) (chain : AlpacaChain)
      (st : Sampler) (r : ScreeningResult) :
  alpaca_branch md today chain st = Returned (Flags r) ->
  exists bars, alpaca_bars md = Some bars /\ (30 <= length bars)%nat.
Proof.
  unfold alpaca_branch.
  destruct (filter_dates _ _); [|discriminate].
  destruct (alpaca_underlying_price md) as [[price np]|]; [|discriminate].
  destruct (alpaca_expiry_loop _ _ _ _) as [st' [e|]]; [discriminate|].
  destruct (2 <=? length (atm_iv st'))%nat; [|discriminate].
  destruct (alpaca_screen_cases md today price np st')
    as [->|(r' & bars & _ & Hb & Hl)]; [discriminate|].
  intros _. now exists bars.
Qed.

Lemma yahoo_screen_flags_rows (md : MarketData) (today : Z) (price : Q) (st : Sampler)
      (r : ScreeningResult) :
  yahoo_screen md today price st = Flags r ->
  exists h, yahoo_history md = Ok h /\ (30 <= length h)%nat.
Proof.
  unfold yahoo_screen.
  destruct (atm_iv st); [discriminate|].
  destruct (build_term_structure _ _); [|discriminate].
  destruct (slope_0_45 _ _); [|discriminate].
  destruct (yahoo_history md) as [h|]; [|discriminate].
  destruct (yang_zhang h 30 252); [|discriminate].
  destruct (rolling_mean_last 30 (map Volume h)) as [avg|] eqn:Ea; [|discriminate].
  intros _. exists h. split; [reflexivity|].
  apply rolling_mean_last_rows in Ea. now rewrite length_map in Ea.
Qed.

Lemma yahoo_branch_flags_rows (md : MarketData) (today : Z) (ticker : string)
      (st : Sampler) (r : ScreeningResult) :
  yahoo_branch md today ticker st = Flags r ->
  exists h, yahoo_history md = Ok h /\ (30 <= length h)%nat.
Proof.
  unfold yahoo_branch.
  destruct (yahoo_options md) as [[|e exps]|[]]; try discriminate.
  destruct (filter_dates today (e :: exps)) as [filtered|]; [|discriminate].
  destruct (fetch_chains md filtered []); [|discriminate].
  destruct (yahoo_price md); [|discriminate].
  apply yahoo_screen_flags_rows.
Qed.

(** *** Rows that are not valid bars *)

Lemma sum_all_None (l : Series) : In None l -> sum_all l = None.
Proof.
  induction l as [|x l IH]; [intros []|]. intros [->|H]; [reflexivity|].
  simpl. rewrite (IH H). now destruct x.
Qed.

(** A window that holds a row without a value has no sum. *)
Lemma window_sum_gap (window : nat) (s : Series) (i j : nat) :
  (window <= S i <= length s)%nat -> (S i - window <= j <= i)%nat ->
  nth j s None = None -> window_sum window s i = None.
Proof.
  intros Hi Hj Hn. unfold window_sum.
  destruct (Nat.ltb_spec (S i) window) as [|_]; [reflexivity|].
  rewrite (firstn_skipn_seq _ _ _ None) by lia.
  apply sum_all_None. apply in_map_iff.
  exists j. split; [exact Hn|]. apply in_seq. lia.
Qed.

Lemma ratio_flag_undefined (iv30 : option Q) : ratio_flag iv30 None = false.
Proof. now destruct iv30. Qed.

Lemma yang_zhang_gappy : yang_zhang gappy_bars 30 252 = Ok None.
Proof.
  rewrite yang_zhang_last by (try lia; discriminate). cbv zeta.
  rewrite (window_sum_gap 30 (log_oc_sq gappy_bars) (length gappy_bars - 1) 5);
    [reflexivity| | |reflexivity].
  - rewrite log_oc_sq_length. change (length gappy_bars) with 35%nat. lia.
  - change (length gappy_bars) with 35%nat. lia.
Qed.

(** The claim as stated fails on a history of 35 rows of which 25 are valid
    bars: fewer than 30 valid bars are available and the realized volatility
    has no defined value at the latest date, yet the run returns flags, from
    the Alpaca branch as well as from the Yahoo branch, with [iv30_rv30]
    false. *)
Lemma undefined_volatility_still_flags :
  length gappy_bars = 35%nat /\
  (length (filter valid_bar gappy_bars) < 30)%nat /\
  yang_zhang gappy_bars 30 252 = Ok None /\
  (exists r,
      alpaca_branch gappy_alpaca 0 chain_10_50 fresh = Returned (Flags r) /\
      compute_recommendation gappy_alpaca 0 "ABC" = Flags r /\
      iv30_rv30 r = false) /\
  (exists r,
      compute_recommendation gappy_yahoo 0 "ABC" = Flags r /\ iv30_rv30 r = false).
Proof.
  split; [reflexivity|]. split; [vm_compute; lia|]. split; [exact yang_zhang_gappy|].
  split.
  - assert (Hyz : yang_zhang (sort_index gappy_bars) 30 252 = Ok None).
    { replace (sort_index gappy_bars) with gappy_bars by (vm_compute; reflexivity).
      exact yang_zhang_gappy. }
    assert (Hb : alpaca_branch gappy_alpaca 0 chain_10_50 fresh
                 = alpaca_screen gappy_alpaca 0 100 false
                     (fst (alpaca_expiry_loop chain_10_50 100 [10; 50] fresh)))
      by reflexivity.
    assert (Hcr : compute_recommendation gappy_alpaca 0 "ABC"
                  = match alpaca_branch gappy_alpaca 0 chain_10_50 fresh with
                    | Returned o => o
                    | FellThrough st => yahoo_branch gappy_alpaca 0 "ABC" st
                    end) by reflexivity.
    rewrite Hcr, Hb.
    erewrite alpaca_screen_flags;
      [ | vm_compute; reflexivity | vm_compute; reflexivity | reflexivity
        | vm_compute; lia | exact Hyz | vm_compute; reflexivity | vm_compute; reflexivity ].
    eexists. split; [reflexivity|]. split; [reflexivity|].
    cbn [iv30_rv30]. apply ratio_flag_undefined.
  - assert (E : compute_recommendation gappy_yahoo 0 "ABC"
                = yahoo_screen gappy_yahoo 0 100
                    (yahoo_expiry_loop 100 [(10, yahoo_chain_at_100 10);
                                            (50, yahoo_chain_at_100 50)] 0 fresh))
      by reflexivity.
    rewrite E.
    erewrite yahoo_screen_flags;
      [ | vm_compute; discriminate | vm_compute; reflexivity | vm_compute; reflexivity
        | reflexivity | exact yang_zhang_gappy | vm_compute; reflexivity
        | vm_compute; reflexivity ].
    eexists. split; [reflexivity|]. cbn [iv30_rv30]. apply ratio_flag_undefined.
Qed.

(** C9, amended.  With fewer than 30 daily bars (rows, valid or not) the
    realized-volatility step has no defined value, and the run returns no
    flags: the Alpaca branch returns flags only from at least 30 Alpaca
    bars, the Yahoo branch only from at least 30 Yahoo bars; when neither
    provider has 30 bars the outcome of the run is a failure. *)
Theorem insufficient_history_no_flags :
  (forall (bars : list PriceBar) (tp v : R),
      (length bars < 30)%nat -> yang_zhang bars 30 tp <> Ok (Some v)) /\
  (forall md today chain st r,
      alpaca_branch md today chain st = Returned (Flags r) ->
      exists bars, alpaca_bars md = Some bars /\ (30 <= length bars)%nat) /\
  (forall md today ticker st r,
      yahoo_branch md today ticker st = Flags r ->
      exists h, yahoo_history md = Ok h /\ (30 <= length h)%nat) /\
  (forall md today ticker,
      (forall bars, alpaca_bars md = Some bars -> (length bars < 30)%nat) ->
      (forall h, yahoo_history md = Ok h -> (length h < 30)%nat) ->
      forall r, compute_recommendation md today ticker <> Flags r).
Proof.
  split; [exact yang_zhang_undefined_below_window|].
  split; [exact alpaca_branch_flags_bars|].
  split; [exact yahoo_branch_flags_rows|].
  intros md today ticker Ha Hy r. unfold compute_recommendation.
  destruct (ticker =? "")%string; [discriminate|].
  assert (Hyb : forall st, yahoo_branch md today ticker st <> Flags r).
  { intros st H. destruct (yahoo_branch_flags_rows _ _ _ _ _ H) as (h & Hh & Hl).
    specialize (Hy h Hh). lia. }
  destruct (alpaca_option_chain md) as [[|c0 chain]|]; [apply Hyb| |discriminate].
  destruct (alpaca_branch md today (c0 :: chain) fresh) as [o|st] eqn:E; [|apply Hyb].
  intros ->. destruct (alpaca_branch_flags_bars _ _ _ _ _ E) as (bars & Hb & Hl).
  specialize (Ha bars Hb). lia.
Qed.

(** On [short_history], with 20 bars from each provider, the estimator has no
    value and the run returns no flags; the flags of [first_unquoted] come
    from 40 Alpaca bars, those of the Yahoo branch on [near_only] from 40
    Yahoo bars. *)
Lemma insufficient_history_no_flags_witness :
  (forall bars, alpaca_bars short_history = Some bars -> (length bars < 30)%nat) /\
  (forall h, yahoo_history short_history = Ok h -> (length h < 30)%nat) /\
  (length (flat_bars 20) < 30)%nat /\
  yang_zhang (flat_bars 20) 30 252 <> Ok (Some 0%R) /\
  (forall r, compute_recommendation short_history 0 "ABC" <> Flags r) /\
  (exists bars, alpaca_bars first_unquoted = Some bars /\ (30 <= length bars)%nat) /\
  (exists h, yahoo_history near_only = Ok h /\ (30 <= length h)%nat).
Proof.
  assert (Ha : forall bars, alpaca_bars short_history = Some bars -> (length bars < 30)%nat).
  { intros bars [= <-]. vm_compute. lia. }
  assert (Hy : forall h, yahoo_history short_history = Ok h -> (length h < 30)%nat).
  { intros h [= <-]. vm_compute. lia. }
  assert (Hl : (length (flat_bars 20) < 30)%nat) by (vm_compute; lia).
  destruct insufficient_history_no_flags as (H1 & H2 & H3 & H4).
  split; [exact Ha|]. split; [exact Hy|]. split; [exact Hl|].
  split; [exact (H1 (flat_bars 20) 252%R 0%R Hl)|].
  split; [exact (H4 short_history 0 "ABC"%string Ha Hy)|].
  split.
  - destruct first_unquoted_flags as (r & m & Hb & _).
    exact (H2 first_unquoted 0 chain_first_unquoted fresh r Hb).
  - destruct near_only_yahoo_flags as (r & Hr).
    exact (H3 near_only 0 "ABC"%string fresh r Hr).
Defined.

Lemma yahoo_screen_short (md : MarketData) (today : Z) (price : Q) (st : Sampler)
      (f : Z -> option Q) (s : option Q) (h : list PriceBar) :
  atm_iv st <> [] ->
  build_term_structure (dtes_of today (atm_iv st)) (ivs_of (atm_iv st)) = Ok f ->
  slope_0_45 f (dtes_of today (atm_iv st)) = Ok s ->
  yahoo_history md = Ok h -> (length h < 30)%nat ->
  yahoo_screen md today price st = ErrorOf IndexError.
Proof.
  intros Hne Hb Hs Hh Hl. unfold yahoo_screen.
  destruct (atm_iv st) as [|kv d] eqn:E; [contradiction|].
  rewrite Hb, Hs, Hh.
  destruct h as [|b h].
  - reflexivity.
  - rewrite yang_zhang_short by first [discriminate | simpl in *; lia].
    unfold rolling_mean_last. rewrite length_map.
    destruct (Nat.ltb_spec (length (b :: h)) 30); [reflexivity|lia].
Qed.

(** The outcome on [short_history]. *)
Example short_history_outcome :
  compute_recommendation short_history 0 "ABC" = ErrorOf IndexError.
Proof.
  assert (H : compute_recommendation short_history 0 "ABC"
              = yahoo_screen short_history 0 100
                  (yahoo_expiry_loop 100
                     [(10, yahoo_chain_at_100 10); (50, yahoo_chain_at_100 50)] 0 fresh))
    by reflexivity.
  rewrite H. eapply yahoo_screen_short.
  - vm_compute. discriminate.
  - vm_compute. reflexivity.
  - vm_compute. reflexivity.
  - reflexivity.
  - vm_compute. lia.
Qed.

(** * Further properties *)

(** ** The expiration filter, on arbitrary lists of dates *)

Lemma sorted_perm_unique (a b : list Z) :
  StronglySorted Z.le a -> StronglySorted Z.le b -> Permutation a b -> a = b.
Proof.
  intros Ha. revert b. induction Ha as [|x a Hsa IH Hx]; intros b Hb Hp.
  - apply Permutation_nil in Hp. now subst.
  - destruct Hb as [|y b Hsb Hy].
    + apply Permutation_sym, Permutation_nil in Hp. discriminate.
    + rewrite Forall_forall in Hx, Hy.
      assert (x = y) as ->.
      { assert (Hxin : In x (y :: b)) by (apply (Permutation_in _ Hp); now left).
        assert (Hyin : In y (x :: a))
          by (apply (Permutation_in _ (Permutation_sym Hp)); now left).
        destruct Hxin as [->|Hxin]; [reflexivity|].
        destruct Hyin as [->|Hyin]; [reflexivity|].
        specialize (Hx y Hyin). specialize (Hy x Hxin). lia. }
      f_equal. apply IH; [assumption|]. now apply Permutation_cons_inv in Hp.
Qed.

Lemma sorted_of_sorted (l : list Z) : StronglySorted Z.le l -> sorted l = l.
Proof.
  intros H. apply sorted_perm_unique; [apply sorted_sorted|assumption|apply sorted_perm].
Qed.

Lemma StronglySorted_app_tail (pre : list Z) (m : Z) (post : list Z) :
  StronglySorted Z.le (pre ++ m :: post) -> forall d, In d post -> m <= d.
Proof.
  induction pre as [|x pre IH]; simpl; intros H.
  - inversion H as [|? ? _ Hm]; subst. now rewrite Forall_forall in Hm.
  - inversion H; subst. now apply IH.
Qed.

(** X1.  The filter does not depend on the order in which the dates are
    listed. *)
Theorem filter_dates_permutation (today : Z) (dates dates' : list Z) :
  Permutation dates dates' ->
  filter_dates today dates = filter_dates today dates'.
Proof.
  intros Hp. unfold filter_dates.
  replace (sorted dates') with (sorted dates); [reflexivity|].
  apply sorted_perm_unique; try apply sorted_sorted.
  rewrite (sorted_perm dates), (sorted_perm dates'). exact Hp.
Qed.

Lemma filter_dates_permutation_witness :
  Permutation [150; 100; 110] [100; 110; 150] /\
  filter_dates 100 [150; 100; 110] = Ok [110; 150].
Proof.
  assert (Hp : Permutation [150; 100; 110] [100; 110; 150]).
  { apply (Permutation_cons_app [100; 110] [] 150). reflexivity. }
  split; [exact Hp|].
  rewrite (filter_dates_permutation 100 _ _ Hp). reflexivity.
Defined.

(** X2.  On any list of dates, with repetitions or not, a successful filter
    returns dates of the input in ascending order, of which exactly the last
    one is on or after today + 45. *)
Theorem filter_dates_one_date_reaches (today : Z) (dates out : list Z) :
  filter_dates today dates = Ok out ->
  exists front m,
    out = front ++ [m] /\
    (forall d, In d front -> d < today + 45) /\ today + 45 <= m /\
    StronglySorted Z.le out /\
    (forall d, In d out -> In d dates).
Proof.
  intros Hf.
  destruct (filter_dates_shape today dates out Hf) as (front & m & Ho & Hfront & Hm & Hs).
  exists front, m. rewrite Forall_forall in Hfront.
  repeat split; try assumption.
  intros d Hd.
  destruct (filter_dates_unfold today dates)
    as [[_ Hr]|(pre & m' & post & Hsd & _ & _ & Hok)]; [congruence|].
  rewrite Hf in Hok. injection Hok as ->.
  apply sorted_In. rewrite Hsd.
  assert (Hin : In d (pre ++ [m'])).
  { destruct pre as [|p pre]; simpl in *.
    - destruct (m' =? today); [destruct Hd|assumption].
    - destruct (p =? today); [now right|assumption]. }
  rewrite in_app_iff in *. simpl in *. tauto.
Qed.

Lemma filter_dates_one_date_reaches_witness :
  filter_dates 100 [150; 100; 100; 110; 150; 170] = Ok [100; 110; 150] /\
  exists front m, [100; 110; 150] = front ++ [m] /\ 100 + 45 <= m.
Proof.
  assert (H : filter_dates 100 [150; 100; 100; 110; 150; 170] = Ok [100; 110; 150])
    by reflexivity.
  split; [exact H|].
  destruct (filter_dates_one_date_reaches _ _ _ H) as (front & m & Ho & _ & Hm & _).
  now exists front, m.
Defined.

(** X3.  What the filter keeps before the cutoff: every date before
    today + 45 other than today is returned; today itself is returned when
    the list also holds an earlier date, and is not returned when the list
    is duplicate-free and holds no earlier date. *)
Theorem filter_dates_before_cutoff (today : Z) (dates out : list Z) :
  filter_dates today dates = Ok out ->
  (forall d, In d dates -> d < today + 45 -> d <> today -> In d out) /\
  ((exists p, In p dates /\ p < today) -> In today dates -> In today out) /\
  (NoDup dates -> (forall p, In p dates -> today <= p) -> ~ In today out).
Proof.
  intros Hf.
  destruct (filter_dates_unfold today dates)
    as [[_ Hr]|(pre & m & post & Hsd & Hpre & Hm & Hok)]; [congruence|].
  rewrite Hf in Hok. injection Hok as Hout.
  pose proof (sorted_sorted dates) as Hs. rewrite Hsd in Hs.
  pose proof (StronglySorted_app_tail pre m post Hs) as Hpost.
  rewrite Forall_forall in Hpre.
  assert (Hin_pre : forall d, In d dates -> d < today + 45 -> In d pre).
  { intros d Hd Hlt. apply sorted_In in Hd. rewrite Hsd in Hd.
    apply in_app_iff in Hd. destruct Hd as [Hd|[<-|Hd]]; [assumption|lia|].
    specialize (Hpost d Hd). lia. }
  split; [|split].
  - intros d Hd Hlt Hne. specialize (Hin_pre d Hd Hlt). subst out.
    destruct pre as [|p pre]; [destruct Hin_pre|]. simpl.
    destruct (Z.eqb_spec p today) as [->|_].
    + destruct Hin_pre as [<-|Hin]; [contradiction|]. apply in_app_iff. now left.
    + change (In d ((p :: pre) ++ [m])). apply in_app_iff. now left.
  - intros (p & Hp & Hlt) Ht.
    pose proof (Hin_pre p Hp ltac:(lia)) as Hp'.
    pose proof (Hin_pre today Ht ltac:(lia)) as Ht'. subst out.
    destruct pre as [|q pre]; [destruct Hp'|]. simpl.
    assert (Hq : q <= p).
    { destruct Hp' as [->|Hp']; [lia|]. simpl in Hs. inversion Hs as [|? ? _ Hq]; subst.
      rewrite Forall_forall in Hq. apply Hq. apply in_app_iff. now left. }
    destruct (Z.eqb_spec q today) as [->|_]; [lia|].
    change (In today ((q :: pre) ++ [m])). apply in_app_iff. now left.
  - intros Hnd Hmin Ht. subst out.
    assert (Hsn : NoDup (pre ++ m :: post)) by (rewrite <- Hsd; now apply sorted_NoDup).
    destruct pre as [|q pre]; simpl in *.
    + destruct (Z.eqb_spec m today) as [E|_]; [lia|].
      destruct Ht as [E|[]]. lia.
    + destruct (Z.eqb_spec q today) as [->|Hq].
      * inversion Hsn as [|? ? Hnin _]; subst. apply Hnin.
        rewrite in_app_iff in *. simpl in *. tauto.
      * assert (Hq' : today <= q) by (apply Hmin, sorted_In; rewrite Hsd; now left).
        inversion Hs as [|? ? _ Hall]; subst. rewrite Forall_forall in Hall.
        assert (Hin : In today (pre ++ m :: post)).
        { destruct Ht as [->|Ht]; [contradiction|].
          rewrite in_app_iff in *. simpl in *. tauto. }
        specialize (Hall today Hin). lia.
Qed.

Lemma filter_dates_before_cutoff_witness :
  filter_dates 100 [99; 100; 110; 150] = Ok [99; 100; 110; 150] /\
  In 100 [99; 100; 110; 150] /\
  filter_dates 100 [100; 110; 150] = Ok [110; 150] /\
  NoDup [100; 110; 150] /\ ~ In 100 [110; 150].
Proof.
  assert (H1 : filter_dates 100 [99; 100; 110; 150] = Ok [99; 100; 110; 150]) by reflexivity.
  assert (H2 : filter_dates 100 [100; 110; 150] = Ok [110; 150]) by reflexivity.
  assert (Hnd : NoDup [100; 110; 150]) by (repeat constructor; simpl; intuition lia).
  split; [exact H1|]. split.
  - apply (proj1 (proj2 (filter_dates_before_cutoff _ _ _ H1))).
    + exists 99. simpl. split; [auto|lia].
    + simpl. auto.
  - split; [exact H2|]. split; [exact Hnd|].
    apply (proj2 (proj2 (filter_dates_before_cutoff _ _ _ H2)) Hnd).
    simpl. intros p Hp. lia.
Defined.

(** X4.  Filtering is idempotent on a set of dates: the filtered dates pass
    the filter unchanged. *)
Theorem filter_dates_idempotent (today : Z) (dates out : list Z) :
  NoDup dates -> filter_dates today dates = Ok out ->
  filter_dates today out = Ok out.
Proof.
  intros Hnd Hf.
  destruct (filter_dates_unfold today dates)
    as [[_ Hr]|(pre & m & post & Hsd & Hpre & Hm & Hok)]; [congruence|].
  rewrite Hf in Hok. injection Hok as Hout.
  assert (Hss : StronglySorted Z.lt (pre ++ m :: post)).
  { rewrite <- Hsd. apply StronglySorted_le_lt; [apply sorted_sorted|now apply sorted_NoDup]. }
  destruct (filter_dates_shape today dates out Hf) as (front & m' & Ho & Hfront & Hm' & Hs).
  assert (Hhd : forall d rest, out = d :: rest -> d <> today).
  { intros d rest Hd Hdt. subst d. rewrite Hd in Hout. revert Hout.
    destruct pre as [|q pre]; simpl.
    - destruct (Z.eqb_spec m today); [discriminate|]. intros [= <- _]. lia.
    - destruct (Z.eqb_spec q today) as [->|Hq]; [|intros [= <- _]; contradiction].
      intros Hout.
      inversion Hss as [|? ? _ Hall]; subst. rewrite Forall_forall in Hall.
      assert (Hin : In today (pre ++ m :: post)).
      { assert (Hin' : In today (pre ++ [m])) by (rewrite <- Hout; now left).
        rewrite in_app_iff in *. simpl in *. tauto. }
      specialize (Hall today Hin). lia. }
  destruct (filter_dates_unfold today out)
    as [[Hall Hr]|(pre2 & m2 & post2 & Hsd2 & Hpre2 & Hm2 & Hok2)].
  - rewrite sorted_of_sorted in Hall by assumption. rewrite Ho, Forall_forall in Hall.
    specialize (Hall m' ltac:(apply in_app_iff; right; now left)). lia.
  - rewrite sorted_of_sorted in Hsd2 by assumption.
    rewrite Forall_forall in Hfront, Hpre2.
    assert (pre2 = front /\ m2 = m' /\ post2 = []) as (-> & -> & ->).
    { rewrite Ho in Hsd2. clear -Hsd2 Hfront Hpre2 Hm2 Hm'.
      revert pre2 Hsd2 Hpre2. induction front as [|x front IH]; intros pre2 Hsd2 Hpre2.
      - destruct pre2 as [|y pre2]; simpl in Hsd2.
        + injection Hsd2 as <- <-. auto.
        + injection Hsd2 as <- E. destruct pre2; discriminate.
      - destruct pre2 as [|y pre2]; simpl in Hsd2.
        + injection Hsd2 as <- _. specialize (Hfront x ltac:(now left)). lia.
        + injection Hsd2 as <- E.
          destruct (IH ltac:(intros d Hd; apply Hfront; now right) pre2 E
                      ltac:(intros d Hd; apply Hpre2; now right)) as (-> & -> & ->).
          auto. }
    rewrite Hok2, <- Ho.
    destruct out as [|d rest] eqn:E; [destruct front; discriminate|].
    simpl. destruct (Z.eqb_spec d today) as [Hd|_]; [|reflexivity].
    exfalso. exact (Hhd d rest eq_refl Hd).
Qed.

Lemma filter_dates_idempotent_witness :
  NoDup [100; 110; 150; 170] /\
  filter_dates 100 [100; 110; 150; 170] = Ok [110; 150] /\
  filter_dates 100 [110; 150] = Ok [110; 150].
Proof.
  assert (Hnd : NoDup [100; 110; 150; 170]) by (repeat constructor; simpl; intuition lia).
  assert (H : filter_dates 100 [100; 110; 150; 170] = Ok [110; 150]) by reflexivity.
  split; [exact Hnd|]. split; [exact H|].
  exact (filter_dates_idempotent _ _ _ Hnd H).
Defined.

(** ** The term structure: samples, bounds, order and array lengths *)

Lemma build_term_structure_closure (days : list Z) (ivs : list Q) (f : Z -> option Q) :
  length days = length ivs -> build_term_structure days ivs = Ok f ->
  f = term_spline (map fst (sort_points days ivs)) (map snd (sort_points days ivs)) /\
  (2 <= length days)%nat.
Proof.
  intros Hlen Hb.
  assert (Hu : (2 <= length (np_unique days))%nat).
  { unfold build_term_structure in Hb.
    destruct (Nat.ltb_spec (length (np_unique days)) 2); [discriminate|assumption]. }
  rewrite (build_term_structure_sorted days ivs Hlen Hu) in Hb. injection Hb as <-.
  split; [reflexivity|]. pose proof (np_unique_length days). lia.
Qed.


Lemma segment_value_left (x : list Z) (y : list Q) (i : nat) :
  nth i x 0 < nth (S i) x 0 ->
  (segment_value x y i (nth i x 0%Z) == nth i y 0)%Q.
Proof.
  intros H. unfold segment_value. rewrite Z.sub_diag. change (inject_Z 0) with 0%Q.
  field. apply inject_Z_nonzero. lia.
Qed.


(** X5.  The curve passes through its samples: with pairwise distinct days,
    a query at a sampled day returns the volatility sampled there. *)
Theorem term_spline_through_samples (days : list Z) (ivs : list Q) (f : Z -> option Q) :
  length days = length ivs -> NoDup days ->
  build_term_structure days ivs = Ok f ->
  forall d v, In (d, v) (combine days ivs) -> exists q, f d = Some q /\ (q == v)%Q.
Proof.
  intros Hlen Hnd Hb d v Hin.
  destruct (build_term_structure_closure days ivs f Hlen Hb) as [-> Hn].
  pose proof (sort_points_length days ivs Hlen) as Hlsp.
  pose proof (sort_points_days days ivs Hlen) as Hx.
  destruct (sort_points_index days ivs d v Hin) as (j & Hj & Hdj & Hvj).
  set (sp := sort_points days ivs) in *.
  set (x := map fst sp) in *. set (y := map snd sp) in *.
  assert (Hlx : length x = length days) by (unfold x; now rewrite length_map).
  assert (Hle : StronglySorted Z.le x) by (rewrite Hx; apply sorted_sorted).
  assert (Hlt : StronglySorted Z.lt x).
  { rewrite Hx. apply StronglySorted_le_lt; [apply sorted_sorted|now apply sorted_NoDup]. }
  pose proof (StronglySorted_nth Z.lt x 0 Hlt) as Hmono.
  pose proof (sorted_nth_le x Hle 0 j ltac:(lia)) as H0.
  pose proof (sorted_nth_le x Hle j (length x - 1) ltac:(lia)) as Hlast.
  rewrite term_spline_inside by lia.
  destruct j as [|j].
  - pose proof (Hmono 0%nat 1%nat ltac:(lia)) as H01.
    rewrite <- Hdj, spline_first by lia.
    eexists. split; [reflexivity|]. rewrite segment_value_left by lia. now rewrite Hvj.
  - pose proof (Hmono 0%nat (S j) ltac:(lia)) as H0j.
    destruct (spline_segment x y d Hle ltac:(lia) ltac:(lia)
                ltac:(rewrite last_nth; lia)) as (i & Hi & Hseg & ->).
    assert (i = j) as ->.
    { destruct (lt_eq_lt_dec i j) as [[Hlt'|E]|Hgt]; [|assumption|].
      - pose proof (sorted_nth_le x Hle (S i) j ltac:(lia)).
        pose proof (Hmono j (S j) ltac:(lia)). lia.
      - pose proof (sorted_nth_le x Hle (S j) i ltac:(lia)). lia. }
    eexists. split; [reflexivity|].
    rewrite <- Hdj, segment_value_right by (rewrite Hdj; lia). now rewrite Hvj.
Qed.

Lemma term_spline_through_samples_witness :
  length [50; 10; 30] = length [0.50; 0.30; 0.35]%Q /\ NoDup [50; 10; 30] /\
  exists f q,
    build_term_structure [50; 10; 30] [0.50; 0.30; 0.35]%Q = Ok f /\
    f 30 = Some q /\ (q == 0.35)%Q.
Proof.
  assert (Hl : length [50; 10; 30] = length [0.50; 0.30; 0.35]%Q) by reflexivity.
  assert (Hnd : NoDup [50; 10; 30]) by (repeat constructor; simpl; intuition lia).
  split; [exact Hl|]. split; [exact Hnd|].
  destruct (build_term_structure [50; 10; 30] [0.50; 0.30; 0.35]%Q) as [f|] eqn:Hb;
    [|vm_compute in Hb; discriminate].
  destruct (term_spline_through_samples _ _ f Hl Hnd Hb 30 0.35%Q) as (q & Hq & He).
  - simpl. auto.
  - now exists f, q.
Defined.





Lemma sorted_pairs_unique (a b : list (Z * Q)) :
  StronglySorted (fun p q => (fst p <=? fst q) = true) a ->
  StronglySorted (fun p q => (fst p <=? fst q) = true) b ->
  Permutation a b -> NoDup (map fst a) -> a = b.
Proof.
  intros Ha. revert b. induction Ha as [|p a Hsa IH Hp]; intros b Hb Hperm Hnd.
  - apply Permutation_nil in Hperm. now subst.
  - destruct Hb as [|q b Hsb Hq].
    + apply Permutation_sym, Permutation_nil in Hperm. discriminate.
    + rewrite Forall_forall in Hp, Hq.
      assert (p = q) as ->.
      { assert (Hpin : In p (q :: b)) by (apply (Permutation_in _ Hperm); now left).
        assert (Hqin : In q (p :: a))
          by (apply (Permutation_in _ (Permutation_sym Hperm)); now left).
        destruct Hqin as [->|Hqin]; [reflexivity|].
        destruct Hpin as [->|Hpin]; [reflexivity|].
        specialize (Hp q Hqin). specialize (Hq p Hpin).
        assert (E : fst p = fst q) by lia.
        simpl in Hnd. inversion Hnd as [|? ? Hnin _]; subst.
        exfalso. apply Hnin. rewrite E. now apply in_map. }
      f_equal. apply IH; [assumption| |].
      * now apply Permutation_cons_inv in Hperm.
      * simpl in Hnd. now inversion Hnd.
Qed.

(** X7.  The curve does not depend on the order of the samples: with
    pairwise distinct days, the same sample points listed in another order
    build the same closure. *)
Theorem build_term_structure_order (days days' : list Z) (ivs ivs' : list Q)
        (f : Z -> option Q) :
  length days = length ivs -> length days' = length ivs' -> NoDup days ->
  Permutation (combine days ivs) (combine days' ivs') ->
  build_term_structure days ivs = Ok f ->
  build_term_structure days' ivs' = Ok f.
Proof.
  intros Hlen Hlen' Hnd Hperm Hb.
  destruct (build_term_structure_closure days ivs f Hlen Hb) as [-> Hn].
  assert (Hpd : Permutation days days').
  { rewrite <- (map_fst_combine days ivs Hlen), <- (map_fst_combine days' ivs' Hlen').
    now apply Permutation_map. }
  destruct (NoDup_two_distinct days Hnd Hn) as (a & b & Ha & Hb' & Hab).
  rewrite (build_term_structure_sorted days' ivs' Hlen').
  - do 2 f_equal; f_equal; symmetry; apply sorted_pairs_unique.
    all: try (apply stable_sort_sorted; intros; lia).
    all: try (rewrite (sort_points_perm days ivs), (sort_points_perm days' ivs');
              exact Hperm).
    all: rewrite (sort_points_days days ivs Hlen); now apply sorted_NoDup.
  - apply (np_unique_long days' a b); [| |assumption];
      now apply (Permutation_in _ Hpd).
Qed.

Lemma build_term_structure_order_witness :
  length [10; 50] = length [0.30; 0.50]%Q /\ length [50; 10] = length [0.50; 0.30]%Q /\
  NoDup [10; 50] /\
  Permutation (combine [10; 50] [0.30; 0.50]%Q) (combine [50; 10] [0.50; 0.30]%Q) /\
  exists f,
    build_term_structure [10; 50] [0.30; 0.50]%Q = Ok f /\
    build_term_structure [50; 10] [0.50; 0.30]%Q = Ok f.
Proof.
  assert (H1 : length [10; 50] = length [0.30; 0.50]%Q) by reflexivity.
  assert (H2 : length [50; 10] = length [0.50; 0.30]%Q) by reflexivity.
  assert (Hnd : NoDup [10; 50]) by (repeat constructor; simpl; intuition lia).
  assert (Hp : Permutation (combine [10; 50] [0.30; 0.50]%Q)
                           (combine [50; 10] [0.50; 0.30]%Q)) by apply perm_swap.
  split; [exact H1|]. split; [exact H2|]. split; [exact Hnd|]. split; [exact Hp|].
  destruct (build_term_structure [10; 50] [0.30; 0.50]%Q) as [f|] eqn:Hb;
    [|vm_compute in Hb; discriminate].
  exists f. split; [reflexivity|].
  exact (build_term_structure_order _ _ _ _ f H1 H2 Hnd Hp Hb).
Defined.

(** *** Arrays of different lengths *)

Lemma take_out_of_range {A : Type} (a : list A) (idx : list nat) (i : nat) :
  In i idx -> (length a <= i)%nat -> take a idx = Raise IndexError.
Proof.
  intros Hin Hi. induction idx as [|j idx IH]; [destruct Hin|]. simpl.
  destruct (nth_error a j) as [v|] eqn:E; [|reflexivity].
  destruct Hin as [->|Hin].
  - apply nth_error_None in Hi. congruence.
  - now rewrite IH.
Qed.

Lemma take_firstn {A : Type} (a : list A) (n : nat) (idx : list nat) :
  Forall (fun i => (i < n)%nat) idx -> take (firstn n a) idx = take a idx.
Proof.
  induction 1 as [|i idx Hi _ IH]; simpl; [reflexivity|].
  rewrite nth_error_firstn. destruct (Nat.ltb_spec i n); [|lia]. now rewrite IH.
Qed.

(** X8.  Arrays of different lengths, with at least two distinct days: when
    [ivs] is shorter than [days] the build raises [IndexError]; when it is
    longer, the surplus volatilities are ignored. *)
Theorem build_term_structure_lengths (days : list Z) (ivs : list Q) :
  (exists a b, In a days /\ In b days /\ a <> b) ->
  ((length ivs < length days)%nat ->
   build_term_structure days ivs = Raise IndexError) /\
  ((length days <= length ivs)%nat ->
   build_term_structure days ivs
   = build_term_structure days (firstn (length days) ivs)).
Proof.
  intros (a & b & Ha & Hb & Hab).
  pose proof (np_unique_long days a b Ha Hb Hab) as Hu.
  unfold build_term_structure.
  destruct (Nat.ltb_spec (length (np_unique days)) 2) as [|_]; [lia|].
  split.
  - intros Hlt. rewrite (take_map days (argsort days) 0 (argsort_range days)).
    simpl. rewrite (take_out_of_range ivs (argsort days) (length ivs)); [reflexivity| |lia].
    apply (Permutation_in _ (Permutation_sym (argsort_perm days))), in_seq. lia.
  - intros Hle. now rewrite (take_firstn ivs (length days) _ (argsort_range days)).
Qed.

Lemma build_term_structure_lengths_witness :
  (exists a b, In a [10; 50] /\ In b [10; 50] /\ a <> b) /\
  build_term_structure [10; 50] [0.30]%Q = Raise IndexError /\
  build_term_structure [10; 50] [0.30; 0.50; 0.90]%Q
  = build_term_structure [10; 50] [0.30; 0.50]%Q.
Proof.
  assert (H : exists a b, In a [10; 50] /\ In b [10; 50] /\ a <> b).
  { exists 10, 50. simpl. repeat split; auto. lia. }
  destruct (build_term_structure_lengths [10; 50] [0.30]%Q H) as [H1 _].
  destruct (build_term_structure_lengths [10; 50] [0.30; 0.50; 0.90]%Q H) as [_ H2].
  split; [exact H|]. split; [apply H1; simpl; lia|apply H2; simpl; lia].
Defined.

(** ** Further properties of the realized-volatility estimator *)

Section YangZhangMore.
Local Open Scope R_scope.

Ltac yz_len :=
  unfold s_add, s_sub, s_mul, s_scale, s_sq;
  repeat (progress (rewrite ?length_map, ?rolling_scaled_length, ?log_oc_sq_length,
                     ?log_cc_sq_length, ?rs_length)
          || rewrite map2_length);
  try reflexivity.

Lemma result_row_nonneg (x : option R) (tp v : R) :
  lift2 Rmult (np_sqrt x) (np_sqrt (Some tp)) = Some v -> 0 <= v.
Proof.
  unfold np_sqrt. destruct x as [a|]; [|discriminate].
  destruct (Rle_dec 0 a); [|discriminate]. destruct (Rle_dec 0 tp); [|discriminate].
  simpl. intros [= <-]. apply Rmult_le_pos; apply sqrt_pos.
Qed.

Lemma dropna_rows_nonneg (tp : R) (s : Series) :
  Forall (fun v => 0 <= v)
         (dropna (map (fun v => lift2 Rmult (np_sqrt v) (np_sqrt (Some tp))) s)).
Proof.
  induction s as [|x s IH]; [constructor|]. cbn [map dropna].
  destruct (lift2 Rmult (np_sqrt x) (np_sqrt (Some tp))) as [v|] eqn:E; [|exact IH].
  constructor; [|exact IH]. now apply (result_row_nonneg x tp).
Qed.

(** X9.  The estimator never yields a negative volatility, whatever the
    bars: neither as its last value nor anywhere in the full series. *)
Theorem yang_zhang_never_negative (bars : list PriceBar) (window : nat) (tp : R) :
  (forall v, yang_zhang bars window tp = Ok (Some v) -> 0 <= v) /\
  (forall l, yang_zhang_full bars window tp = Ok l -> Forall (fun v => 0 <= v) l).
Proof.
  unfold yang_zhang, yang_zhang_full, yang_zhang_result.
  destruct (window =? 1)%nat; [split; intros; discriminate|]. cbn [bind].
  set (s := s_add _ _). split.
  - intros v. destruct (map _ s) as [|r0 r] eqn:E; [discriminate|]. rewrite <- E.
    rewrite last_map_none by reflexivity. intros [= H].
    now apply (result_row_nonneg _ _ _ H).
  - intros l [= <-]. apply dropna_rows_nonneg.
Qed.

Lemma yang_zhang_never_negative_witness :
  yang_zhang (flat_bars 40) 30 252 = Ok (Some 0) /\ 0 <= 0.
Proof.
  assert (H : yang_zhang (flat_bars 40) 30 252 = Ok (Some 0))
    by (apply yang_zhang_flat; lia).
  split; [exact H|].
  exact (proj1 (yang_zhang_never_negative (flat_bars 40) 30 252) 0 H).
Defined.

(** *** Older bars *)

Lemma sum_over_shift (f g : nat -> R) (p a w : nat) :
  (forall j, (a <= j < a + w)%nat -> f (p + j)%nat = g j) ->
  sum_over f (p + a) w = sum_over g a w.
Proof.
  unfold sum_over. revert a. induction w as [|w IH]; intros a H; simpl; [reflexivity|].
  rewrite H by lia. f_equal.
  replace (S (p + a)) with (p + S a)%nat by lia. apply IH. intros; apply H; lia.
Qed.

Lemma bar_at_app (pre bars : list PriceBar) (j : nat) :
  bar_at (pre ++ bars) (length pre + j) = bar_at bars j.
Proof. unfold bar_at. apply app_nth2_plus. Qed.

(** X10.  On positive prices the value depends on the latest bars only: bars
    put in front of a frame of more than [window] rows do not change it. *)
Theorem yang_zhang_recent_bars (pre bars : list PriceBar) (window : nat) (tp : R) :
  (2 <= window)%nat -> (window < length bars)%nat ->
  Forall positive_bar pre -> Forall positive_bar bars ->
  yang_zhang (pre ++ bars) window tp = yang_zhang bars window tp.
Proof.
  intros Hw Hn Hpre Hpos.
  assert (Hall : Forall positive_bar (pre ++ bars)) by (apply Forall_app; now split).
  assert (Hlen : length (pre ++ bars) = (length pre + length bars)%nat)
    by apply length_app.
  assert (Hprev : forall j, (1 <= j)%nat ->
            bar_at (pre ++ bars) (length pre + j - 1) = bar_at bars (j - 1)).
  { intros j Hj. replace (length pre + j - 1)%nat with (length pre + (j - 1))%nat by lia.
    apply bar_at_app. }
  rewrite !yang_zhang_last
    by first [lia | destruct bars; [simpl in Hn; lia|try discriminate;
                                    destruct pre; discriminate]].
  cbv zeta.
  rewrite (window_sum_long window (log_oc_sq (pre ++ bars)) (overnight_sq (pre ++ bars)))
    by first [rewrite log_oc_sq_length; lia
             | intros j Hj; apply nth_log_oc_sq; [assumption|lia]].
  rewrite (window_sum_long window (log_cc_sq (pre ++ bars)) (close_sq (pre ++ bars)))
    by first [rewrite log_cc_sq_length; lia
             | intros j Hj; apply nth_log_cc_sq; [assumption|lia]].
  rewrite (window_sum_long window (rs (pre ++ bars)) (rs_term (pre ++ bars)))
    by first [rewrite rs_length; lia
             | intros j Hj; apply nth_rs; [assumption|lia]].
  rewrite (window_sum_long window (log_oc_sq bars) (overnight_sq bars))
    by first [rewrite log_oc_sq_length; lia
             | intros j Hj; apply nth_log_oc_sq; [assumption|lia]].
  rewrite (window_sum_long window (log_cc_sq bars) (close_sq bars))
    by first [rewrite log_cc_sq_length; lia
             | intros j Hj; apply nth_log_cc_sq; [assumption|lia]].
  rewrite (window_sum_long window (rs bars) (rs_term bars))
    by first [rewrite rs_length; lia
             | intros j Hj; apply nth_rs; [assumption|lia]].
  replace (S (length (pre ++ bars) - 1) - window)%nat
    with (length pre + (length bars - window))%nat by lia.
  replace (S (length bars - 1) - window)%nat with (length bars - window)%nat by lia.
  rewrite (sum_over_shift (overnight_sq (pre ++ bars)) (overnight_sq bars)).
  2:{ intros j Hj. unfold overnight_sq. rewrite bar_at_app, Hprev by lia. reflexivity. }
  rewrite (sum_over_shift (close_sq (pre ++ bars)) (close_sq bars)).
  2:{ intros j Hj. unfold close_sq. rewrite bar_at_app, Hprev by lia. reflexivity. }
  rewrite (sum_over_shift (rs_term (pre ++ bars)) (rs_term bars)).
  2:{ intros j Hj. unfold rs_term. rewrite bar_at_app. reflexivity. }
  reflexivity.
Qed.

Lemma yang_zhang_recent_bars_witness :
  (2 <= 30)%nat /\ (30 < length (flat_bars 40))%nat /\
  Forall positive_bar (flat_bars 5) /\ Forall positive_bar (flat_bars 40) /\
  yang_zhang (flat_bars 5 ++ flat_bars 40) 30 252 = yang_zhang (flat_bars 40) 30 252.
Proof.
  assert (H1 : (2 <= 30)%nat) by lia.
  assert (H2 : (30 < length (flat_bars 40))%nat)
    by (rewrite (proj1 (flat_bars_facts 40)); lia).
  pose proof (proj1 (proj2 (flat_bars_facts 5))) as H3.
  pose proof (proj1 (proj2 (flat_bars_facts 40))) as H4.
  split; [exact H1|]. split; [exact H2|]. split; [exact H3|]. split; [exact H4|].
  exact (yang_zhang_recent_bars (flat_bars 5) (flat_bars 40) 30 252 H1 H2 H3 H4).
Defined.

(** *** The two ways of returning *)

Lemma last_dropna (s : Series) (v : R) :
  last s None = Some v -> dropna s <> [] /\ last (dropna s) 0 = v.
Proof.
  induction s as [|x s IH]; [discriminate|].
  destruct s as [|y s].
  - simpl. intros ->. split; [discriminate|reflexivity].
  - intros H. change (last (x :: y :: s) None) with (last (y :: s) None) in H.
    destruct (IH H) as [Hne Hl].
    change (dropna (x :: y :: s))
      with (match x with Some u => u :: dropna (y :: s) | None => dropna (y :: s) end).
    destruct x as [u|]; [|now split]. split; [discriminate|].
    destruct (dropna (y :: s)) as [|d ds]; [contradiction|exact Hl].
Qed.

(** X11.  The two ways of returning agree: when the last value is a
    number, the full series is not empty and ends with that number. *)
Theorem yang_zhang_last_of_full (bars : list PriceBar) (window : nat) (tp v : R) :
  yang_zhang bars window tp = Ok (Some v) ->
  exists l, yang_zhang_full bars window tp = Ok l /\ l <> [] /\ last l 0 = v.
Proof.
  unfold yang_zhang, yang_zhang_full.
  destruct (yang_zhang_result bars window tp) as [r|e]; [|discriminate]. cbn [bind].
  destruct r as [|r0 r]; [discriminate|]. intros [= H].
  exists (dropna (r0 :: r)). split; [reflexivity|]. now apply last_dropna.
Qed.

Lemma yang_zhang_last_of_full_witness :
  yang_zhang (flat_bars 40) 30 252 = Ok (Some 0) /\
  exists l, yang_zhang_full (flat_bars 40) 30 252 = Ok l /\ l <> [] /\ last l 0 = 0.
Proof.
  assert (H : yang_zhang (flat_bars 40) 30 252 = Ok (Some 0))
    by (apply yang_zhang_flat; lia).
  split; [exact H|].
  exact (yang_zhang_last_of_full (flat_bars 40) 30 252 0 H).
Defined.

(** *** The rows of the full series *)

Lemma nth_rolling_sum (window : nat) (s : Series) (i : nat) :
  (i < length s)%nat -> nth i (rolling_sum window s) None = window_sum window s i.
Proof.
  intros Hi. unfold rolling_sum.
  rewrite (nth_indep _ None (window_sum window s 0%nat)) by now rewrite length_map, length_seq.
  rewrite map_nth, seq_nth by assumption. reflexivity.
Qed.

Lemma nth_rolling_scaled (window : nat) (s : Series) (i : nat) :
  (i < length s)%nat ->
  nth i (rolling_scaled window s) None
  = option_map (fun v => 1 / (INR window - 1) * v) (window_sum window s i).
Proof.
  intros Hi. unfold rolling_scaled, s_scale.
  rewrite <- nth_rolling_sum by assumption.
  exact (map_nth (option_map (fun v => 1 / (INR window - 1) * v)) _ None i).
Qed.

Lemma window_sum_early (window : nat) (s : Series) (i : nat) :
  (i < window)%nat -> nth 0 s None = None -> s <> [] -> window_sum window s i = None.
Proof.
  intros Hi H0 Hs. unfold window_sum.
  destruct (Nat.ltb_spec (S i) window) as [|Hge]; [reflexivity|].
  replace (S i - window)%nat with 0%nat by lia.
  destruct s as [|x s]; [contradiction|]. simpl in H0. subst x.
  destruct window as [|w]; [lia|]. reflexivity.
Qed.

(** Row [i] of the series [result]. *)
Lemma yang_zhang_result_row (bars : list PriceBar) (window : nat) (tp : R)
      (r : Series) (i : nat) :
  yang_zhang_result bars window tp = Ok r -> (i < length bars)%nat ->
  let at_row s := option_map (fun v => 1 / (INR window - 1) * v) (window_sum window s i) in
  length r = length bars /\
  nth i r None =
    lift2 Rmult
      (np_sqrt
         (lift2 Rplus
            (lift2 Rplus (at_row (log_oc_sq bars))
               (option_map (fun v => yz_k window * v) (at_row (log_cc_sq bars))))
            (option_map (fun v => (1 - yz_k window) * v) (at_row (rs bars)))))
      (np_sqrt (Some tp)).
Proof.
  intros Er Hi at_row. subst at_row. revert Er. unfold yang_zhang_result.
  destruct (window =? 1)%nat; [discriminate|]. cbv zeta.
  set (F := fun v => lift2 Rmult (np_sqrt v) (np_sqrt (Some tp))).
  set (sm := s_add _ _). intros Er.
  assert (Hr : r = map F sm) by congruence. subst r. clear Er. unfold sm.
  split; [yz_len|].
  change (@None R) with (F None) at 1. rewrite map_nth. unfold F. f_equal. f_equal.
  unfold s_add, s_scale.
  rewrite (nth_map2 (lift2 Rplus) _ _ _ None None) by (yz_len; exact Hi).
  rewrite (nth_map2 (lift2 Rplus) _ _ _ None None) by (yz_len; exact Hi).
  change (@None R) with (option_map (fun v => yz_k window * v) None) at 2.
  rewrite map_nth.
  change (@None R) with (option_map (fun v => (1 - yz_k window) * v) None) at 3.
  rewrite map_nth.
  rewrite !nth_rolling_scaled
    by (rewrite ?log_oc_sq_length, ?log_cc_sq_length, ?rs_length; exact Hi).
  reflexivity.
Qed.

Lemma dropna_length (s : Series) : (length (dropna s) <= length s)%nat.
Proof. induction s as [|[v|] s IH]; simpl; lia. Qed.

Lemma dropna_length_le (s : Series) (w : nat) :
  (forall i, (i < w)%nat -> nth i s None = None) ->
  (length (dropna s) <= length s - w)%nat.
Proof.
  revert w. induction s as [|x s IH]; intros w H; [simpl; lia|].
  destruct w as [|w]; [pose proof (dropna_length (x :: s)); lia|].
  pose proof (H 0%nat ltac:(lia)) as H0. simpl in H0. subst x. simpl.
  apply IH. intros i Hi. apply (H (S i)). lia.
Qed.

Lemma dropna_length_eq (s : Series) (w : nat) :
  (forall i, (i < w)%nat -> nth i s None = None) ->
  (forall i, (w <= i < length s)%nat -> nth i s None <> None) ->
  length (dropna s) = (length s - w)%nat.
Proof.
  revert w. induction s as [|x s IH]; intros w H1 H2; [reflexivity|].
  destruct w as [|w].
  - pose proof (H2 0%nat ltac:(simpl; lia)) as H0. simpl in H0.
    destruct x as [v|]; [|contradiction]. simpl.
    rewrite (IH 0%nat); [lia|intros; lia|].
    intros i Hi. apply (H2 (S i)). simpl. lia.
  - pose proof (H1 0%nat ltac:(lia)) as H0. simpl in H0. subst x. simpl.
    apply IH.
    + intros i Hi. apply (H1 (S i)). lia.
    + intros i Hi. apply (H2 (S i)). simpl. lia.
Qed.

(** X12.  The first [window] rows of the series are never numbers, so the
    full series has at most [len - window] values; on positive, consistent
    bars it has exactly that many. *)
Theorem yang_zhang_full_length (bars : list PriceBar) (window : nat) (tp : R)
        (l : list R) :
  (2 <= window)%nat -> yang_zhang_full bars window tp = Ok l ->
  (length l <= length bars - window)%nat /\
  (Forall positive_bar bars -> Forall consistent_bar bars -> 0 <= tp ->
   length l = (length bars - window)%nat).
Proof.
  intros Hw. unfold yang_zhang_full.
  destruct (yang_zhang_result bars window tp) as [r|e] eqn:Er; [|discriminate].
  cbn [bind]. intros [= <-].
  assert (Hlen : length r = length bars).
  { destruct bars as [|b bars].
    - revert Er. unfold yang_zhang_result. destruct (window =? 1)%nat; [discriminate|].
      now intros [= <-].
    - apply (yang_zhang_result_row (b :: bars) window tp r 0 Er). simpl. lia. }
  assert (Hearly : forall i, (i < window)%nat -> nth i r None = None).
  { intros i Hi. destruct (Nat.lt_ge_cases i (length bars)) as [Hlt|Hge].
    - destruct (yang_zhang_result_row bars window tp r i Er Hlt) as [_ ->].
      rewrite (window_sum_early window (log_oc_sq bars) i Hi (log_oc_sq_first bars)).
      + reflexivity.
      + intros E. pose proof (log_oc_sq_length bars) as Hl. rewrite E in Hl.
        simpl in Hl. lia.
    - apply nth_overflow. lia. }
  split.
  - rewrite <- Hlen. now apply dropna_length_le.
  - intros Hpos Hcons Htp. rewrite <- Hlen. apply dropna_length_eq; [assumption|].
    intros i Hi. rewrite Hlen in Hi.
    destruct (yang_zhang_result_row bars window tp r i Er ltac:(lia)) as [_ ->].
    rewrite (window_sum_long window (log_oc_sq bars) (overnight_sq bars))
      by first [rewrite log_oc_sq_length; lia
               | intros j Hj; apply nth_log_oc_sq; [assumption|lia]].
    rewrite (window_sum_long window (log_cc_sq bars) (close_sq bars))
      by first [rewrite log_cc_sq_length; lia
               | intros j Hj; apply nth_log_cc_sq; [assumption|lia]].
    rewrite (window_sum_long window (rs bars) (rs_term bars))
      by first [rewrite rs_length; lia
               | intros j Hj; apply nth_rs; [assumption|lia]].
    cbn [option_map lift2].
    assert (HW : 2 <= INR window) by (change 2 with (INR 2); now apply le_INR).
    assert (Hc : 0 < 1 / (INR window - 1)) by (apply Rdiv_lt_0_compat; lra).
    pose proof (yz_k_bounds window Hw) as Hk.
    assert (H1 : 0 <= sum_over (overnight_sq bars) (S i - window) window).
    { apply sum_over_nonneg. intros j _. unfold overnight_sq. nra. }
    assert (H2 : 0 <= sum_over (close_sq bars) (S i - window) window).
    { apply sum_over_nonneg. intros j _. unfold close_sq. nra. }
    assert (H3 : 0 <= sum_over (rs_term bars) (S i - window) window).
    { apply sum_over_nonneg. intros j Hj. apply rs_term_nonneg.
      - apply positive_bar_at; [assumption|lia].
      - rewrite Forall_forall in Hcons. apply Hcons, nth_In. lia. }
    set (c := 1 / (INR window - 1)) in *. set (k := yz_k window) in *.
    assert (0 <= c * sum_over (overnight_sq bars) (S i - window) window) by nra.
    assert (0 <= c * sum_over (close_sq bars) (S i - window) window) by nra.
    assert (0 <= c * sum_over (rs_term bars) (S i - window) window) by nra.
    rewrite !np_sqrt_nonneg by nra. discriminate.
Qed.

Lemma flat_bars_consistent (n : nat) : Forall consistent_bar (flat_bars n).
Proof.
  apply Forall_forall. intros b Hb. apply in_map_iff in Hb as (d & <- & _).
  unfold consistent_bar. simpl. repeat split; apply Qle_refl.
Qed.

Lemma yang_zhang_full_length_witness :
  (2 <= 30)%nat /\ Forall positive_bar (flat_bars 40) /\
  Forall consistent_bar (flat_bars 40) /\ 0 <= 252 /\
  exists l, yang_zhang_full (flat_bars 40) 30 252 = Ok l /\ length l = 10%nat.
Proof.
  assert (H1 : (2 <= 30)%nat) by lia.
  pose proof (proj1 (proj2 (flat_bars_facts 40))) as H2.
  pose proof (flat_bars_consistent 40) as H3.
  assert (H4 : 0 <= 252) by lra.
  split; [exact H1|]. split; [exact H2|]. split; [exact H3|]. split; [exact H4|].
  assert (Hl : exists l, yang_zhang_full (flat_bars 40) 30 252 = Ok l)
    by (unfold yang_zhang_full, yang_zhang_result; eexists; reflexivity).
  destruct Hl as [l E]. exists l. split; [exact E|].
  rewrite (proj2 (yang_zhang_full_length (flat_bars 40) 30 252 l H1 E) H2 H3 H4).
  rewrite (proj1 (flat_bars_facts 40)). reflexivity.
Defined.
End YangZhangMore.

(** ** Further properties of the sampling loops *)

Lemma Qle_bool_false_lt (a b : Q) : Qle_bool a b = false -> (b < a)%Q.
Proof.
  intros H. apply Qnot_le_lt. intros Hle. apply Qle_bool_iff in Hle. congruence.
Qed.

Lemma nearest_row_None (price : Q) (rows : list OptionRow) :
  nearest_row price rows = None -> rows = [].
Proof.
  destruct rows as [|r rows]; [reflexivity|]. simpl.
  destruct (nearest_row price rows) as [r'|]; [|discriminate].
  destruct (Qle_bool _ _); discriminate.
Qed.

(** X13.  [nearest_row] answers on every frame that is not empty, and its
    answer is the first row at the least distance from the price: the rows
    before it are strictly farther, the rows after it are no nearer. *)
Theorem nearest_row_first_minimum (price : Q) (rows : list OptionRow) :
  (rows <> [] -> exists r, nearest_row price rows = Some r) /\
  forall r, nearest_row price rows = Some r ->
    exists pre post,
      rows = pre ++ r :: post /\
      (forall x, In x pre -> (Qdist (strike r) price < Qdist (strike x) price)%Q) /\
      (forall x, In x post -> (Qdist (strike r) price <= Qdist (strike x) price)%Q).
Proof.
  split.
  - intros Hne. destruct (nearest_row price rows) as [r|] eqn:E; [now exists r|].
    apply nearest_row_None in E. contradiction.
  - induction rows as [|r0 rows IH]; intros r; [discriminate|]. simpl.
    destruct (nearest_row price rows) as [r'|] eqn:E.
    + destruct (IH r' eq_refl) as (pre & post & Hrows & Hpre & Hpost).
      destruct (Qle_bool (Qdist (strike r0) price) (Qdist (strike r') price)) eqn:Hle;
        intros [= <-].
      * apply Qle_bool_iff in Hle. exists [], rows. split; [reflexivity|].
        split; [intros x []|]. intros x Hx. rewrite Hrows in Hx.
        apply in_app_or in Hx. destruct Hx as [Hx|[<-|Hx]].
        -- apply Qlt_le_weak. eapply Qle_lt_trans; [exact Hle|now apply Hpre].
        -- exact Hle.
        -- eapply Qle_trans; [exact Hle|now apply Hpost].
      * apply Qle_bool_false_lt in Hle. exists (r0 :: pre), post.
        split; [now rewrite Hrows|]. split; [|exact Hpost].
        intros x [<-|Hx]; [exact Hle|now apply Hpre].
    + intros [= <-]. apply nearest_row_None in E. subst rows.
      exists [], []. split; [reflexivity|]. split; intros x [].
Qed.

Lemma nearest_row_first_minimum_witness :
  let rows := [mkRow 110 0.52 None None; mkRow 105 0.50 None None;
               mkRow 95 0.48 None None] in
  rows <> [] /\
  nearest_row 100 rows = Some (mkRow 105 0.50 None None) /\
  exists pre post,
    rows = pre ++ mkRow 105 0.50 None None :: post /\
    (forall x, In x pre -> (Qdist 105 100 < Qdist (strike x) 100)%Q) /\
    (forall x, In x post -> (Qdist 105 100 <= Qdist (strike x) 100)%Q).
Proof.
  intros rows.
  assert (H : nearest_row 100 rows = Some (mkRow 105 0.50 None None)) by reflexivity.
  split; [discriminate|]. split; [exact H|].
  exact (proj2 (nearest_row_first_minimum 100 rows) _ H).
Defined.

(** *** The strike the Alpaca loop samples *)

Lemma alpaca_strike_loop_first (exp_date : Z) (l : dict Q StrikeEntry)
      (st st' : Sampler) :
  alpaca_strike_loop exp_date l st = (st', None) ->
  (st' = st /\ forall x, In x l -> sample_value (snd x) = None) \/
  (exists pre x post v,
      l = pre ++ x :: post /\
      (forall y, In y pre -> sample_value (snd y) = None) /\
      sample_value (snd x) = Some v /\
      atm_iv st' = dict_set (atm_iv st) exp_date v).
Proof.
  induction l as [|[k e] l IH]; simpl.
  - intros [= <-]. left. split; [reflexivity|intros x []].
  - assert (Hskip : sample_value e = None ->
                    alpaca_strike_loop exp_date l st = (st', None) ->
                    (st' = st /\
                     forall x, (k, e) = x \/ In x l -> sample_value (snd x) = None) \/
                    (exists pre x post v,
                        (k, e) :: l = pre ++ x :: post /\
                        (forall y, In y pre -> sample_value (snd y) = None) /\
                        sample_value (snd x) = Some v /\
                        atm_iv st' = dict_set (atm_iv st) exp_date v)).
    { intros He H. destruct (IH H) as [[-> Hall]|(pre & x & post & v & -> & Hpre & Hx & Hv)].
      - left. split; [reflexivity|]. intros x [<-|Hx]; [exact He|now apply Hall].
      - right. exists ((k, e) :: pre), x, post, v. split; [reflexivity|].
        split; [|now split]. intros y [<-|Hy]; [exact He|now apply Hpre]. }
    destruct (call e) as [c|] eqn:Ec;
      [|apply Hskip; unfold sample_value; now rewrite Ec].
    destruct (put e) as [p|] eqn:Ep;
      [|apply Hskip; unfold sample_value; now rewrite Ec, Ep].
    destruct (snapshot_request_ok e); simpl; [|discriminate].
    destruct (snapshot c) as [cs|] eqn:Ecs;
      [|apply Hskip; unfold sample_value; now rewrite Ec, Ep, Ecs].
    destruct (snapshot p) as [ps|] eqn:Eps;
      [|apply Hskip; unfold sample_value; now rewrite Ec, Ep, Ecs, Eps].
    destruct (latest_quote cs) as [cq|] eqn:Ecq;
      [|apply Hskip; unfold sample_value; now rewrite Ec, Ep, Ecs, Eps, Ecq].
    destruct (latest_quote ps) as [pq|] eqn:Epq;
      [|apply Hskip; unfold sample_value; now rewrite Ec, Ep, Ecs, Eps, Ecq, Epq].
    destruct (implied_volatility cs) as [civ|] eqn:Eci;
      [|apply Hskip; unfold sample_value; now rewrite Ec, Ep, Ecs, Eps, Ecq, Epq, Eci].
    destruct (implied_volatility ps) as [piv|] eqn:Epi;
      [|apply Hskip; unfold sample_value;
        now rewrite Ec, Ep, Ecs, Eps, Ecq, Epq, Eci, Epi].
    intros H. right. exists [], (k, e), l, ((civ + piv) / 2)%Q.
    split; [reflexivity|]. split; [intros y []|]. split.
    + unfold sample_value. simpl. now rewrite Ec, Ep, Ecs, Eps, Ecq, Epq, Eci, Epi.
    + destruct (straddle st); injection H as <-; reflexivity.
Qed.

Lemma StronglySorted_after {A : Type} (R : A -> A -> Prop) (pre : list A) (x : A)
      (post : list A) :
  StronglySorted R (pre ++ x :: post) -> forall y, In y post -> R x y.
Proof.
  induction pre as [|p pre IH]; simpl; intros H.
  - inversion H as [|? ? _ Hx]; subst. now rewrite Forall_forall in Hx.
  - inversion H; subst. now apply IH.
Qed.

Lemma sorted_strikes_sorted (price : Q) (strikes : dict Q StrikeEntry) :
  StronglySorted (fun p q => Qle_bool (Qdist (fst p) price) (Qdist (fst q) price) = true)
                 (sorted_strikes price strikes).
Proof.
  apply (stable_sort_sorted
           (fun p q : Q * StrikeEntry =>
              Qle_bool (Qdist (fst p) price) (Qdist (fst q) price))).
  - intros x y. rewrite !Qle_bool_iff.
    destruct (Qlt_le_dec (Qdist (fst x) price) (Qdist (fst y) price)) as [H|H];
      [left; now apply Qlt_le_weak|now right].
  - intros x y z. rewrite !Qle_bool_iff. apply Qle_trans.
Qed.

(** X14.  When the Alpaca strike loop ends without an exception, either no
    strike of the expiration has a complete call and put sample and nothing
    changes, or the sample recorded comes from a strike that has one and
    that is at least as near to the price as every other strike that has
    one. *)
Theorem alpaca_sample_nearest_usable (exp_date : Z) (price : Q)
        (strikes : dict Q StrikeEntry) (st st' : Sampler) :
  alpaca_strike_loop exp_date (sorted_strikes price strikes) st = (st', None) ->
  (st' = st /\ forall k e, In (k, e) strikes -> sample_value e = None) \/
  (exists k e v,
      In (k, e) strikes /\ sample_value e = Some v /\
      atm_iv st' = dict_set (atm_iv st) exp_date v /\
      forall k' e', In (k', e') strikes -> sample_value e' <> None ->
                    (Qdist k price <= Qdist k' price)%Q).
Proof.
  intros H.
  pose proof (stable_sort_perm
                (fun p q : Q * StrikeEntry =>
                   Qle_bool (Qdist (fst p) price) (Qdist (fst q) price)) strikes) as Hperm.
  fold (sorted_strikes price strikes) in Hperm.
  pose proof (sorted_strikes_sorted price strikes) as Hsorted.
  destruct (alpaca_strike_loop_first _ _ _ _ H)
    as [[-> Hall]|(pre & [k e] & post & v & Hl & Hpre & Hx & Hv)].
  - left. split; [reflexivity|]. intros k e Hin.
    apply (Hall (k, e)). now apply (Permutation_in _ (Permutation_sym Hperm)).
  - right. exists k, e, v. simpl in Hx. rewrite Hl in Hperm, Hsorted.
    split; [|split; [exact Hx|split; [exact Hv|]]].
    + apply (Permutation_in _ Hperm). apply in_or_app. right. now left.
    + intros k' e' Hin Hne.
      apply (Permutation_in _ (Permutation_sym Hperm)) in Hin.
      apply in_app_or in Hin. destruct Hin as [Hin|[[= <- <-]|Hin]].
      * exfalso. apply Hne. exact (Hpre _ Hin).
      * apply Qle_refl.
      * apply Qle_bool_iff. exact (StronglySorted_after _ _ _ _ Hsorted _ Hin).
Qed.

Lemma alpaca_sample_nearest_usable_witness :
  let strikes := [ (100%Q, mkStrike (Some (quoted 0.30 2 3)) None true);
                   (110%Q, both (quoted 0.36 1 2) (quoted 0.52 10 11));
                   (105%Q, both (quoted 0.32 1 2) (quoted 0.50 6 7)) ] in
  exists st',
    alpaca_strike_loop 10 (sorted_strikes 100 strikes) fresh = (st', None) /\
    exists k e v,
      In (k, e) strikes /\ sample_value e = Some v /\
      atm_iv st' = dict_set [] 10 v /\
      forall k' e', In (k', e') strikes -> sample_value e' <> None ->
                    (Qdist k 100 <= Qdist k' 100)%Q.
Proof.
  intros strikes.
  destruct (alpaca_strike_loop 10 (sorted_strikes 100 strikes) fresh) as [st' o] eqn:E.
  assert (Ho : o = None) by (apply (f_equal snd) in E; vm_compute in E; now subst o).
  subst o. exists st'. split; [reflexivity|].
  destruct (alpaca_sample_nearest_usable 10 100 strikes fresh st' E)
    as [[_ Hall]|Hsome]; [|exact Hsome].
  exfalso. specialize (Hall 105%Q (both (quoted 0.32 1 2) (quoted 0.50 6 7))).
  assert (Hin : In (105%Q, both (quoted 0.32 1 2) (quoted 0.50 6 7)) strikes)
    by (right; right; now left).
  specialize (Hall Hin). discriminate.
Defined.

(** *** The samples of the Yahoo loop *)

Lemma dict_set_In {V : Type} (d : dict Z V) (k : Z) (v : V) (k' : Z) (v' : V) :
  In (k', v') (dict_set d k v) -> In (k', v') d \/ (k', v') = (k, v).
Proof.
  induction d as [|[k0 v0] d IH]; simpl.
  - intros [H|[]]. right. now symmetry.
  - destruct (k0 =? k).
    + intros [H|H]; [right; now symmetry|left; now right].
    + intros [H|H]; [left; now left|]. destruct (IH H); [left; now right|now right].
Qed.

Lemma dict_set_key_in {V : Type} (d : dict Z V) (k : Z) (v : V) :
  In k (keys (dict_set d k v)).
Proof.
  induction d as [|[k0 v0] d IH]; simpl; [now left|].
  destruct (k0 =? k); simpl; [now left|now right].
Qed.

Lemma dict_set_keys_mono {V : Type} (d : dict Z V) (k : Z) (v : V) (x : Z) :
  In x (keys d) -> In x (keys (dict_set d k v)).
Proof.
  induction d as [|[k0 v0] d IH]; simpl; [intros []|].
  destruct (Z.eqb_spec k0 k) as [->|Hne]; simpl; intros [H|H]; auto.
Qed.

Lemma yahoo_expiry_loop_samples (price : Q) (chains : dict Z YahooChain) :
  forall i st d v,
    In (d, v) (atm_iv (yahoo_expiry_loop price chains i st)) ->
    In (d, v) (atm_iv st) \/
    exists chain cs ps c p,
      In (d, chain) chains /\ calls chain = Some cs /\ puts chain = Some ps /\
      nearest_row price cs = Some c /\ nearest_row price ps = Some p /\
      v = ((impliedVolatility c + impliedVolatility p) / 2)%Q.
Proof.
  induction chains as [|[exp ch] rest IH]; intros i st d v; simpl; [now left|].
  assert (Hskip : forall j,
             In (d, v) (atm_iv (yahoo_expiry_loop price rest j st)) ->
             In (d, v) (atm_iv st) \/
             exists chain cs ps c p,
               ((exp, ch) = (d, chain) \/ In (d, chain) rest) /\
               calls chain = Some cs /\ puts chain = Some ps /\
               nearest_row price cs = Some c /\ nearest_row price ps = Some p /\
               v = ((impliedVolatility c + impliedVolatility p) / 2)%Q).
  { intros j H. destruct (IH _ _ _ _ H) as [H'|(chain & cs & ps & c & p & Hin & Hrest)];
      [now left|right]. exists chain, cs, ps, c, p. split; [now right|exact Hrest]. }
  destruct (calls ch) as [cs|] eqn:Ecs; [|apply Hskip].
  destruct (puts ch) as [ps|] eqn:Eps; [|apply Hskip].
  destruct (nearest_row price cs) as [c|] eqn:Ec; [|apply Hskip].
  destruct (nearest_row price ps) as [p|] eqn:Ep; [|apply Hskip].
  intros H. destruct (IH _ _ _ _ H) as [H'|(chain & cs' & ps' & c' & p' & Hin & Hrest)].
  - simpl in H'. apply dict_set_In in H'. destruct H' as [H'|[= -> ->]]; [now left|].
    right. exists ch, cs, ps, c, p. repeat split; try assumption. now left.
  - right. exists chain, cs', ps', c', p'. split; [now right|exact Hrest].
Qed.

Lemma yahoo_expiry_loop_keys_mono (price : Q) (chains : dict Z YahooChain) :
  forall i st k,
    In k (keys (atm_iv st)) -> In k (keys (atm_iv (yahoo_expiry_loop price chains i st))).
Proof.
  induction chains as [|[exp ch] rest IH]; intros i st k Hk; simpl; [assumption|].
  destruct (calls ch) as [cs|]; [|now apply IH].
  destruct (puts ch) as [ps|]; [|now apply IH].
  destruct (nearest_row price cs) as [c|]; [|now apply IH].
  destruct (nearest_row price ps) as [p|]; [|now apply IH].
  apply IH. simpl. now apply dict_set_keys_mono.
Qed.

Lemma yahoo_expiry_loop_sampled (price : Q) (chains : dict Z YahooChain) :
  forall i st d chain cs ps,
    In (d, chain) chains -> calls chain = Some cs -> puts chain = Some ps ->
    cs <> [] -> ps <> [] ->
    In d (keys (atm_iv (yahoo_expiry_loop price chains i st))).
Proof.
  induction chains as [|[exp ch] rest IH]; intros i st d chain cs ps Hin Hcs Hps Hc Hp;
    [destruct Hin|].
  destruct Hin as [[= -> ->]|Hin].
  - simpl. rewrite Hcs, Hps.
    destruct (nearest_row price cs) as [c|] eqn:Ec;
      [|apply nearest_row_None in Ec; contradiction].
    destruct (nearest_row price ps) as [p|] eqn:Ep;
      [|apply nearest_row_None in Ep; contradiction].
    apply yahoo_expiry_loop_keys_mono. simpl. apply dict_set_key_in.
  - simpl.
    destruct (calls ch) as [cs'|]; [|now apply (IH _ _ _ chain cs ps)].
    destruct (puts ch) as [ps'|]; [|now apply (IH _ _ _ chain cs ps)].
    destruct (nearest_row price cs') as [c|]; [|now apply (IH _ _ _ chain cs ps)].
    destruct (nearest_row price ps') as [p|]; [|now apply (IH _ _ _ chain cs ps)].
    now apply (IH _ _ _ chain cs ps).
Qed.

(** X15.  The samples of the Yahoo loop: every expiration whose call and
    put tables both have rows gets a sample, and every sample is the mean
    of the implied volatilities of the call row and of the put row nearest
    to the price, each taken from its own table. *)
Theorem yahoo_samples_nearest_rows (price : Q) (chains : dict Z YahooChain) :
  let st := yahoo_expiry_loop price chains 0 fresh in
  (forall d chain cs ps,
      In (d, chain) chains -> calls chain = Some cs -> puts chain = Some ps ->
      cs <> [] -> ps <> [] -> In d (keys (atm_iv st))) /\
  (forall d v,
      In (d, v) (atm_iv st) ->
      exists chain cs ps c p,
        In (d, chain) chains /\ calls chain = Some cs /\ puts chain = Some ps /\
        nearest_row price cs = Some c /\ nearest_row price ps = Some p /\
        v = ((impliedVolatility c + impliedVolatility p) / 2)%Q).
Proof.
  split.
  - intros d chain cs ps. apply yahoo_expiry_loop_sampled.
  - intros d v H. destruct (yahoo_expiry_loop_samples _ _ _ _ _ _ H) as [[]|H']; exact H'.
Qed.

Lemma yahoo_samples_nearest_rows_witness :
  let st := yahoo_expiry_loop 100 yahoo_uneven 0 fresh in
  In (10, ((0.30 + 0.50) / 2)%Q) (atm_iv st) /\
  exists chain cs ps c p,
    In (10, chain) yahoo_uneven /\ calls chain = Some cs /\ puts chain = Some ps /\
    nearest_row 100 cs = Some c /\ nearest_row 100 ps = Some p /\
    ((0.30 + 0.50) / 2)%Q = ((impliedVolatility c + impliedVolatility p) / 2)%Q.
Proof.
  intros st.
  assert (H : In (10, ((0.30 + 0.50) / 2)%Q) (atm_iv st)) by (left; reflexivity).
  split; [exact H|].
  exact (proj2 (yahoo_samples_nearest_rows 100 yahoo_uneven) _ _ H).
Defined.

(** ** Further properties of the screening engine *)

Lemma yahoo_screen_volume (md : MarketData) (today : Z) (price : Q) (st : Sampler)
      (r : ScreeningResult) :
  yahoo_screen md today price st = Flags r ->
  exists h a, yahoo_history md = Ok h /\
              rolling_mean_last 30 (map Volume h) = Ok a /\
              avg_volume r = Qle_bool 1500000 a.
Proof.
  unfold yahoo_screen. destruct (atm_iv st) as [|kv d]; [discriminate|].
  destruct (build_term_structure _ _) as [f|]; [|discriminate].
  destruct (slope_0_45 _ _) as [s|]; [|discriminate].
  destruct (yahoo_history md) as [h|]; [|discriminate].
  destruct (yang_zhang _ _ _) as [rv|]; [|discriminate].
  destruct (rolling_mean_last _ _) as [a|] eqn:Ea; [|discriminate].
  destruct (expected_move_of _ _ _) as [m|]; [|discriminate].
  intros [= <-]. exists h, a. repeat split; assumption.
Qed.

Lemma alpaca_screen_volume (md : MarketData) (today : Z) (price : Q) (np : bool)
      (st : Sampler) (r : ScreeningResult) :
  alpaca_screen md today price np st = Returned (Flags r) ->
  exists h a, yahoo_history md = Ok h /\
              rolling_mean_last 30 (map Volume h) = Ok a /\
              avg_volume r = Qle_bool 1500000 a.
Proof.
  unfold alpaca_screen.
  destruct (build_term_structure _ _) as [f|]; [|discriminate].
  destruct (slope_0_45 _ _) as [s|]; [|discriminate].
  destruct (alpaca_bars md) as [[|b bars]|]; try discriminate.
  destruct (30 <=? length (b :: bars))%nat; [|discriminate].
  destruct (yang_zhang _ _ _) as [rv|]; [|discriminate].
  unfold avg_volume_of.
  destruct (yahoo_history md) as [h|]; [|discriminate]. cbn [bind].
  destruct (rolling_mean_last _ _) as [a|] eqn:Ea; [|discriminate].
  destruct (expected_move_of _ _ _) as [m|]; [|discriminate].
  intros [= <-]. exists h, a. repeat split; assumption.
Qed.

(** X16.  Whichever provider the flags come from, the volume flag is
    computed from Yahoo's three-month history: a run that returns flags had
    at least 30 rows of it, and the flag compares the mean of the last 30
    volumes with 1,500,000. *)
Theorem volume_flag_from_yahoo (md : MarketData) (today : Z) (ticker : string)
        (r : ScreeningResult) :
  compute_recommendation md today ticker = Flags r ->
  exists h a,
    yahoo_history md = Ok h /\ (30 <= length h)%nat /\
    rolling_mean_last 30 (map Volume h) = Ok a /\
    avg_volume r = Qle_bool 1500000 a.
Proof.
  intros H.
  assert (Hex : exists h a, yahoo_history md = Ok h /\
                            rolling_mean_last 30 (map Volume h) = Ok a /\
                            avg_volume r = Qle_bool 1500000 a).
  { revert H. unfold compute_recommendation.
    destruct (ticker =? "")%string; [discriminate|].
    assert (Hy : forall st, yahoo_branch md today ticker st = Flags r ->
                 exists h a, yahoo_history md = Ok h /\
                             rolling_mean_last 30 (map Volume h) = Ok a /\
                             avg_volume r = Qle_bool 1500000 a).
    { intros st. unfold yahoo_branch.
      destruct (yahoo_options md) as [[|d0 dates]|[]]; try discriminate.
      destruct (filter_dates _ _) as [exps|]; [|discriminate].
      destruct (fetch_chains _ _ _) as [oc|]; [|discriminate].
      destruct (yahoo_price md) as [p|]; [|discriminate].
      apply yahoo_screen_volume. }
    destruct (alpaca_option_chain md) as [[|c0 chain]|]; [apply Hy| |discriminate].
    destruct (alpaca_branch md today (c0 :: chain) fresh) as [o|st] eqn:Eb; [|apply Hy].
    intros ->. revert Eb. unfold alpaca_branch.
    destruct (filter_dates _ _) as [exps|]; [|discriminate].
    destruct (alpaca_underlying_price md) as [[p np]|]; [|discriminate].
    destruct (alpaca_expiry_loop _ _ _ _) as [st' [e|]]; [discriminate|].
    destruct (2 <=? length (atm_iv st'))%nat; [|discriminate].
    apply alpaca_screen_volume. }
  destruct Hex as (h & a & Hh & Ha & Hv). exists h, a.
  repeat split; try assumption.
  pose proof (rolling_mean_last_rows _ _ _ Ha) as Hl. now rewrite length_map in Hl.
Qed.

Lemma volume_flag_from_yahoo_witness :
  exists r h a,
    compute_recommendation first_unquoted 0 "ABC" = Flags r /\
    yahoo_history first_unquoted = Ok h /\ (30 <= length h)%nat /\
    rolling_mean_last 30 (map Volume h) = Ok a /\
    avg_volume r = Qle_bool 1500000 a.
Proof.
  destruct first_unquoted_flags as (r & m & _ & Hr & _).
  destruct (volume_flag_from_yahoo first_unquoted 0 "ABC" r Hr) as (h & a & H).
  exists r, h, a. split; [exact Hr|exact H].
Defined.

(** *** Expirations that are all far away *)






(** ** The batch driver *)

Lemma screen_tickers_acc (market : string -> MarketData) (today : Z) (ig : bool)
      (rows : list EarningsRow) :
  forall results,
    screen_tickers market today ig rows results
    = results ++ screen_tickers market today ig rows [].
Proof.
  induction rows as [|t rows IH]; intros results; simpl; [now rewrite app_nil_r|].
  destruct ig.
  - rewrite IH, (IH [_]), <- app_assoc. reflexivity.
  - destruct (passes _).
    + rewrite IH, (IH [_]), <- app_assoc. reflexivity.
    + apply IH.
Qed.

Lemma screen_tickers_all (market : string -> MarketData) (today : Z)
      (rows : list EarningsRow) :
  screen_tickers market today true rows []
  = map (fun t => (act_symbol t, recommend market today (act_symbol t))) rows.
Proof.
  induction rows as [|t rows IH]; simpl; [reflexivity|].
  rewrite screen_tickers_acc, IH. reflexivity.
Qed.

Lemma screen_tickers_kept (market : string -> MarketData) (today : Z)
      (rows : list EarningsRow) :
  screen_tickers market today false rows []
  = filter (fun e => passes (snd e)) (screen_tickers market today true rows []).
Proof.
  rewrite screen_tickers_all.
  induction rows as [|t rows IH]; simpl; [reflexivity|].
  destruct (passes (recommend market today (act_symbol t))).
  - rewrite screen_tickers_acc, IH. reflexivity.
  - exact IH.
Qed.

(** X18.  What [--ignore-filters] changes: with it the report has one
    entry per row of the session, in the order of the calendar; without it
    the report is that list with the entries removed whose result is not a
    dict with the three flags true. *)
Theorem main_report_filtered (market : string -> MarketData) (today : Z)
        (todays tomorrows : list EarningsRow) :
  let all := main market today true todays tomorrows in
  let kept := main market today false todays tomorrows in
  map fst (fst all) = map act_symbol (session "after" todays) /\
  map fst (snd all) = map act_symbol (session "before" tomorrows) /\
  fst kept = filter (fun e => passes (snd e)) (fst all) /\
  snd kept = filter (fun e => passes (snd e)) (snd all).
Proof.
  unfold main. cbn [fst snd]. rewrite !screen_tickers_all, !map_map. cbn [fst].
  repeat split; try reflexivity.
  - rewrite screen_tickers_kept, screen_tickers_all. reflexivity.
  - rewrite screen_tickers_kept, screen_tickers_all. reflexivity.
Qed.

Lemma passes_flags (o : Outcome) :
  passes o = true ->
  exists r, o = Flags r /\ avg_volume r = true /\ iv30_rv30 r = true /\
            ts_slope_0_45 r = true.
Proof.
  destruct o as [s|e|r]; try discriminate. simpl. intros H.
  apply andb_prop in H as [H H3]. apply andb_prop in H as [H1 H2]. now exists r.
Qed.

Lemma session_In (word : string) (rows : list EarningsRow) (t : EarningsRow) :
  In t (session word rows) ->
  In t rows /\ exists w, when t = Some w /\ w <> ""%string /\
                         contains word (lower w) = true.
Proof.
  unfold session. rewrite filter_In. intros [Hin H]. split; [exact Hin|].
  destruct (when t) as [w|]; [|discriminate]. exists w.
  apply andb_prop in H as [H1 H2]. repeat split; [|exact H2].
  intros ->. discriminate.
Qed.

(** X19.  Without [--ignore-filters], an entry of the after-close report is
    the recommendation of a row of today's calendar whose label contains
    "after" in any letter case, and that recommendation is a dict whose three
    flags are true; error strings are never reported.  The same holds for
    the before-open report, with tomorrow's calendar and "before". *)
Theorem main_reports_passing (market : string -> MarketData) (today : Z)
        (todays tomorrows : list EarningsRow) (symbol : string) (o : Outcome) :
  let reported word rows :=
    o = recommend market today symbol /\
    (exists r, o = Flags r /\ avg_volume r = true /\ iv30_rv30 r = true /\
               ts_slope_0_45 r = true) /\
    (exists t w, In t rows /\ act_symbol t = symbol /\ when t = Some w /\
                 contains word (lower w) = true) in
  (In (symbol, o) (fst (main market today false todays tomorrows)) ->
   reported "after"%string todays) /\
  (In (symbol, o) (snd (main market today false todays tomorrows)) ->
   reported "before"%string tomorrows).
Proof.
  assert (H : forall word rows,
             In (symbol, o) (screen_tickers market today false (session word rows) []) ->
             o = recommend market today symbol /\
             (exists r, o = Flags r /\ avg_volume r = true /\ iv30_rv30 r = true /\
                        ts_slope_0_45 r = true) /\
             (exists t w, In t rows /\ act_symbol t = symbol /\ when t = Some w /\
                          contains word (lower w) = true)).
  { intros word rows. rewrite screen_tickers_kept, screen_tickers_all, filter_In, in_map_iff.
    intros [(t & [= <- <-] & Ht) Hp]. cbn [snd] in Hp.
    destruct (session_In _ _ _ Ht) as (Hin & w & Hw & _ & Hc).
    split; [reflexivity|]. split; [now apply passes_flags|]. now exists t, w. }
  intros reported. split; apply H.
Qed.

Lemma ratio_flag_zero_rv (iv : Q) : (0 < iv)%Q -> ratio_flag (Some iv) (Some 0%R) = true.
Proof.
  intros H. unfold ratio_flag. destruct (Req_dec_T 0 0) as [_|Hn]; [|contradiction].
  destruct (Qlt_le_dec 0 iv) as [_|Hle]; [reflexivity|].
  exfalso. exact (Qlt_not_le _ _ H Hle).
Qed.

(** On [falling] the engine returns flags that are all true. *)
Lemma falling_passes : passes (compute_recommendation falling 0 "ABC") = true.
Proof.
  assert (E : compute_recommendation falling 0 "ABC"
              = yahoo_screen falling 0 100
                  (yahoo_expiry_loop 100 [(10, falling_chain_at_100 10);
                                          (50, falling_chain_at_100 50)] 0 fresh))
    by reflexivity.
  rewrite E.
  erewrite yahoo_screen_flags;
    [ | vm_compute; discriminate | vm_compute; reflexivity | vm_compute; reflexivity
      | reflexivity | apply yang_zhang_flat; lia | vm_compute; reflexivity
      | vm_compute; reflexivity ].
  unfold passes. cbn [avg_volume iv30_rv30 ts_slope_0_45].
  apply andb_true_intro. split; [apply andb_true_intro; split|].
  - reflexivity.
  - apply ratio_flag_zero_rv. reflexivity.
  - reflexivity.
Qed.

Lemma main_reports_passing_witness :
  let todays := [mkEarnings " abc" (Some "After market close"%string);
                 mkEarnings "XYZ" (Some "AFTER MARKET CLOSE"%string);
                 mkEarnings "DEF" (Some "Before market open"%string);
                 mkEarnings "GHI" None] in
  let o := recommend two_tickers 0 " abc" in
  In (" abc"%string, o) (fst (main two_tickers 0 false todays [])) /\
  (exists r, o = Flags r /\ avg_volume r = true /\ iv30_rv30 r = true /\
             ts_slope_0_45 r = true) /\
  (exists t w, In t todays /\ act_symbol t = " abc"%string /\ when t = Some w /\
               contains "after" (lower w) = true).
Proof.
  intros todays o.
  assert (Hp : passes o = true) by exact falling_passes.
  assert (Hin : In (" abc"%string, o) (fst (main two_tickers 0 false todays []))).
  { unfold main. cbn [fst].
    change (session "after" todays)
      with [mkEarnings " abc" (Some "After market close"%string);
            mkEarnings "XYZ" (Some "AFTER MARKET CLOSE"%string)].
    cbn [screen_tickers act_symbol]. fold o. rewrite Hp.
    destruct (passes _); cbn [app In]; now left. }
  split; [exact Hin|].
  exact (proj2 (proj1 (main_reports_passing two_tickers 0 todays [] " abc" o) Hin)).
Defined.

(** ** Price level, bar order and rounding *)

Section Rescale.
Local Open Scope R_scope.
Variable c : Q.
Hypothesis c_pos : (0 < c)%Q.

Lemma Qdiv_rescale (u v : Q) : (c * u / (c * v) == u / v)%Q.
Proof.
  unfold Qdiv. rewrite Qinv_mult_distr.
  transitivity ((c * / c) * (u * / v))%Q; [ring|].
  rewrite Qmult_inv_r; [ring|]. intros E. rewrite E in c_pos.
  exact (Qlt_irrefl 0 c_pos).
Qed.

Lemma log_ratio_rescale (u v : Q) :
  log_ratio (Some (c * u)%Q) (Some (c * v)%Q) = log_ratio (Some u) (Some v).
Proof.
  unfold log_ratio.
  destruct (Qlt_le_dec 0 (c * u / (c * v))) as [H1|H1];
    destruct (Qlt_le_dec 0 (u / v)) as [H2|H2].
  - f_equal. f_equal. rewrite !Q2R_mult.
    assert (Hc : Q2R c <> 0) by (pose proof (Q2R_pos c c_pos); lra).
    assert (Hv : Q2R v <> 0).
    { intros E. assert (Ev : (v == 0)%Q) by (apply eqR_Qeq; now rewrite RMicromega.Q2R_0).
      rewrite Ev in H2. unfold Qdiv in H2. simpl in H2. rewrite Qmult_0_r in H2.
      exact (Qlt_irrefl 0 H2). }
    field. split; assumption.
  - exfalso. rewrite Qdiv_rescale in H1. exact (Qlt_not_le _ _ H1 H2).
  - exfalso. rewrite Qdiv_rescale in H1. exact (Qlt_not_le _ _ H2 H1).
  - reflexivity.
Qed.

Lemma bar_at_rescale (bars : list PriceBar) (i : nat) :
  (i < length bars)%nat ->
  bar_at (map (rescale c) bars) i = rescale c (bar_at bars i).
Proof.
  intros Hi. unfold bar_at.
  rewrite (nth_indep _ _ (rescale c (mkBar 0 1 1 1 1 0))) by now rewrite length_map.
  apply map_nth.
Qed.

(** A series [(a / b).apply(np.log)] of two price columns of the same row. *)
Lemma log_xo_rescale (f g : PriceBar -> Q) (bars : list PriceBar) :
  (forall b, f (rescale c b) = (c * f b)%Q) ->
  (forall b, g (rescale c b) = (c * g b)%Q) ->
  map2 log_ratio (column f (map (rescale c) bars)) (column g (map (rescale c) bars))
  = map2 log_ratio (column f bars) (column g bars).
Proof.
  intros Hf Hg. unfold column in *. induction bars as [|b bars IH]; [reflexivity|].
  cbn [map map2]. rewrite Hf, Hg, log_ratio_rescale. f_equal. exact IH.
Qed.

(** The same against the previous row of the second column. *)
Lemma log_xc_rescale (f g : PriceBar -> Q) (bars : list PriceBar) :
  (forall b, f (rescale c b) = (c * f b)%Q) ->
  (forall b, g (rescale c b) = (c * g b)%Q) ->
  map2 log_ratio (column f (map (rescale c) bars))
       (shift1 (column g (map (rescale c) bars)))
  = map2 log_ratio (column f bars) (shift1 (column g bars)).
Proof.
  intros Hf Hg.
  assert (Hl : forall h (l : list PriceBar),
             length (map2 log_ratio (column f l) (shift1 (column h l))) = length l).
  { intros h l. rewrite map2_length; rewrite ?shift1_length, !column_length; reflexivity. }
  apply (nth_ext _ _ None None).
  - now rewrite !Hl, length_map.
  - intros i Hi. rewrite Hl, length_map in Hi.
    rewrite !(nth_map2 log_ratio _ _ _ None None)
      by (rewrite ?shift1_length, !column_length, ?length_map; exact Hi).
    rewrite !nth_column by (rewrite ?length_map; exact Hi).
    rewrite bar_at_rescale, Hf by exact Hi.
    destruct i as [|i].
    + destruct bars as [|b bars]; [simpl in Hi; lia|]. reflexivity.
    + rewrite !nth_shift1 by (rewrite column_length, ?length_map; lia).
      rewrite !nth_column by (rewrite ?length_map; lia).
      rewrite bar_at_rescale, Hg by lia. apply log_ratio_rescale.
Qed.

Lemma yang_zhang_result_rescale (bars : list PriceBar) (window : nat) (tp : R) :
  yang_zhang_result (map (rescale c) bars) window tp = yang_zhang_result bars window tp.
Proof.
  unfold yang_zhang_result, rs, log_oc_sq, log_cc_sq, log_oc, log_cc, log_ho, log_lo, log_co.
  rewrite !log_xo_rescale, !log_xc_rescale by reflexivity. reflexivity.
Qed.
End Rescale.

(** X20.  In exact arithmetic the estimator does not depend on the price
    level: multiplying every price of every bar by the same positive factor
    changes neither the last value nor the full series. *)
Theorem yang_zhang_scale_invariant (c : Q) (bars : list PriceBar) (window : nat)
        (tp : R) :
  (0 < c)%Q ->
  yang_zhang (map (rescale c) bars) window tp = yang_zhang bars window tp /\
  yang_zhang_full (map (rescale c) bars) window tp = yang_zhang_full bars window tp.
Proof.
  intros Hc. unfold yang_zhang, yang_zhang_full.
  now rewrite (yang_zhang_result_rescale c Hc).
Qed.

Lemma yang_zhang_scale_invariant_witness :
  (0 < 2)%Q /\
  yang_zhang (map (rescale 2) (flat_bars 40)) 30 252 = yang_zhang (flat_bars 40) 30 252 /\
  yang_zhang_full (map (rescale 2) (flat_bars 40)) 30 252
  = yang_zhang_full (flat_bars 40) 30 252.
Proof.
  assert (H : (0 < 2)%Q) by reflexivity.
  split; [exact H|]. exact (yang_zhang_scale_invariant 2 (flat_bars 40) 30 252 H).
Defined.

(** *** The order of the bars *)

(** X21.  With pairwise distinct timestamps, the realized volatility that
    the Alpaca branch computes does not depend on the order in which the bars
    arrive: [sort_index] puts any arrangement of the same bars in the same
    order. *)
Theorem sort_index_order (bars bars' : list PriceBar) (window : nat) (tp : R) :
  NoDup (map Date bars) -> Permutation bars bars' ->
  sort_index bars = sort_index bars' /\
  yang_zhang (sort_index bars) window tp = yang_zhang (sort_index bars') window tp.
Proof.
  intros Hnd Hperm.
  assert (E : sort_index bars = sort_index bars'); [|now rewrite E].
  pose proof (stable_sort_perm (fun a b => Date a <=? Date b) bars) as P1.
  pose proof (stable_sort_perm (fun a b => Date a <=? Date b) bars') as P2.
  apply (sorted_by_key_unique Date).
  - apply (stable_sort_sorted (fun a b => Date a <=? Date b)); intros; lia.
  - apply (stable_sort_sorted (fun a b => Date a <=? Date b)); intros; lia.
  - unfold sort_index. rewrite P1, P2. exact Hperm.
  - apply (Permutation_NoDup (l := map Date bars)); [|exact Hnd].
    apply Permutation_map. symmetry. exact P1.
Qed.

Lemma sort_index_order_witness :
  let b1 := mkBar 1 100 101 99 100 2000000 in
  let b2 := mkBar 2 100 102 98 101 2000000 in
  NoDup (map Date [b2; b1]) /\ Permutation [b2; b1] [b1; b2] /\
  sort_index [b2; b1] = sort_index [b1; b2] /\
  yang_zhang (sort_index [b2; b1]) 30 252 = yang_zhang (sort_index [b1; b2]) 30 252.
Proof.
  intros b1 b2.
  assert (Hnd : NoDup (map Date [b2; b1])).
  { simpl. constructor; [intros [H|[]]; discriminate|].
    constructor; [intros []|constructor]. }
  assert (Hp : Permutation [b2; b1] [b1; b2]) by apply perm_swap.
  split; [exact Hnd|]. split; [exact Hp|].
  exact (sort_index_order [b2; b1] [b1; b2] 30 252 Hnd Hp).
Defined.

(** *** The expected move *)

Lemma round_half_even_near (q : Q) :
  (Qabs.Qabs (inject_Z (round_half_even q) - q) <= 1 # 2)%Q.
Proof.
  unfold round_half_even.
  pose proof (Qfloor_le q) as Hlo. pose proof (Qlt_floor q) as Hhi.
  rewrite inject_Z_plus in Hhi. change (inject_Z 1) with 1%Q in Hhi.
  apply Qabs.Qabs_Qle_condition.
  destruct (q - inject_Z (Qfloor q) ?= 1 # 2)%Q eqn:E.
  - apply Qeq_alt in E. destruct (Z.even (Qfloor q)).
    + split; Lqa.lra.
    + rewrite inject_Z_plus. change (inject_Z 1) with 1%Q. split; Lqa.lra.
  - apply Qlt_alt in E. split; Lqa.lra.
  - apply Qgt_alt in E. rewrite inject_Z_plus. change (inject_Z 1) with 1%Q.
    split; Lqa.lra.
Qed.

(** X22.  When an expected move is reported as a number, the straddle and
    the price are not zero, and the number is a whole number of hundredths
    of a percent within 0.005 of straddle / price * 100. *)
Theorem expected_move_rounding (np : bool) (s p : Q) (m : Q) :
  expected_move_of np (Some s) p = Ok (Some (Some m)) ->
  ~ (s == 0)%Q /\ ~ (p == 0)%Q /\
  (exists n : Z, m = (inject_Z n / 100)%Q) /\
  (Qabs.Qabs (m - s / p * 100) <= 1 # 200)%Q.
Proof.
  unfold expected_move_of.
  destruct (Qeq_bool s 0) eqn:Es; [discriminate|].
  destruct (Qeq_bool p 0) eqn:Ep; [destruct np; discriminate|].
  intros [= <-].
  split; [intros H; apply Qeq_bool_iff in H; congruence|].
  split; [intros H; apply Qeq_bool_iff in H; congruence|].
  split; [now exists (round_half_even (s / p * 100 * 100))|].
  unfold round2. set (x := (s / p * 100)%Q).
  pose proof (round_half_even_near (x * 100)) as H.
  apply Qabs.Qabs_Qle_condition in H. apply Qabs.Qabs_Qle_condition.
  set (n := inject_Z (round_half_even (x * 100))) in *.
  assert (E : (n / 100 - x == (n - x * 100) / 100)%Q) by (field).
  rewrite E. destruct H as [H1 H2]. split.
  - apply Qle_shift_div_l; [reflexivity|]. Lqa.lra.
  - apply Qle_shift_div_r; [reflexivity|]. Lqa.lra.
Qed.

Lemma expected_move_rounding_witness :
  exists m,
    expected_move_of true (Some 5%Q) 300 = Ok (Some (Some m)) /\
    ~ (5 == 0)%Q /\ ~ (300 == 0)%Q /\
    (exists n : Z, m = (inject_Z n / 100)%Q) /\
    (Qabs.Qabs (m - 5 / 300 * 100) <= 1 # 200)%Q.
Proof.
  destruct (expected_move_of true (Some 5%Q) 300) as [[[m|]|]|e] eqn:E;
    try (vm_compute in E; discriminate).
  exists m. split; [reflexivity|].
  exact (expected_move_rounding true 5 300 m E).
Defined.
